(** * merge-gpx: the merge-point search, the splice and the retiming

    A shallow embedding of [src/mergeGpx.ts] (the two-file merge) and of
    the single-file retiming script, with the properties the
    specification states about them, followed by further properties of
    the code: how the merge and the search fail, the edge cases of the
    threshold and of the coordinates, what the search does not read, the
    log of the single-file script.

    Conventions of the embedding.
    - A JavaScript Number that holds a coordinate, a distance or a
      threshold is a binary64 [float]; [<=] is IEEE comparison, so it is
      false as soon as one side is NaN.
    - A Number that holds a time value (milliseconds since the epoch) is
      an [option Z], [None] standing for NaN.  Time values are integers
      of magnitude at most 8.64e15 and an array has fewer than 2^32
      elements, so every sum and difference the scripts compute on them
      is below 2^53 and exact in binary64.
    - A JavaScript string is a [string].
    - The built-ins whose results ECMAScript leaves to the engine
      ([Number.parseFloat], [Math.sin], [Math.cos], [Math.sqrt],
      [Math.atan2], [Date.parse], the text [toISOString] prints) are
      fields of a [Host]; every definition takes the host as a
      parameter, and the theorems hold for every host (those about the
      value of the haversine distance for every host whose [Math] has
      the properties they name).
    - Console output, the readline prompt and the file write are events
      of a trace; the operator's answers are the lines of [stdin]. *)

From Stdlib Require Import ZArith Lia Bool List String Ascii Floats.
From Stdlib Require Uint63.
Import ListNotations.

(* ================================================================= *)
(** ** Numbers: the order of binary64 values *)

Module JSNumber.

(** Position of a double on the extended real line as a lexicographic
    key: class (infinities, negative, zero, positive), then exponent,
    then mantissa.  Both zeros share one key. *)
Definition sf_key (f : spec_float) : Z * (Z * Z) :=
  match f with
  | S754_nan => (0, (0, 0))%Z
  | S754_zero _ => (0, (0, 0))%Z
  | S754_infinity true => (-2, (0, 0))%Z
  | S754_infinity false => (2, (0, 0))%Z
  | S754_finite true m e => (-1, (- e, Z.neg m))%Z
  | S754_finite false m e => (1, (e, Z.pos m))%Z
  end.

Definition key_compare (a b : Z * (Z * Z)) : comparison :=
  match Z.compare (fst a) (fst b) with
  | Eq => match Z.compare (fst (snd a)) (fst (snd b)) with
          | Eq => Z.compare (snd (snd a)) (snd (snd b))
          | c => c
          end
  | c => c
  end.

Definition sf_is_nan (f : spec_float) : bool :=
  match f with S754_nan => true | _ => false end.

(** [Math.min] and [Math.max] on two arguments: NaN if either is NaN,
    and -0 below +0. *)
Definition Math_min (x y : float) : float :=
  if (is_nan x || is_nan y)%bool then nan
  else if (x <? y)%float then x
  else if (y <? x)%float then y
  else match classify x with NZero => x | _ => y end.

Definition Math_max (x y : float) : float :=
  if (is_nan x || is_nan y)%bool then nan
  else if (y <? x)%float then x
  else if (x <? y)%float then y
  else match classify x with PZero => x | _ => y end.

(** [lo <= p <= hi], each comparison as JavaScript evaluates it. *)
Definition in_closed_interval (p lo hi : float) : bool :=
  ((lo <=? p)%float && (p <=? hi)%float)%bool.

End JSNumber.

(* ================================================================= *)
(** ** Strings: [toLowerCase] and the pattern of [String.prototype.match] *)

Module JSString.

(** [String.prototype.toLowerCase] on the Latin letters.  The only
    character whose lower case is [y] is [Y], so for the question asked
    of the result (does it contain a [y]) the other alphabets do not
    matter. *)
Definition toLowerCase_char (c : ascii) : ascii :=
  let n := nat_of_ascii c in
  if (65 <=? n)%nat && (n <=? 90)%nat then ascii_of_nat (n + 32) else c.

Fixpoint toLowerCase (s : string) : string :=
  match s with
  | EmptyString => EmptyString
  | String c s' => String (toLowerCase_char c) (toLowerCase s')
  end.

(** The patterns the script uses: literals, alternation, a group. *)
Inductive RegExp : Type :=
| Lit (l : string)
| Alt (r1 r2 : RegExp)
| Group (r : RegExp).

Fixpoint is_prefix (l s : string) : bool :=
  match l, s with
  | EmptyString, _ => true
  | String a l', String b s' => if Ascii.eqb a b then is_prefix l' s' else false
  | String _ _, EmptyString => false
  end.

(** The text the pattern matches at the start of [s], alternatives tried
    from left to right. *)
Fixpoint match_here (r : RegExp) (s : string) : option string :=
  match r with
  | Lit l => if is_prefix l s then Some l else None
  | Alt r1 r2 =>
      match match_here r1 s with
      | Some m => Some m
      | None => match_here r2 s
      end
  | Group r' => match_here r' s
  end.

(** [RegExp.prototype.exec] without flags: the leftmost position where
    the pattern matches, with the matched text; [None] is [null]. *)
Fixpoint exec (r : RegExp) (s : string) : option (nat * string) :=
  match match_here r s with
  | Some m => Some (0%nat, m)
  | None =>
      match s with
      | EmptyString => None
      | String _ s' =>
          match exec r s' with
          | Some (i, m) => Some (S i, m)
          | None => None
          end
      end
  end.

(** [s.match(pattern)] for a pattern given as a string. *)
Definition String_match (s : string) (r : RegExp) : option (nat * string) :=
  exec r s.

Fixpoint contains_char (c : ascii) (s : string) : bool :=
  match s with
  | EmptyString => false
  | String a s' => (Ascii.eqb a c || contains_char c s')%bool
  end.

End JSString.

(* ================================================================= *)
(** ** The host: built-ins the engine implements *)

Record Host : Type := {
  Number_parseFloat : string -> float;
  Math_sin : float -> float;
  Math_cos : float -> float;
  Math_sqrt : float -> float;
  Math_atan2 : float -> float -> float;
  (** [Date.parse]: the time value of a date string, [None] for NaN. *)
  Date_parse : string -> option Z;
  (** The text [toISOString] prints for a valid time value. *)
  Date_format : Z -> string
}.

(** [Math.PI], the double nearest to pi. *)
Definition Math_PI : float := 0x1.921fb54442d18p+1%float.

(** Exceptions the scripts can raise. *)
Inductive Error : Type :=
| TypeError
| RangeError.

(** A Date object is its time value; [None] is the invalid date. *)
Definition DateValue : Type := option Z.

(** [TimeClip]: a time value beyond 8.64e15 ms makes the date invalid. *)
Definition TimeClip (tv : Z) : DateValue :=
  if (Z.abs tv <=? 8640000000000000)%Z then Some tv else None.

(** [new Date(value)] for a Number. *)
Definition new_Date (value : option Z) : DateValue :=
  match value with
  | Some tv => TimeClip tv
  | None => None
  end.

(** [Date.prototype.toISOString]: throws a RangeError on an invalid date. *)
Definition toISOString (h : Host) (d : DateValue) : Error + string :=
  match d with
  | Some tv => inr (Date_format h tv)
  | None => inl RangeError
  end.

(** Number arithmetic on time values, NaN absorbing. *)
Definition num_add (a : option Z) (b : Z) : option Z :=
  option_map (fun x => (x + b)%Z) a.

Definition num_sub (a : option Z) (b : Z) : option Z :=
  option_map (fun x => (x - b)%Z) a.

(* ================================================================= *)
(** ** src/mergeGpx.ts *)

Module MergeGpx.

(** [interface TrkPrt]: a track point as the XML parser delivers it;
    the attributes ["@_lat"] and ["@_lon"] are strings. *)
Record TrkPrt : Type := {
  time : string;
  ele : float;
  attr_lat : string;
  attr_lon : string
}.

(** [class LatLng]. *)
Record LatLng : Type := {
  lat : float;
  lng : float
}.

(** [constructor(lat: string, lng: string)]. *)
Definition LatLng_new (h : Host) (lat lng : string) : LatLng :=
  {| lat := Number_parseFloat h lat; lng := Number_parseFloat h lng |}.

(** [static fromTrkPrt(trkPrt)]. *)
Definition fromTrkPrt (h : Host) (trkPrt : TrkPrt) : LatLng :=
  LatLng_new h (attr_lat trkPrt) (attr_lon trkPrt).

(** [isBetween(latLng1, latLng2)] of the receiver [this]. *)
Definition isBetween (this latLng1 latLng2 : LatLng) : bool :=
  if ((lat latLng1 <=? lat this)%float && (lat this <=? lat latLng2)%float)
     || ((lat latLng2 <=? lat this)%float && (lat this <=? lat latLng1)%float)
     || ((lng latLng1 <=? lng this)%float && (lng this <=? lng latLng2)%float)
     || ((lng latLng2 <=? lng this)%float && (lng this <=? lng latLng1)%float)
  then true
  else false.

(** [haversineDist(latLng1, latLng2)], in meters. *)
Definition haversineDist (h : Host) (latLng1 latLng2 : LatLng) : float :=
  let R := 6371e3%float in
  let phi1 := (lat latLng1 * Math_PI / 180)%float in
  let phi2 := (lat latLng2 * Math_PI / 180)%float in
  let dphi := ((lat latLng2 - lat latLng1) * Math_PI / 180)%float in
  let dlambda := ((lng latLng2 - lng latLng1) * Math_PI / 180)%float in
  let a :=
    (Math_sin h (dphi / 2) * Math_sin h (dphi / 2)
     + Math_cos h phi1 * Math_cos h phi2
       * Math_sin h (dlambda / 2) * Math_sin h (dlambda / 2))%float in
  let c := (2 * Math_atan2 h (Math_sqrt h a) (Math_sqrt h (1 - a)))%float in
  (R * c)%float.

(** The pattern ["(y|yes)"] that [userConfirm] hands to [match]. *)
Definition confirm_pattern : JSString.RegExp :=
  JSString.Group (JSString.Alt (JSString.Lit "y") (JSString.Lit "yes")).

(** [userConfirm()]: the value the promise resolves to once the operator
    has typed [answer]. *)
Definition userConfirm (answer : string) : bool :=
  match JSString.String_match (JSString.toLowerCase answer) confirm_pattern with
  | Some _ => true
  | None => false
  end.

(** What the scan prints about one qualifying point (lines 131 to 159):
    the point, the next point when there is one, the running minimum
    (the script prints [minDist], not the point's own distance) and the
    two flags.  [cand_index] is the loop index of the iteration that
    printed the report. *)
Record Candidate : Type := {
  cand_index : nat;
  cand_trkPrt : TrkPrt;
  cand_nextPrt : option TrkPrt;
  cand_minDist : float;
  cand_inBetween : bool;
  cand_isMinDist : bool
}.

(** What the script does that the outside can see, in order. *)
Inductive Event : Type :=
| Info_pointToMergeWith (firstTrkInEnd : TrkPrt)
    (** lines 111 and 112: the point to merge with *)
| Info_promising (c : Candidate)
    (** lines 131 to 159: the report of a candidate *)
| Ask_mergeAtThisPoint
    (** line 202: the question of [userConfirm] *)
| Info_merging (outputGpx : string)
    (** line 176 *)
| WriteFile (path : string) (trkpt : list TrkPrt)
    (** line 192: [fs.writeFileSync] *)
| Info_written (outputGpx : string)
    (** line 193 *)
| Info_noMergePoint
    (** line 168: no merge point found *).

(** [trkPrt.time = t], the other fields untouched. *)
Definition set_time (trkPrt : TrkPrt) (t : string) : TrkPrt :=
  {| time := t;
     ele := ele trkPrt;
     attr_lat := attr_lat trkPrt;
     attr_lon := attr_lon trkPrt |}.

(** The [_.forEach] of [mergeFiles] from position [index] on: each point
    gets the ISO text of [startTimeMs + index * 1000]; an invalid date
    aborts the loop with the RangeError of [toISOString]. *)
Fixpoint forEach_retime (h : Host) (startTimeMs : option Z) (index : nat)
    (toMerge : list TrkPrt) : Error + list TrkPrt :=
  match toMerge with
  | [] => inr []
  | trkPrt :: rest =>
      let d := new_Date (num_add startTimeMs (Z.of_nat index * 1000)) in
      match toISOString h d with
      | inl e => inl e
      | inr iso =>
          match forEach_retime h startTimeMs (S index) rest with
          | inl e => inl e
          | inr rest' => inr (set_time trkPrt iso :: rest')
          end
      end
  end.

(** [mergeFiles(endXml, toMerge, outputGpx)]: the events it produces and
    how it completes.  The document handed to the XML builder is [endXml]
    with its point list replaced, so the file written is represented by
    that point list. *)
Definition mergeFiles (h : Host) (endTrkPrts toMerge : list TrkPrt)
    (outputGpx : string) : list Event * (Error + unit) :=
  match endTrkPrts with
  | [] => ([Info_merging outputGpx], inl TypeError)
  | firstTrkInEnd :: _ =>
      let timeToReachMs := Date_parse h (time firstTrkInEnd) in
      let startTimeMs :=
        num_sub timeToReachMs (Z.of_nat (List.length toMerge) * 1000) in
      match forEach_retime h startTimeMs 0 toMerge with
      | inl e => ([Info_merging outputGpx], inl e)
      | inr retimed =>
          ([Info_merging outputGpx;
            WriteFile outputGpx (retimed ++ endTrkPrts);
            Info_written outputGpx],
           inr tt)
      end
  end.

(** How a run of [findMergePoint] ends. *)
Inductive Outcome : Type :=
| Confirmed (index : nat) (merge : Error + unit)
    (** the operator accepted the candidate at [index]; [merge] is how
        [mergeFiles] completed *)
| Exhausted
    (** the loop ran off the end of the begin track *)
| Pending (index : nat)
    (** the question about [index] was never answered: [stdin] ended *)
| Threw (e : Error).

(** One pass through the body of the [for] loop. *)
Inductive Step : Type :=
| Continue (minDist : float) (toMerge : list TrkPrt) (stdin : list string)
    (printed : list Event)
| Return (printed : list Event) (o : Outcome).

(** What a pass printed. *)
Definition printed_by (s : Step) : list Event :=
  match s with
  | Continue _ _ _ printed => printed
  | Return printed _ => printed
  end.

Section FindMergePoint.

Variable h : Host.
Variables beginTrkPrts endTrkPrts : list TrkPrt.
Variable outputGpx : string.
Variable thresholdMeters : float.
Variable firstEndLatLng : LatLng.

(** The loop body at [index], where [trkPrt = beginTrkPrts[index]].
    Inside the loop the begin track is not empty, so
    [beginTrkPrts.length - 1] is the natural-number difference.  Under
    the guard [index < beginTrkPrts.length - 1] the array has an element
    at [index + 1]; were it missing, [fromTrkPrt] would throw a
    TypeError. *)
Definition loop_body (index : nat) (trkPrt : TrkPrt) (minDist : float)
    (toMerge : list TrkPrt) (stdin : list string) : Step :=
  let toMerge := toMerge ++ [trkPrt] in
  let latLng := fromTrkPrt h trkPrt in
  let dist := haversineDist h firstEndLatLng latLng in
  if (dist <=? thresholdMeters)%float then
    let '(minDist, isMinDist) :=
      if (dist <=? minDist)%float then (dist, true) else (minDist, false) in
    let next :=
      if (index <? List.length beginTrkPrts - 1)%nat
      then
        match nth_error beginTrkPrts (index + 1) with
        | Some nextPrt =>
            inr (Some nextPrt,
                 isBetween firstEndLatLng latLng (fromTrkPrt h nextPrt))
        | None => inl TypeError
        end
      else inr (None, false) in
    match next with
    | inl e => Return [] (Threw e)
    | inr (nextPrt, inBetween) =>
        let report :=
          Info_promising
            {| cand_index := index;
               cand_trkPrt := trkPrt;
               cand_nextPrt := nextPrt;
               cand_minDist := minDist;
               cand_inBetween := inBetween;
               cand_isMinDist := isMinDist |} in
        match stdin with
        | [] => Return [report; Ask_mergeAtThisPoint] (Pending index)
        | answer :: stdin' =>
            if userConfirm answer then
              let '(printed, merge) := mergeFiles h endTrkPrts toMerge outputGpx in
              Return (report :: Ask_mergeAtThisPoint :: printed)
                     (Confirmed index merge)
            else
              Continue minDist toMerge stdin' [report; Ask_mergeAtThisPoint]
        end
    end
  else Continue minDist toMerge stdin [].

(** The [for] loop from [index] on; [remaining] bounds the passes left
    ([beginTrkPrts.length - index] at every call).  Reading past the end
    of the array is the loop test failing. *)
Fixpoint for_loop (remaining index : nat) (minDist : float)
    (toMerge : list TrkPrt) (stdin : list string) : list Event * Outcome :=
  match remaining with
  | O => ([Info_noMergePoint], Exhausted)
  | S remaining' =>
      match nth_error beginTrkPrts index with
      | None => ([Info_noMergePoint], Exhausted)
      | Some trkPrt =>
          match loop_body index trkPrt minDist toMerge stdin with
          | Return printed o => (printed, o)
          | Continue minDist' toMerge' stdin' printed =>
              let '(later, o) :=
                for_loop remaining' (S index) minDist' toMerge' stdin' in
              (printed ++ later, o)
          end
      end
  end.

End FindMergePoint.

(** [findMergePoint(beginXml, endXml, outputGpx, thresholdMeters)], the
    two point arrays taken out of the parsed documents, run against the
    operator's answers [stdin]. *)
Definition findMergePoint (h : Host) (beginTrkPrts endTrkPrts : list TrkPrt)
    (outputGpx : string) (thresholdMeters : float) (stdin : list string)
    : list Event * Outcome :=
  match endTrkPrts with
  | [] => ([], Threw TypeError)
  | firstTrkInEnd :: _ =>
      let firstEndLatLng := fromTrkPrt h firstTrkInEnd in
      let '(printed, o) :=
        for_loop h beginTrkPrts endTrkPrts outputGpx thresholdMeters
          firstEndLatLng (List.length beginTrkPrts) 0 infinity [] stdin in
      (Info_pointToMergeWith firstTrkInEnd :: printed, o)
  end.

(** The files a trace writes, in order. *)
Fixpoint writes (tr : list Event) : list (string * list TrkPrt) :=
  match tr with
  | [] => []
  | WriteFile path trkpt :: tr' => (path, trkpt) :: writes tr'
  | _ :: tr' => writes tr'
  end.

(** The candidates a trace reports, in order. *)
Fixpoint candidates (tr : list Event) : list Candidate :=
  match tr with
  | [] => []
  | Info_promising c :: tr' => c :: candidates tr'
  | _ :: tr' => candidates tr'
  end.

(** The number of questions a trace asks. *)
Fixpoint questions (tr : list Event) : nat :=
  match tr with
  | [] => 0
  | Ask_mergeAtThisPoint :: tr' => S (questions tr')
  | _ :: tr' => questions tr'
  end.

(** [linearDist(lat1, lon1, lat2, lon2)].  [Math.pow] is an argument:
    the host record does not carry it. *)
Definition linearDist (h : Host) (Math_pow : float -> float -> float)
    (lat1 lon1 lat2 lon2 : float) : float :=
  let decimalToMeters := (1000 * 10000 / 90)%float in
  let decDist :=
    Math_sqrt h (Math_pow (lat2 - lat1) 2 + Math_pow (lon2 - lon1) 2)%float in
  (decimalToMeters * decDist)%float.

End MergeGpx.

(* ================================================================= *)
(** ** The single-file script (src/unnamed/part_000) *)

Module FixGpx.

(** [interface TrkPrt] of this script. *)
Record TrkPrt : Type := {
  time : string;
  attr_lat : string;
  attr_lon : string
}.

Definition timeToReach : string := "2021-12-18T20:14:37Z".

(** [.621371], mi/km. *)
Definition milePerKm : float := 0x1.3e2456f75d9a1p-1%float.

Definition secPerHour : float := 3600%float.

(** [haversineDist(lat1, lon1, lat2, lon2)], in meters. *)
Definition haversineDist (h : Host) (lat1 lon1 lat2 lon2 : float) : float :=
  let R := 6371e3%float in
  let phi1 := (lat1 * Math_PI / 180)%float in
  let phi2 := (lat2 * Math_PI / 180)%float in
  let dphi := ((lat2 - lat1) * Math_PI / 180)%float in
  let dlambda := ((lon2 - lon1) * Math_PI / 180)%float in
  let a :=
    (Math_sin h (dphi / 2) * Math_sin h (dphi / 2)
     + Math_cos h phi1 * Math_cos h phi2
       * Math_sin h (dlambda / 2) * Math_sin h (dlambda / 2))%float in
  let c := (2 * Math_atan2 h (Math_sqrt h a) (Math_sqrt h (1 - a)))%float in
  (R * c)%float.

Inductive Event : Type :=
| Warn_time (t : string)
| Warn_distance (dist : float)
| Warn_speed (milesPerHour : float)
| WriteFile (path : string) (trkpt : list TrkPrt).

Definition set_time (trkPrt : TrkPrt) (t : string) : TrkPrt :=
  {| time := t; attr_lat := attr_lat trkPrt; attr_lon := attr_lon trkPrt |}.

(** The [_.forEach] over [trkPrts] from position [idx] on, [rest] being
    the points not yet visited.  It returns what was printed and either
    the retimed points or the RangeError that stopped it. *)
Fixpoint forEach_retime (h : Host) (trkPrts : list TrkPrt)
    (startTimeMs : option Z) (idx : nat) (rest : list TrkPrt)
    : list Event * (Error + list TrkPrt) :=
  match rest with
  | [] => ([], inr [])
  | trkPrt :: rest' =>
      let d := new_Date (num_add startTimeMs (Z.of_nat idx * 1000)) in
      match toISOString h d with
      | inl e => ([], inl e)
      | inr iso =>
          let lat := Number_parseFloat h (attr_lat trkPrt) in
          let lng := Number_parseFloat h (attr_lon trkPrt) in
          let speed :=
            if (idx <? List.length trkPrts - 1)%nat then
              match nth_error trkPrts (idx + 1) with
              | Some nextPrt =>
                  let nextLat := Number_parseFloat h (attr_lat nextPrt) in
                  let nextLng := Number_parseFloat h (attr_lon nextPrt) in
                  let dist := haversineDist h lat lng nextLat nextLng in
                  inr [Warn_distance dist;
                       Warn_speed (dist / 1000 * milePerKm * secPerHour)%float]
              | None => inl TypeError
              end
            else inr [] in
          match speed with
          | inl e => ([Warn_time iso], inl e)
          | inr printed =>
              let '(later, r) :=
                forEach_retime h trkPrts startTimeMs (S idx) rest' in
              (Warn_time iso :: printed ++ later,
               match r with
               | inl e => inl e
               | inr rest'' => inr (set_time trkPrt iso :: rest'')
               end)
          end
      end
  end.

(** The value of [parsed.gpx.trk.trkseg.trkpt].  The parser is created
    without the [isArray] option, so it delivers an array only for two
    or more [trkpt] elements; a single element is delivered as the
    object itself, and with no element the property is not there. *)
Inductive TrkptValue : Type :=
| Trkpt_undefined
| Trkpt_object (trkPrt : TrkPrt)
| Trkpt_array (trkPrts : list TrkPrt).

(** What the parser delivers for a track segment that holds [points]. *)
Definition parsed_trkpt (points : list TrkPrt) : TrkptValue :=
  match points with
  | [] => Trkpt_undefined
  | [trkPrt] => Trkpt_object trkPrt
  | _ :: _ :: _ => Trkpt_array points
  end.

(** Lines 24 to 53 when [trkpt] is an array. *)
Definition script_on_array (h : Host) (trkPrts : list TrkPrt)
    : list Event * (Error + unit) :=
  let timeToReachMs := Date_parse h timeToReach in
  let count := List.length trkPrts in
  let startTimeMs := num_sub timeToReachMs (Z.of_nat count * 1000) in
  let '(printed, r) := forEach_retime h trkPrts startTimeMs 0 trkPrts in
  match r with
  | inl e => (printed, inl e)
  | inr retimed =>
      (printed ++ [WriteFile "./lunch-ride-fixed.gpx" retimed], inr tt)
  end.

(** The script, from the value the parser delivered.
    - Not there: [.length] of [undefined] on line 24 is a TypeError.
    - An object: [count] is [undefined], so [startTimeMs] is NaN;
      [_.forEach] visits the properties of the object (it has those of
      a [TrkPrt], and no [length]), and the first visit calls
      [toISOString] on the invalid date [new Date(NaN)], which throws a
      RangeError before anything is logged.
    - An array: the loop and the write. *)
Definition script (h : Host) (trkpt : TrkptValue)
    : list Event * (Error + unit) :=
  match trkpt with
  | Trkpt_undefined => ([], inl TypeError)
  | Trkpt_object _ => ([], inl RangeError)
  | Trkpt_array trkPrts => script_on_array h trkPrts
  end.

(** [linearDist(lat1, lon1, lat2, lon2)] of this script, which never
    calls it. *)
Definition linearDist (h : Host) (Math_pow : float -> float -> float)
    (lat1 lon1 lat2 lon2 : float) : float :=
  let decimalToMeters := (1000 * 10000 / 90)%float in
  let decDist :=
    Math_sqrt h (Math_pow (lat2 - lat1) 2 + Math_pow (lon2 - lon1) 2)%float in
  (decimalToMeters * decDist)%float.

End FixGpx.

(* ================================================================= *)
(** ** A host to run examples on

    Decimal [parseFloat] (sign, digits, fraction; exact while the digits
    fit in 53 bits), truncated series for the trigonometric functions
    (good to about 1e-12 between -pi and pi), the IEEE square root, and
    the UTC date-time form of ISO 8601.  The theorems below do not
    depend on it; it instantiates them on concrete tracks. *)

Module SampleHost.

Definition digit_of (c : ascii) : option Z :=
  let n := nat_of_ascii c in
  if ((48 <=? n) && (n <=? 57))%nat then Some (Z.of_nat (n - 48)) else None.

(** Reads the decimal digits that start [s] onto [acc]: the value, the
    number of digits read and the rest of the string. *)
Fixpoint read_digits (s : string) (acc : Z) (n : nat) : Z * nat * string :=
  match s with
  | EmptyString => (acc, n, s)
  | String c s' =>
      match digit_of c with
      | Some d => read_digits s' (acc * 10 + d)%Z (S n)
      | None => (acc, n, s)
      end
  end.

Definition float_of_Z (z : Z) : float := of_uint63 (Uint63.of_Z z).

Definition parseFloat (s : string) : float :=
  let '(negative, s1) :=
    match s with
    | String "-" s' => (true, s')
    | String "+" s' => (false, s')
    | _ => (false, s)
    end in
  let '(int_part, n_int, s2) := read_digits s1 0 0 in
  let '(mantissa, n_frac) :=
    match s2 with
    | String "." s3 =>
        let '(m, n, _) := read_digits s3 int_part 0 in (m, n)
    | _ => (int_part, 0%nat)
    end in
  if (n_int + n_frac =? 0)%nat then nan
  else
    let v := (float_of_Z mantissa / float_of_Z (10 ^ Z.of_nat n_frac))%float in
    if negative then (- v)%float else v.

(** [1 - u/((k+1)(k+2)) (1 - u/((k+3)(k+4)) (...))], [n] factors deep. *)
Fixpoint alternating (n : nat) (k u : float) : float :=
  match n with
  | O => 1%float
  | S n' => (1 - u / ((k + 1) * (k + 2)) * alternating n' (k + 2) u)%float
  end.

Definition sin (x : float) : float := (x * alternating 14 1 (x * x))%float.
Definition cos (x : float) : float := alternating 14 0 (x * x).

(** [1/k - u (1/(k+2) - u (...))], the series of [atan t / t] in [u = t*t]. *)
Fixpoint atan_series (n : nat) (k u : float) : float :=
  match n with
  | O => (1 / k)%float
  | S n' => (1 / k - u * atan_series n' (k + 2) u)%float
  end.

Definition halve_angle (t : float) : float := (t / (1 + PrimFloat.sqrt (1 + t * t)))%float.

Definition atan_unit (t : float) : float :=
  let t2 := halve_angle (halve_angle t) in
  (4 * (t2 * atan_series 12 1 (t2 * t2)))%float.

Definition half_pi : float := (Math_PI / 2)%float.

Definition atan (t : float) : float :=
  if (1 <? t)%float then (half_pi - atan_unit (1 / t))%float
  else if (t <? -1)%float then (- half_pi - atan_unit (1 / t))%float
  else atan_unit t.

(** The angle of a point on or above the x axis ([y] is +0 or
    positive): between +0 and pi. *)
Definition atan2_upper (y x : float) : float :=
  abs (if (0 <? x)%float then atan (y / x)
       else if (x <? 0)%float then (atan (y / x) + Math_PI)%float
       else if (0 <? y)%float then half_pi
       else match classify x with NZero => Math_PI | _ => 0%float end).

(** The sign bit of a number that is not NaN. *)
Definition sign_bit (y : float) : bool :=
  match classify y with
  | NInf | NNormal | NSubn | NZero => true
  | _ => false
  end.

(** [atan2] is odd in [y], the zeros included. *)
Definition atan2 (y x : float) : float :=
  if (is_nan y || is_nan x)%bool then nan
  else if sign_bit y then (- atan2_upper (- y) x)%float
  else atan2_upper y x.

(** Days since 1970-01-01 of a proleptic Gregorian date. *)
Definition days_from_civil (y m d : Z) : Z :=
  let y' := if (m <=? 2)%Z then (y - 1)%Z else y in
  let era := (y' / 400)%Z in
  let yoe := (y' - era * 400)%Z in
  let mp := if (2 <? m)%Z then (m - 3)%Z else (m + 9)%Z in
  let doy := ((153 * mp + 2) / 5 + d - 1)%Z in
  let doe := (yoe * 365 + yoe / 4 - yoe / 100 + doy)%Z in
  (era * 146097 + doe - 719468)%Z.

Definition civil_from_days (z : Z) : Z * Z * Z :=
  let z := (z + 719468)%Z in
  let era := (z / 146097)%Z in
  let doe := (z - era * 146097)%Z in
  let yoe := ((doe - doe / 1460 + doe / 36524 - doe / 146096) / 365)%Z in
  let doy := (doe - (365 * yoe + yoe / 4 - yoe / 100))%Z in
  let mp := ((5 * doy + 2) / 153)%Z in
  let d := (doy - (153 * mp + 2) / 5 + 1)%Z in
  let m := if (mp <? 10)%Z then (mp + 3)%Z else (mp - 9)%Z in
  let y := (yoe + era * 400)%Z in
  (if (m <=? 2)%Z then (y + 1)%Z else y, m, d).

(** Exactly [n] digits at the start of [s]. *)
Fixpoint read_fixed (n : nat) (s : string) (acc : Z) : option (Z * string) :=
  match n with
  | O => Some (acc, s)
  | S n' =>
      match s with
      | String c s' =>
          match digit_of c with
          | Some d => read_fixed n' s' (acc * 10 + d)%Z
          | None => None
          end
      | EmptyString => None
      end
  end.

Definition expect (c : ascii) (s : string) : option string :=
  match s with
  | String a s' => if Ascii.eqb a c then Some s' else None
  | EmptyString => None
  end.

Definition bind {A B : Type} (o : option A) (f : A -> option B) : option B :=
  match o with Some a => f a | None => None end.

(** The UTC date-time form [YYYY-MM-DDTHH:mm:ssZ], with or without
    [.sss]; anything else is NaN. *)
Definition parse (s : string) : option Z :=
  bind (read_fixed 4 s 0) (fun '(y, s) =>
  bind (expect "-" s) (fun s =>
  bind (read_fixed 2 s 0) (fun '(mo, s) =>
  bind (expect "-" s) (fun s =>
  bind (read_fixed 2 s 0) (fun '(d, s) =>
  bind (expect "T" s) (fun s =>
  bind (read_fixed 2 s 0) (fun '(hh, s) =>
  bind (expect ":" s) (fun s =>
  bind (read_fixed 2 s 0) (fun '(mi, s) =>
  bind (expect ":" s) (fun s =>
  bind (read_fixed 2 s 0) (fun '(ss, s) =>
  bind (match s with
        | String "." s' => read_fixed 3 s' 0
        | _ => Some (0%Z, s)
        end) (fun '(ms, s) =>
  match s with
  | String "Z" EmptyString =>
      if ((1 <=? mo) && (mo <=? 12) && (1 <=? d) && (d <=? 31)
          && (hh <? 24) && (mi <? 60) && (ss <? 60))%Z
      then Some (days_from_civil y mo d * 86400000
                 + hh * 3600000 + mi * 60000 + ss * 1000 + ms)%Z
      else None
  | _ => None
  end)))))))))))).

(** [n] decimal digits of [v], most significant first. *)
Fixpoint pad (n : nat) (v : Z) : string :=
  match n with
  | O => EmptyString
  | S n' =>
      String (ascii_of_nat (48 + Z.to_nat ((v / 10 ^ Z.of_nat n') mod 10)))
             (pad n' v)
  end.

Definition format (tv : Z) : string :=
  let days := (tv / 86400000)%Z in
  let ms := (tv mod 86400000)%Z in
  let '(y, m, d) := civil_from_days days in
  let year :=
    if ((0 <=? y) && (y <=? 9999))%Z then pad 4 y
    else if (y <? 0)%Z then String "-" (pad 6 (- y))
    else String "+" (pad 6 y) in
  (year ++ "-" ++ pad 2 m ++ "-" ++ pad 2 d ++ "T"
   ++ pad 2 (ms / 3600000) ++ ":" ++ pad 2 (ms / 60000 mod 60) ++ ":"
   ++ pad 2 (ms / 1000 mod 60) ++ "." ++ pad 3 (ms mod 1000) ++ "Z")%string.

(** A [Math.pow] for the examples: exact on the exponents 0, 1 and 2,
    NaN on the others. *)
Definition pow (x y : float) : float :=
  if (y =? 0)%float then 1%float
  else if (y =? 1)%float then x
  else if (y =? 2)%float then (x * x)%float
  else nan.

Definition host : Host :=
  {| Number_parseFloat := parseFloat;
     Math_sin := sin;
     Math_cos := cos;
     Math_sqrt := PrimFloat.sqrt;
     Math_atan2 := atan2;
     Date_parse := parse;
     Date_format := format |}.

End SampleHost.

(* ================================================================= *)
(** ** Example tracks *)

Module Samples.
Import MergeGpx.

Definition point (t la lo : string) : TrkPrt :=
  {| time := t; ele := 1609%float; attr_lat := la; attr_lon := lo |}.

(** A begin track that passes the place where the end track starts. *)
Definition beginTrack : list TrkPrt :=
  [point "2021-12-11T18:00:00Z" "39.99900" "-105.00100";
   point "2021-12-11T18:00:01Z" "39.99950" "-105.00050";
   point "2021-12-11T18:00:02Z" "40.00000" "-105.00000";
   point "2021-12-11T18:00:03Z" "40.00050" "-104.99950"].

Definition endTrack : list TrkPrt :=
  [point "2021-12-18T20:14:37Z" "40.00005" "-105.00005";
   point "2021-12-18T20:14:38Z" "40.00010" "-105.00010"].

(** A begin track that stands still for two samples near the start of
    the end track, then leaves. *)
Definition pausedTrack : list TrkPrt :=
  [point "2021-12-11T18:00:00Z" "40.00000" "-105.00000";
   point "2021-12-11T18:00:01Z" "40.00000" "-105.00000";
   point "2021-12-11T18:00:02Z" "40.00050" "-104.99950"].

(** A begin track whose only point is due east of the start of the end
    track, on its latitude. *)
Definition lastPointTrack : list TrkPrt :=
  [point "2021-12-11T18:00:00Z" "40.00005" "-105.00000"].

Definition singleFileTrack : list FixGpx.TrkPrt :=
  [{| FixGpx.time := "2021-12-11T18:00:00Z";
      FixGpx.attr_lat := "40.00000"; FixGpx.attr_lon := "-105.00000" |};
   {| FixGpx.time := "2021-12-11T18:00:07Z";
      FixGpx.attr_lat := "40.00005"; FixGpx.attr_lon := "-105.00005" |}].

End Samples.

(* ================================================================= *)
(** ** Facts about the order of doubles *)

Module JSNumberFacts.
Import JSNumber.
Local Open Scope float_scope.

Lemma SFcompare_key (x y : spec_float) :
  SFcompare x y =
  if sf_is_nan x || sf_is_nan y then None
  else Some (key_compare (sf_key x) (sf_key y)).
Proof.
  destruct x as [[]|[]| |[] mx ex], y as [[]|[]| |[] my ey];
    try reflexivity; cbn -[Z.compare];
    unfold key_compare; cbn -[Z.compare].
  rewrite Z.compare_opp, (Z.compare_antisym ey ex).
  change (-1 ?= -1)%Z with Eq; cbv iota.
  destruct (ey ?= ex)%Z; reflexivity.
Qed.

Lemma key_compare_le_trans a b c :
  key_compare a b <> Gt -> key_compare b c <> Gt -> key_compare a c <> Gt.
Proof.
  destruct a as [a1 [a2 a3]], b as [b1 [b2 b3]], c as [c1 [c2 c3]].
  unfold key_compare; cbn [fst snd].
  destruct (Z.compare_spec a1 b1), (Z.compare_spec b1 c1),
    (Z.compare_spec a1 c1); try lia; try discriminate; try congruence;
  destruct (Z.compare_spec a2 b2), (Z.compare_spec b2 c2),
    (Z.compare_spec a2 c2); try lia; try discriminate; try congruence;
  destruct (Z.compare_spec a3 b3), (Z.compare_spec b3 c3),
    (Z.compare_spec a3 c3); try lia; try discriminate; try congruence.
Qed.

Lemma key_compare_total a b : key_compare a b = Gt -> key_compare b a <> Gt.
Proof.
  destruct a as [a1 [a2 a3]], b as [b1 [b2 b3]].
  unfold key_compare; cbn [fst snd].
  destruct (Z.compare_spec a1 b1), (Z.compare_spec b1 a1); try lia; try discriminate;
  destruct (Z.compare_spec a2 b2), (Z.compare_spec b2 a2); try lia; try discriminate;
  destruct (Z.compare_spec a3 b3), (Z.compare_spec b3 a3); try lia; try discriminate.
Qed.

Lemma SFleb_key x y :
  SFleb x y = true <->
  sf_is_nan x = false /\ sf_is_nan y = false /\ key_compare (sf_key x) (sf_key y) <> Gt.
Proof.
  unfold SFleb. rewrite SFcompare_key.
  destruct (sf_is_nan x), (sf_is_nan y); cbn;
    try (split; [discriminate | intros (?&?&?); discriminate]).
  destruct (key_compare (sf_key x) (sf_key y)); intuition congruence.
Qed.

Lemma is_nan_spec x : is_nan x = sf_is_nan (Prim2SF x).
Proof.
  unfold is_nan. rewrite eqb_spec. unfold SFeqb. rewrite SFcompare_key.
  destruct (sf_is_nan (Prim2SF x)); cbn; [reflexivity|].
  destruct (sf_key (Prim2SF x)) as [a [b c]]. unfold key_compare; cbn.
  rewrite !Z.compare_refl. reflexivity.
Qed.

Lemma leb_trans x y z :
  (x <=? y) = true -> (y <=? z) = true -> (x <=? z) = true.
Proof.
  rewrite !leb_spec, !SFleb_key. intros (?&?&?) (?&?&?).
  repeat split; trivial. eapply key_compare_le_trans; eassumption.
Qed.

Lemma leb_not_nan x y :
  (x <=? y) = true -> is_nan x = false /\ is_nan y = false.
Proof. rewrite leb_spec, SFleb_key, !is_nan_spec. tauto. Qed.

Lemma leb_total x y :
  is_nan x = false -> is_nan y = false ->
  (x <=? y) = false -> (y <=? x) = true.
Proof.
  rewrite !is_nan_spec. intros Hx Hy H.
  rewrite leb_spec, SFleb_key. repeat split; trivial.
  apply key_compare_total.
  destruct (key_compare (sf_key (Prim2SF x)) (sf_key (Prim2SF y))) eqn:E;
    trivial; exfalso;
    (assert (HL : (x <=? y) = true);
     [rewrite leb_spec, SFleb_key, E; repeat split; trivial; discriminate
     | congruence]).
Qed.

Lemma leb_refl x : is_nan x = false -> (x <=? x) = true.
Proof.
  intros Hx. destruct (x <=? x) eqn:E; trivial.
  rewrite <- E. apply leb_total; trivial.
Qed.

Lemma leb_infinity x : is_nan x = false -> (x <=? infinity) = true.
Proof.
  rewrite is_nan_spec, leb_spec. intros Hx.
  change (Prim2SF infinity) with (S754_infinity false).
  destruct (Prim2SF x) as [[]|[]| |[] m e]; try reflexivity; discriminate.
Qed.
Lemma key_compare_antisym a b : key_compare b a = CompOpp (key_compare a b).
Proof.
  destruct a as [a1 [a2 a3]], b as [b1 [b2 b3]].
  unfold key_compare; cbn [fst snd].
  rewrite (Z.compare_antisym a1 b1), (Z.compare_antisym a2 b2),
    (Z.compare_antisym a3 b3).
  destruct (a1 ?= b1)%Z, (a2 ?= b2)%Z, (a3 ?= b3)%Z; reflexivity.
Qed.

Lemma ltb_key x y :
  (x <? y) = true <->
  is_nan x = false /\ is_nan y = false
  /\ key_compare (sf_key (Prim2SF x)) (sf_key (Prim2SF y)) = Lt.
Proof.
  rewrite ltb_spec, !is_nan_spec. unfold SFltb. rewrite SFcompare_key.
  destruct (sf_is_nan (Prim2SF x)), (sf_is_nan (Prim2SF y)); cbn;
    try (split; [discriminate | intros (?&?&?); discriminate]).
  destruct (key_compare _ _); intuition congruence.
Qed.

Lemma leb_key x y :
  (x <=? y) = true <->
  is_nan x = false /\ is_nan y = false
  /\ key_compare (sf_key (Prim2SF x)) (sf_key (Prim2SF y)) <> Gt.
Proof. rewrite leb_spec, SFleb_key, !is_nan_spec. tauto. Qed.

Lemma ltb_leb x y : (x <? y) = true -> (x <=? y) = true.
Proof.
  rewrite ltb_key, leb_key. intros (?&?&E). rewrite E.
  repeat split; trivial; discriminate.
Qed.

Lemma not_ltb_leb x y :
  is_nan x = false -> is_nan y = false -> (y <? x) = false -> (x <=? y) = true.
Proof.
  intros Hx Hy H. apply leb_key. repeat split; trivial. intros E.
  assert (HL : (y <? x) = true); [| congruence].
  apply ltb_key. repeat split; trivial.
  rewrite key_compare_antisym, E. reflexivity.
Qed.

(** Two doubles that are below each other compare alike with any third. *)
Lemma leb_congr_l x y p :
  (x <=? y) = true -> (y <=? x) = true -> (x <=? p) = (y <=? p).
Proof.
  intros Hxy Hyx.
  destruct (x <=? p) eqn:E1, (y <=? p) eqn:E2; trivial.
  - rewrite <- E2. symmetry. eapply leb_trans; eassumption.
  - rewrite <- E1. eapply leb_trans; eassumption.
Qed.

Lemma leb_congr_r x y p :
  (x <=? y) = true -> (y <=? x) = true -> (p <=? x) = (p <=? y).
Proof.
  intros Hxy Hyx.
  destruct (p <=? x) eqn:E1, (p <=? y) eqn:E2; trivial.
  - rewrite <- E2. symmetry. eapply leb_trans; eassumption.
  - rewrite <- E1. eapply leb_trans; eassumption.
Qed.

Lemma leb_nan_l x y : is_nan x = true -> (x <=? y) = false.
Proof.
  intros Hx. destruct (x <=? y) eqn:E; trivial.
  apply leb_not_nan in E. destruct E; congruence.
Qed.

Lemma leb_nan_r x y : is_nan y = true -> (x <=? y) = false.
Proof.
  intros Hy. destruct (x <=? y) eqn:E; trivial.
  apply leb_not_nan in E. destruct E; congruence.
Qed.

Lemma is_nan_nan : is_nan nan = true.
Proof. reflexivity. Qed.

(** Closes a goal whose hypotheses about [<=?] contradict transitivity. *)
Ltac leb_saturate :=
  repeat match goal with
  | H1 : (?a <=? ?b) = true, H2 : (?b <=? ?c) = true |- _ =>
      lazymatch goal with
      | _ : (a <=? c) = true |- _ => fail
      | _ => assert ((a <=? c) = true) by (exact (leb_trans a b c H1 H2))
      end
  end.

Ltac leb_cases p x y :=
  destruct (x <=? p) eqn:?, (p <=? y) eqn:?, (y <=? p) eqn:?,
    (p <=? x) eqn:?; trivial; exfalso; leb_saturate; congruence.

(** Membership in [[min x y, max x y]] is membership in [[x, y]] or in
    [[y, x]], NaN included. *)
Lemma between_either_order x y p :
  ((x <=? p) && (p <=? y) || (y <=? p) && (p <=? x))%bool
  = in_closed_interval p (Math_min x y) (Math_max x y).
Proof.
  unfold in_closed_interval, Math_min, Math_max.
  destruct (is_nan x) eqn:Nx; cbn [orb].
  { rewrite (leb_nan_l x p Nx), (leb_nan_r p x Nx), (leb_nan_l nan p is_nan_nan).
    now rewrite andb_false_r. }
  destruct (is_nan y) eqn:Ny.
  { rewrite (leb_nan_l y p Ny), (leb_nan_r p y Ny), (leb_nan_l nan p is_nan_nan).
    now rewrite andb_false_r. }
  destruct (x <? y) eqn:Lxy, (y <? x) eqn:Lyx.
  - assert (Hxy := ltb_leb _ _ Lxy). assert (Hyx := ltb_leb _ _ Lyx).
    leb_cases p x y.
  - assert (Hxy := ltb_leb _ _ Lxy). leb_cases p x y.
  - assert (Hyx := ltb_leb _ _ Lyx). leb_cases p x y.
  - assert (Hxy := not_ltb_leb x y Nx Ny Lyx).
    assert (Hyx := not_ltb_leb y x Ny Nx Lxy).
    destruct (classify x); leb_cases p x y.
Qed.

Lemma eqb_leb x y : (x =? y) = true -> (x <=? y) = true.
Proof.
  rewrite eqb_spec, leb_spec. unfold SFeqb, SFleb.
  now destruct (SFcompare (Prim2SF x) (Prim2SF y)) as [[]|].
Qed.

(** Being below [Math.min a b] is being below both. *)
Lemma leb_Math_min x a b :
  (x <=? Math_min a b) = ((x <=? a) && (x <=? b))%bool.
Proof.
  unfold Math_min.
  destruct (is_nan a) eqn:Na; cbn [orb].
  { now rewrite (leb_nan_r x nan is_nan_nan), (leb_nan_r x a Na). }
  destruct (is_nan b) eqn:Nb.
  { rewrite (leb_nan_r x nan is_nan_nan), (leb_nan_r x b Nb).
    now rewrite andb_false_r. }
  assert (Hcases : ((a <=? b) = true -> (x <=? a) = ((x <=? a) && (x <=? b))%bool)
                   /\ ((b <=? a) = true ->
                       (x <=? b) = ((x <=? a) && (x <=? b))%bool)).
  { split; intros H; destruct (x <=? a) eqn:?, (x <=? b) eqn:?; trivial;
      exfalso; leb_saturate; congruence. }
  destruct Hcases as [Hab Hba].
  destruct (a <? b) eqn:Lab; [apply Hab, ltb_leb, Lab |].
  destruct (b <? a) eqn:Lba; [apply Hba, ltb_leb, Lba |].
  destruct (classify a);
    first [apply Hab; now apply not_ltb_leb | apply Hba; now apply not_ltb_leb].
Qed.

Lemma Math_min_not_nan a b :
  is_nan a = false -> is_nan b = false -> is_nan (Math_min a b) = false.
Proof.
  intros Na Nb. unfold Math_min. rewrite Na, Nb. cbn [orb].
  destruct (a <? b); trivial. destruct (b <? a); trivial.
  now destruct (classify a).
Qed.

End JSNumberFacts.

(* ================================================================= *)
(** ** Facts about the signs of doubles *)

Module FloatSigns.
Import JSNumber JSNumberFacts.
Local Open Scope float_scope.

(** Equal, or equal up to the sign. *)
Definition same_or_opp (u v : float) : Prop := u = v \/ u = (- v).

Lemma binary_round_aux_opp s m e l :
  binary_round_aux prec emax (negb s) m e l
  = SFopp (binary_round_aux prec emax s m e l).
Proof.
  unfold binary_round_aux.
  destruct (shr_fexp prec emax m e l) as [mrs' e'].
  destruct (shr_fexp prec emax _ e' loc_Exact) as [mrs'' e''].
  destruct (shr_m mrs''); try reflexivity.
  destruct (Z.leb e'' (emax - prec)); reflexivity.
Qed.

Lemma binary_round_aux_sign s m e l :
  match binary_round_aux prec emax s m e l with
  | S754_zero s' | S754_infinity s' | S754_finite s' _ _ => s' = s
  | S754_nan => True
  end.
Proof.
  unfold binary_round_aux.
  destruct (shr_fexp prec emax m e l) as [mrs' e'].
  destruct (shr_fexp prec emax _ e' loc_Exact) as [mrs'' e''].
  destruct (shr_m mrs''); trivial.
  destruct (Z.leb e'' (emax - prec)); reflexivity.
Qed.

Lemma binary_round_opp s m e :
  binary_round prec emax (negb s) m e = SFopp (binary_round prec emax s m e).
Proof.
  unfold binary_round. destruct (shl_align m e _) as [mz ez].
  apply binary_round_aux_opp.
Qed.

Lemma SFopp_involutive x : SFopp (SFopp x) = x.
Proof. destruct x as [s|s| |s m e]; cbn; now rewrite ?negb_involutive. Qed.

Lemma SFmul_opp_l x y :
  SFmul prec emax (SFopp x) y = SFopp (SFmul prec emax x y).
Proof.
  destruct x as [sx|sx| |sx mx ex], y as [sy|sy| |sy my ey]; cbn;
    try reflexivity; try (now destruct sx, sy).
  rewrite <- binary_round_aux_opp. now destruct sx, sy.
Qed.

Lemma SFmul_comm x y : SFmul prec emax x y = SFmul prec emax y x.
Proof.
  destruct x as [sx|sx| |sx mx ex], y as [sy|sy| |sy my ey]; cbn;
    try reflexivity; try (now rewrite xorb_comm).
  now rewrite xorb_comm, Pos.mul_comm, Z.add_comm.
Qed.

Lemma SFdiv_opp_l x y :
  SFdiv prec emax (SFopp x) y = SFopp (SFdiv prec emax x y).
Proof.
  destruct x as [sx|sx| |sx mx ex], y as [sy|sy| |sy my ey]; cbn;
    try reflexivity; try (now destruct sx, sy).
  destruct (SFdiv_core_binary prec emax (Z.pos mx) ex (Z.pos my) ey)
    as [[mz ez] lz].
  rewrite <- binary_round_aux_opp. now destruct sx, sy.
Qed.

Lemma binary_normalize_opp m e :
  binary_normalize prec emax (- m) e false
  = match m with
    | Z0 => S754_zero false
    | _ => SFopp (binary_normalize prec emax m e false)
    end.
Proof.
  destruct m as [|p|p]; cbn; trivial.
  - apply (binary_round_opp false).
  - rewrite <- (binary_round_opp true). reflexivity.
Qed.

Lemma SFsub_swap x y :
  SFsub prec emax y x = SFsub prec emax x y
  \/ SFsub prec emax y x = SFopp (SFsub prec emax x y).
Proof.
  destruct x as [sx|sx| |sx mx ex], y as [sy|sy| |sy my ey];
    try (destruct sx, sy; cbn; auto; fail);
    try (destruct sx; cbn; auto; fail);
    try (destruct sy; cbn; auto; fail);
    try (cbn; auto; fail).
  unfold SFsub. rewrite (Z.min_comm ey ex).
  set (A := cond_Zopp sx (Z.pos (fst (shl_align mx ex (Z.min ex ey))))).
  set (B := cond_Zopp sy (Z.pos (fst (shl_align my ey (Z.min ex ey))))).
  replace (B - A)%Z with (- (A - B))%Z by lia.
  rewrite binary_normalize_opp. destruct (A - B)%Z; auto.
Qed.

Lemma opp_involutive x : - - x = x.
Proof. apply Prim2SF_inj. rewrite !opp_spec. apply SFopp_involutive. Qed.

Lemma mul_opp_l x y : (- x) * y = - (x * y).
Proof.
  apply Prim2SF_inj. rewrite opp_spec, !mul_spec, opp_spec. apply SFmul_opp_l.
Qed.

Lemma mul_comm x y : x * y = y * x.
Proof. apply Prim2SF_inj. rewrite !mul_spec. apply SFmul_comm. Qed.

Lemma mul_opp_r x y : x * (- y) = - (x * y).
Proof. now rewrite mul_comm, mul_opp_l, mul_comm. Qed.

Lemma mul_opp_opp x y : (- x) * (- y) = x * y.
Proof. now rewrite mul_opp_l, mul_opp_r, opp_involutive. Qed.

Lemma div_opp_l x y : (- x) / y = - (x / y).
Proof.
  apply Prim2SF_inj. rewrite opp_spec, !div_spec, opp_spec. apply SFdiv_opp_l.
Qed.

Lemma sub_swap x y : same_or_opp (y - x) (x - y).
Proof.
  destruct (SFsub_swap (Prim2SF x) (Prim2SF y)) as [H|H]; [left | right];
    apply Prim2SF_inj; rewrite ?opp_spec, !sub_spec; exact H.
Qed.

Lemma same_or_opp_mul u v c : same_or_opp u v -> same_or_opp (u * c) (v * c).
Proof. intros [->| ->]; [now left | right; apply mul_opp_l]. Qed.

Lemma same_or_opp_div u v c : same_or_opp u v -> same_or_opp (u / c) (v / c).
Proof. intros [->| ->]; [now left | right; apply div_opp_l]. Qed.

Lemma same_or_opp_square u v : same_or_opp u v -> u * u = v * v.
Proof. intros [->| ->]; [reflexivity | apply mul_opp_opp]. Qed.

Lemma same_or_opp_scaled_square u v c :
  same_or_opp u v -> c * u * u = c * v * v.
Proof.
  intros [->| ->]; [reflexivity |].
  now rewrite (mul_opp_r c v), mul_opp_opp.
Qed.

Lemma ltb_zero x :
  (x <? 0) = match Prim2SF x with
             | S754_finite true _ _ | S754_infinity true => true
             | _ => false
             end.
Proof.
  rewrite ltb_spec. change (Prim2SF 0) with (S754_zero false).
  now destruct (Prim2SF x) as [[]|[]| |[] m e].
Qed.

Lemma zero_ltb x :
  (0 <? x) = match Prim2SF x with
             | S754_finite false _ _ | S754_infinity false => true
             | _ => false
             end.
Proof.
  rewrite ltb_spec. change (Prim2SF 0) with (S754_zero false).
  now destruct (Prim2SF x) as [[]|[]| |[] m e].
Qed.

Lemma neg_zero_spec x : x = (-0)%float <-> Prim2SF x = S754_zero true.
Proof.
  split; [now intros -> |].
  intros H. apply Prim2SF_inj. now rewrite H.
Qed.

Lemma abs_not_negative x : (abs x <? 0) = false.
Proof.
  rewrite ltb_zero, abs_spec. now destruct (Prim2SF x) as [[]|[]| |[] m e].
Qed.

(** A product with a positive constant is negative only if the other
    factor is. *)
Lemma mul_positive_negative k x :
  (0 <? k) = true -> is_finite k = true ->
  (k * x <? 0) = true -> (x <? 0) = true.
Proof.
  rewrite zero_ltb, !ltb_zero, mul_spec. unfold is_finite, is_infinity.
  rewrite is_nan_spec, eqb_spec, abs_spec.
  destruct (Prim2SF k) as [[]|[]| |[] mk ek]; try discriminate.
  intros _ _.
  destruct (Prim2SF x) as [[]|[]| |[] mx ex]; cbn -[binary_round_aux];
    try discriminate; trivial.
  pose proof (binary_round_aux_sign false (Z.pos (mk * mx)) (ek + ex) loc_Exact) as H.
  destruct (binary_round_aux prec emax false _ _ _) as [s|s| |s m e];
    try discriminate; now subst s.
Qed.

Lemma sqrt_sign x :
  (sqrt x <? 0) = false /\ (sqrt x = (-0)%float -> x = (-0)%float).
Proof.
  rewrite ltb_zero, !neg_zero_spec, sqrt_spec.
  destruct (Prim2SF x) as [[]|[]| |[] mx ex]; cbn -[binary_round_aux];
    try (split; [reflexivity | discriminate || trivial]).
  destruct (SFsqrt_core_binary prec emax (Z.pos mx) ex) as [[mz ez] lz].
  pose proof (binary_round_aux_sign false mz ez lz) as H.
  destruct (binary_round_aux prec emax false mz ez lz) as [s|s| |s m e];
    subst; split; trivial; discriminate.
Qed.

Lemma is_finite_spec x :
  is_finite x = match Prim2SF x with
                | S754_zero _ | S754_finite _ _ _ => true
                | _ => false
                end.
Proof.
  unfold is_finite, is_infinity. rewrite is_nan_spec, eqb_spec, abs_spec.
  now destruct (Prim2SF x) as [[]|[]| |[] m e].
Qed.

Lemma sub_self x : is_finite x = true -> x - x = 0.
Proof.
  rewrite is_finite_spec. intros H. apply Prim2SF_inj. rewrite sub_spec.
  change (Prim2SF 0) with (S754_zero false).
  destruct (Prim2SF x) as [[]|[]| |s m e]; try discriminate; trivial.
  unfold SF64sub, SFsub. now rewrite Z.sub_diag.
Qed.

Lemma finite_mul_zero x :
  is_finite x = true -> x * 0 = 0 \/ x * 0 = (-0)%float.
Proof.
  rewrite is_finite_spec. intros H.
  assert (E : Prim2SF (x * 0) = S754_zero false \/ Prim2SF (x * 0) = S754_zero true).
  { rewrite mul_spec. change (Prim2SF 0) with (S754_zero false).
    destruct (Prim2SF x) as [[]|[]| |[] m e]; try discriminate; cbn; auto. }
  destruct E as [E|E]; [left | right]; apply Prim2SF_inj; now rewrite E.
Qed.

End FloatSigns.

(* ================================================================= *)
(** ** GeoPoint: the interval check *)

Module GeoPointProps.
Import JSNumber JSNumberFacts MergeGpx.

(** C5.  [isBetween(p, a, b)] is true exactly when the latitude of [p]
    lies in the closed interval from [min(a.lat, b.lat)] to
    [max(a.lat, b.lat)] or its longitude lies in the closed interval from
    [min(a.lng, b.lng)] to [max(a.lng, b.lng)]; it is true of (0,0)
    between (-1,-1) and (1,1), and false of (5,5) between (0,0) and
    (1,1). *)
Theorem isBetween_closed_intervals :
  (forall p a b : LatLng,
      isBetween p a b = true <->
      in_closed_interval (lat p) (Math_min (lat a) (lat b))
        (Math_max (lat a) (lat b)) = true
      \/ in_closed_interval (lng p) (Math_min (lng a) (lng b))
           (Math_max (lng a) (lng b)) = true)
  /\ isBetween {| lat := 0; lng := 0 |} {| lat := -1; lng := -1 |}
       {| lat := 1; lng := 1 |} = true
  /\ isBetween {| lat := 5; lng := 5 |} {| lat := 0; lng := 0 |}
       {| lat := 1; lng := 1 |} = false.
Proof.
  split; [| split; reflexivity].
  intros p a b. unfold isBetween.
  rewrite <- !between_either_order.
  destruct (lat a <=? lat p)%float, (lat p <=? lat b)%float,
    (lat b <=? lat p)%float, (lat p <=? lat a)%float,
    (lng a <=? lng p)%float, (lng p <=? lng b)%float,
    (lng b <=? lng p)%float, (lng p <=? lng a)%float;
    cbn; intuition congruence.
Qed.

End GeoPointProps.

(* ================================================================= *)
(** ** DistanceModel: the haversine distance *)

Module HaversineProps.
Import JSNumber JSNumberFacts FloatSigns MergeGpx.
Local Open Scope float_scope.

(** What the theorems below ask of the engine's [Math].  ECMAScript
    prescribes the values at zero; the signs are those of the functions
    that [Math.sqrt] and [Math.atan2] approximate, with the cases of -0
    as ECMAScript lists them; that the computed sine is odd holds of the
    usual implementations. *)
Definition sin_is_odd (h : Host) : Prop :=
  forall x, Math_sin h (- x) = - Math_sin h x.

Definition sqrt_keeps_sign (h : Host) : Prop :=
  forall x,
    (Math_sqrt h x <? 0) = false
    /\ (Math_sqrt h x = (-0)%float -> x = (-0)%float).

Definition atan2_negative_only_below (h : Host) : Prop :=
  forall y x,
    (Math_atan2 h y x <? 0) = true ->
    (y <? 0) = true \/ (y = (-0)%float /\ (0 <? x) = false).

Definition zero_values (h : Host) : Prop :=
  Math_sin h 0 = 0
  /\ Math_cos h 0 = 1
  /\ Math_sqrt h 0 = 0
  /\ (0 <? Math_sqrt h 1) = true
  /\ Math_atan2 h 0 (Math_sqrt h 1) = 0.

Definition finite_point (a : LatLng) : Prop :=
  is_finite (lat a) = true /\ is_finite (lng a) = true.

(** Latitude in radians, as [haversineDist] computes it. *)
Definition radians (degrees : float) : float := degrees * Math_PI / 180.

Section Haversine.
Variable h : Host.

Lemma half_angle_swap (x y : float) :
  same_or_opp ((x - y) * Math_PI / 180 / 2) ((y - x) * Math_PI / 180 / 2).
Proof.
  apply same_or_opp_div, same_or_opp_div, same_or_opp_mul, sub_swap.
Qed.

Lemma sin_same_or_opp (u v : float) :
  sin_is_odd h -> same_or_opp u v -> same_or_opp (Math_sin h u) (Math_sin h v).
Proof. intros Hodd [->| ->]; [now left | right; apply Hodd]. Qed.

Lemma haversineDist_sym (a b : LatLng) :
  sin_is_odd h -> haversineDist h a b = haversineDist h b a.
Proof.
  intros Hodd. unfold haversineDist. cbv zeta.
  assert (Hlat := sin_same_or_opp _ _ Hodd (half_angle_swap (lat b) (lat a))).
  assert (Hlng := sin_same_or_opp _ _ Hodd (half_angle_swap (lng b) (lng a))).
  rewrite (same_or_opp_square _ _ Hlat).
  rewrite (same_or_opp_scaled_square _ _
             (Math_cos h (lat a * Math_PI / 180)
              * Math_cos h (lat b * Math_PI / 180)) Hlng).
  now rewrite (mul_comm (Math_cos h (lat a * Math_PI / 180))).
Qed.

Lemma haversineDist_never_negative (a b : LatLng) :
  sqrt_keeps_sign h -> atan2_negative_only_below h -> zero_values h ->
  (haversineDist h a b <? 0) = false.
Proof.
  intros Hsqrt Hatan (_ & _ & _ & Hone & _).
  destruct (haversineDist h a b <? 0) eqn:E; trivial. exfalso.
  unfold haversineDist in E. cbv zeta in E.
  apply mul_positive_negative in E; [| reflexivity | reflexivity].
  apply mul_positive_negative in E; [| reflexivity | reflexivity].
  apply Hatan in E. destruct E as [E|[E1 E2]].
  - rewrite (proj1 (Hsqrt _)) in E. discriminate.
  - apply (proj2 (Hsqrt _)) in E1. rewrite E1 in E2.
    change (1 - -0) with 1%float in E2. congruence.
Qed.

(** When the two radian differences are +0 and the cosine product is
    finite, every step of the computation is exact and the distance is
    +0. *)
Lemma haversineDist_zero (a b : LatLng) :
  zero_values h ->
  (lat b - lat a) * Math_PI / 180 = 0 ->
  (lng b - lng a) * Math_PI / 180 = 0 ->
  is_finite (Math_cos h (radians (lat a)) * Math_cos h (radians (lat b))) = true ->
  haversineDist h a b = 0.
Proof.
  intros (Hsin & _ & Hsqrt & _ & Hatan) Hlat Hlng Hcos.
  unfold haversineDist. cbv zeta. fold (radians (lat a)) (radians (lat b)).
  rewrite Hlat, Hlng. change (0 / 2) with 0%float. rewrite Hsin.
  destruct (finite_mul_zero _ Hcos) as [-> | ->].
  - change (0 * 0 + 0 * 0) with 0%float. rewrite Hsqrt.
    change (1 - 0) with 1%float. rewrite Hatan. reflexivity.
  - change (0 * 0 + -0 * 0) with 0%float. rewrite Hsqrt.
    change (1 - 0) with 1%float. rewrite Hatan. reflexivity.
Qed.

Lemma haversineDist_self (a : LatLng) :
  zero_values h -> finite_point a ->
  is_finite (Math_cos h (radians (lat a)) * Math_cos h (radians (lat a))) = true ->
  haversineDist h a a = 0.
Proof.
  intros Hz [Hlat Hlng] Hcos. apply haversineDist_zero; trivial.
  - now rewrite (sub_self _ Hlat).
  - now rewrite (sub_self _ Hlng).
Qed.

End Haversine.

(** The origin, and the point one least double east of it. *)
Definition origin : LatLng := {| lat := 0; lng := 0 |}.

Definition nextToOrigin : LatLng := {| lat := 0; lng := 0x1p-1074 |}.

Lemma origin_neq_nextToOrigin : origin <> nextToOrigin.
Proof.
  intros H. apply (f_equal (fun p => Prim2SF (lng p))) in H.
  vm_compute in H. discriminate.
Qed.

(** C8, as the code has it.  On an engine whose sine is odd and whose
    square root and arc tangent have the signs and the values at zero
    that ECMAScript prescribes: the haversine distance of two points is
    never negative (it is at least 0, or NaN), it is the same double in
    both directions (so [==] holds between the two unless they are NaN),
    and a point with finite coordinates (and a finite cosine product) is
    at distance 0 from itself, so bit-for-bit equal points are at
    distance zero.  The converse does not hold: the origin and the point
    one least double east of it are at distance 0. *)
Theorem haversineDist_properties (h : Host) :
  sin_is_odd h ->
  sqrt_keeps_sign h ->
  atan2_negative_only_below h ->
  zero_values h ->
  (forall a b, (haversineDist h a b <? 0) = false)
  /\ (forall a b, haversineDist h a b = haversineDist h b a)
  /\ (forall a b,
        (haversineDist h a b =? haversineDist h b a)
        = negb (is_nan (haversineDist h a b)))
  /\ (forall a,
        finite_point a ->
        is_finite (Math_cos h (radians (lat a)) * Math_cos h (radians (lat a)))
        = true ->
        haversineDist h a a = 0)
  /\ (forall a b,
        a = b ->
        finite_point a ->
        is_finite (Math_cos h (radians (lat a)) * Math_cos h (radians (lat a)))
        = true ->
        (haversineDist h a b =? 0) = true)
  /\ (haversineDist h origin nextToOrigin = 0 /\ origin <> nextToOrigin).
Proof.
  intros Hodd Hsqrt Hatan Hzero.
  split; [| split; [| split; [| split; [| split; [| split]]]]].
  - intros a b. now apply haversineDist_never_negative.
  - intros a b. now apply haversineDist_sym.
  - intros a b. rewrite <- (haversineDist_sym h a b Hodd). unfold is_nan.
    now rewrite negb_involutive.
  - intros a. now apply haversineDist_self.
  - intros a b <- Ha Hcos. now rewrite (haversineDist_self h a Hzero Ha Hcos).
  - apply haversineDist_zero; trivial; try reflexivity.
    destruct Hzero as (_ & Hcos & _). cbn [lat origin nextToOrigin].
    change (radians 0) with 0%float. now rewrite Hcos.
  - exact origin_neq_nextToOrigin.
Qed.

End HaversineProps.

(* ================================================================= *)
(** ** The confirmation answer *)

Module ConfirmProps.
Import JSString MergeGpx.

Lemma is_prefix_y (s : string) :
  is_prefix "y" s = true <-> exists post, s = String "y" post.
Proof.
  destruct s as [|c s]; cbn [is_prefix].
  - split; [discriminate | intros [post H]; discriminate].
  - destruct (Ascii.eqb "y" c) eqn:E.
    + apply Ascii.eqb_eq in E. subst c. split; [eauto | trivial].
    + apply Ascii.eqb_neq in E.
      split; [discriminate | intros [post H]; congruence].
Qed.

Lemma match_here_confirm (s : string) :
  match_here confirm_pattern s = if is_prefix "y" s then Some "y"%string else None.
Proof.
  cbn [confirm_pattern match_here].
  destruct (is_prefix "y" s) eqn:E; trivial.
  destruct s as [|c s]; trivial. cbn [is_prefix] in *.
  destruct (Ascii.eqb "y" c); [discriminate | reflexivity].
Qed.

Lemma exec_confirm (s : string) :
  exec confirm_pattern s <> None <->
  exists pre post, s = (pre ++ String "y" post)%string.
Proof.
  induction s as [|c s IH].
  - cbn. split; [congruence |].
    intros (pre & post & H). destruct pre; discriminate.
  - cbn [exec]. rewrite match_here_confirm.
    destruct (is_prefix "y" (String c s)) eqn:E.
    + split; [| discriminate]. intros _.
      apply is_prefix_y in E. destruct E as [post ->].
      exists EmptyString, post. reflexivity.
    + split.
      * intros H.
        destruct (exec confirm_pattern s) as [[i m]|] eqn:Es; [| congruence].
        destruct (proj1 IH ltac:(discriminate)) as (pre & post & ->).
        exists (String c pre), post. reflexivity.
      * intros (pre & post & H). destruct pre as [|a pre].
        -- cbn in H. rewrite H in E.
           cbn [is_prefix] in E. rewrite Ascii.eqb_refl in E. discriminate.
        -- cbn in H. injection H as -> ->.
           destruct (exec confirm_pattern (pre ++ String "y" post)) as [[i m]|] eqn:Es;
             [discriminate |].
           exfalso. apply (proj2 IH); eauto.
Qed.

(** C10.  [userConfirm] decides by an unanchored match of [(y|yes)] on
    the lower-cased answer: it resolves true exactly when that text has
    a [y] somewhere, and false otherwise; so ["nay"] and ["any"] confirm
    the merge. *)
Theorem userConfirm_contains_y :
  (forall answer : string,
      userConfirm answer = true <->
      exists pre post, toLowerCase answer = (pre ++ "y" ++ post)%string)
  /\ (forall answer : string,
      userConfirm answer = false <->
      ~ exists pre post, toLowerCase answer = (pre ++ "y" ++ post)%string)
  /\ userConfirm "nay" = true
  /\ userConfirm "any" = true
  /\ userConfirm "Yes" = true
  /\ userConfirm "n" = false
  /\ userConfirm "" = false.
Proof.
  assert (H : forall answer : string,
             userConfirm answer = true <->
             exists pre post, toLowerCase answer = (pre ++ "y" ++ post)%string).
  { intros answer. unfold userConfirm, String_match.
    rewrite <- (exec_confirm (toLowerCase answer)).
    destruct (exec confirm_pattern (toLowerCase answer)); split;
      congruence. }
  split; [exact H |].
  split; [| repeat split; reflexivity].
  intros answer. rewrite <- H.
  destruct (userConfirm answer); split; congruence.
Qed.

End ConfirmProps.

(* ================================================================= *)
(** ** Retimer *)

Module RetimerProps.
Import MergeGpx.

(** A time value a Date can hold. *)
Definition is_time_value (t : Z) : Prop := (Z.abs t <= 8640000000000000)%Z.

(** The instant the specification gives the point at index [i] of [N]
    points that must arrive at [T]: [T - (N - i)] seconds. *)
Definition instant (T : Z) (N i : nat) : Z :=
  (T - (Z.of_nat N - Z.of_nat i) * 1000)%Z.

Lemma TimeClip_valid (t : Z) : is_time_value t -> TimeClip t = Some t.
Proof.
  unfold is_time_value, TimeClip. intros H.
  destruct (Z.leb_spec (Z.abs t) 8640000000000000); [reflexivity | lia].
Qed.

Lemma TimeClip_Some (t u : Z) : TimeClip t = Some u -> u = t /\ is_time_value t.
Proof.
  unfold is_time_value, TimeClip.
  destruct (Z.leb_spec (Z.abs t) 8640000000000000); [| discriminate].
  intros [= <-]. auto.
Qed.

Lemma is_time_value_between (a b t : Z) :
  is_time_value a -> is_time_value b -> (a <= t <= b)%Z -> is_time_value t.
Proof. unfold is_time_value. lia. Qed.

Section MergeFilesLoop.
Variable h : Host.

Lemma forEach_retime_succeeds (S0 : Z) (toMerge : list TrkPrt) :
  forall index : nat,
    (forall k, (k < List.length toMerge)%nat ->
               is_time_value (S0 + Z.of_nat (index + k) * 1000)) ->
    exists retimed, forEach_retime h (Some S0) index toMerge = inr retimed.
Proof.
  induction toMerge as [|p rest IH]; intros index Hv; cbn.
  - eauto.
  - rewrite TimeClip_valid.
    2:{ specialize (Hv 0%nat ltac:(cbn; lia)). now rewrite Nat.add_0_r in Hv. }
    cbn. destruct (IH (S index)) as [r ->]; [| eauto].
    intros k Hk. specialize (Hv (S k) ltac:(cbn; lia)).
    now replace (S index + k)%nat with (index + S k)%nat by lia.
Qed.

Lemma forEach_retime_shape (S0 : Z) (toMerge : list TrkPrt) :
  forall (index : nat) (retimed : list TrkPrt),
    forEach_retime h (Some S0) index toMerge = inr retimed ->
    List.length retimed = List.length toMerge
    /\ forall k p,
        nth_error toMerge k = Some p ->
        nth_error retimed k
        = Some (set_time p (Date_format h (S0 + Z.of_nat (index + k) * 1000)))
          /\ is_time_value (S0 + Z.of_nat (index + k) * 1000).
Proof.
  induction toMerge as [|p rest IH]; intros index retimed; cbn.
  - intros [= <-]. split; [reflexivity |]. intros [|k] q; discriminate.
  - destruct (TimeClip (S0 + Z.of_nat index * 1000)) as [tv|] eqn:Ec;
      cbn; [| discriminate].
    apply TimeClip_Some in Ec. destruct Ec as [-> Hv].
    destruct (forEach_retime h (Some S0) (S index) rest) as [e|r] eqn:Er;
      [discriminate |].
    intros [= <-]. destruct (IH _ _ Er) as [Hlen Hnth].
    split; [cbn; congruence |].
    intros [|k] q; cbn.
    + intros [= <-]. rewrite Nat.add_0_r. auto.
    + intros Hq. replace (index + S k)%nat with (S index + k)%nat by lia.
      auto.
Qed.

Lemma forEach_retime_NaN (index : nat) (toMerge retimed : list TrkPrt) :
  forEach_retime h None index toMerge = inr retimed -> toMerge = [].
Proof. destruct toMerge; cbn; [reflexivity | discriminate]. Qed.

(** Whatever the start value, a completed loop changes no field but
    [time]. *)
Lemma forEach_retime_frame (start : option Z) (toMerge : list TrkPrt) :
  forall (index : nat) (retimed : list TrkPrt),
    forEach_retime h start index toMerge = inr retimed ->
    Forall2 (fun p q => q = set_time p (time q)) toMerge retimed.
Proof.
  induction toMerge as [|p rest IH]; intros index retimed; cbn.
  - intros [= <-]. constructor.
  - destruct (toISOString h _) as [e|iso]; [discriminate |].
    destruct (forEach_retime h start (S index) rest) as [e|r] eqn:Er;
      [discriminate |].
    intros [= <-]. constructor; [reflexivity | eauto].
Qed.

End MergeFilesLoop.

Section SingleFileLoop.
Variable h : Host.
Variable trkPrts : list FixGpx.TrkPrt.

Lemma fix_forEach_succeeds (S0 : Z) (rest : list FixGpx.TrkPrt) :
  forall idx : nat,
    (forall k, (k < List.length rest)%nat ->
               is_time_value (S0 + Z.of_nat (idx + k) * 1000)) ->
    exists printed retimed,
      FixGpx.forEach_retime h trkPrts (Some S0) idx rest = (printed, inr retimed)
      /\ List.length retimed = List.length rest
      /\ forall k p,
          nth_error rest k = Some p ->
          nth_error retimed k
          = Some (FixGpx.set_time p
                    (Date_format h (S0 + Z.of_nat (idx + k) * 1000))).
Proof.
  induction rest as [|p rest' IH]; intros idx Hv;
    cbn [FixGpx.forEach_retime new_Date num_add option_map].
  - exists [], []. repeat split. intros [|k] q; discriminate.
  - rewrite TimeClip_valid.
    2:{ specialize (Hv 0%nat ltac:(cbn; lia)). now rewrite Nat.add_0_r in Hv. }
    cbn [toISOString].
    destruct (IH (S idx)) as (printed & r & E & Hlen & Hnth).
    { intros k Hk. specialize (Hv (S k) ltac:(cbn; lia)).
      now replace (S idx + k)%nat with (idx + S k)%nat by lia. }
    destruct (idx <? List.length trkPrts - 1)%nat eqn:Elt.
    + apply Nat.ltb_lt in Elt.
      destruct (nth_error trkPrts (idx + 1)) as [nextPrt|] eqn:En.
      2:{ apply nth_error_None in En. lia. }
      rewrite E. eexists _, _. split; [reflexivity |].
      split; [cbn; congruence |].
      intros [|k] q; cbn.
      * intros [= <-]. now rewrite Nat.add_0_r.
      * intros Hq. replace (idx + S k)%nat with (S idx + k)%nat by lia. auto.
    + rewrite E. eexists _, _. split; [reflexivity |].
      split; [cbn; congruence |].
      intros [|k] q; cbn.
      * intros [= <-]. now rewrite Nat.add_0_r.
      * intros Hq. replace (idx + S k)%nat with (S idx + k)%nat by lia. auto.
Qed.

End SingleFileLoop.

Lemma instant_offset (T : Z) (N i : nat) :
  instant T N i = (T - Z.of_nat N * 1000 + Z.of_nat (0 + i) * 1000)%Z.
Proof. unfold instant. cbn [Nat.add]. lia. Qed.

Lemma instant_valid (T : Z) (N i : nat) :
  is_time_value T -> is_time_value (T - Z.of_nat N * 1000) ->
  (i < N)%nat -> is_time_value (instant T N i).
Proof.
  intros HT HS Hi.
  apply (is_time_value_between (T - Z.of_nat N * 1000) T); trivial.
  unfold instant. lia.
Qed.

(** [mergeFiles] on a prefix of [N] points and an end track whose first
    time parses to [T]: it completes, writes the retimed prefix followed
    by the end track, and the point at index [i] carries the ISO text of
    [T - (N - i)] seconds. *)
Lemma mergeFiles_retimes (h : Host) (endTrkPrts toMerge : list TrkPrt)
    (firstTrkInEnd : TrkPrt) (outputGpx : string) (T : Z) (N : nat) :
  hd_error endTrkPrts = Some firstTrkInEnd ->
  Date_parse h (time firstTrkInEnd) = Some T ->
  List.length toMerge = N ->
  is_time_value T ->
  is_time_value (T - Z.of_nat N * 1000) ->
  exists retimed,
    mergeFiles h endTrkPrts toMerge outputGpx
    = ([Info_merging outputGpx;
        WriteFile outputGpx (retimed ++ endTrkPrts);
        Info_written outputGpx], inr tt)
    /\ List.length retimed = N
    /\ forall i p,
        nth_error toMerge i = Some p ->
        nth_error retimed i = Some (set_time p (Date_format h (instant T N i))).
Proof.
  intros Hhd Hparse Hlen HT HS.
  destruct endTrkPrts as [|f rest]; [discriminate |].
  cbn in Hhd. injection Hhd as ->.
  unfold mergeFiles. rewrite Hparse, Hlen. cbn [num_sub option_map].
  destruct (forEach_retime_succeeds h (T - Z.of_nat N * 1000) toMerge 0)
    as [retimed E].
  { rewrite Hlen. intros k Hk. rewrite <- instant_offset.
    now apply instant_valid. }
  rewrite E. exists retimed. split; [reflexivity |].
  destruct (forEach_retime_shape h _ _ _ _ E) as [Hl Hn].
  split; [congruence |].
  intros i p Hp. rewrite instant_offset. apply Hn, Hp.
Qed.

(** For two or more points the parser delivers the array. *)
Lemma parsed_trkpt_array (trkPrts : list FixGpx.TrkPrt) :
  (2 <= List.length trkPrts)%nat ->
  FixGpx.parsed_trkpt trkPrts = FixGpx.Trkpt_array trkPrts.
Proof.
  destruct trkPrts as [|p [|q l]]; cbn; intros H; [lia | lia | reflexivity].
Qed.



(** C9.  Retiming touches the [time] field only: when [mergeFiles]
    completes, each of the first [toMerge.length] points written equals
    the prefix point at that index except for [time], so its latitude,
    longitude and elevation are those of the input; the loop has this
    property from any start value, and [mergeFiles] does complete when
    the first time of the end track parses to an instant [T] with [T]
    and [T - N] seconds in the range of [Date]. *)
Theorem retiming_changes_only_time (h : Host)
    (endTrkPrts toMerge : list TrkPrt) (outputGpx : string) :
  (forall tr,
      mergeFiles h endTrkPrts toMerge outputGpx = (tr, inr tt) ->
      exists retimed,
        writes tr = [(outputGpx, retimed ++ endTrkPrts)]
        /\ List.length retimed = List.length toMerge
        /\ forall k p,
            nth_error toMerge k = Some p ->
            exists q,
              nth_error (retimed ++ endTrkPrts) k = Some q
              /\ attr_lat q = attr_lat p
              /\ attr_lon q = attr_lon p
              /\ ele q = ele p
              /\ q = set_time p (time q))
  /\ (forall start index retimed,
        forEach_retime h start index toMerge = inr retimed ->
        Forall2 (fun p q => q = set_time p (time q)) toMerge retimed)
  /\ (forall firstTrkInEnd T,
        hd_error endTrkPrts = Some firstTrkInEnd ->
        Date_parse h (time firstTrkInEnd) = Some T ->
        is_time_value T ->
        is_time_value (T - Z.of_nat (List.length toMerge) * 1000) ->
        exists tr, mergeFiles h endTrkPrts toMerge outputGpx = (tr, inr tt)).
Proof.
  split; [| split].
  - intros tr Hrun. unfold mergeFiles in Hrun.
    destruct endTrkPrts as [|f rest]; [discriminate |].
    destruct (forEach_retime h _ 0 toMerge) as [e|retimed] eqn:E;
      [discriminate |].
    injection Hrun as <-. exists retimed. split; [reflexivity |].
    assert (HF := forEach_retime_frame h _ _ _ _ E).
    split; [symmetry; exact (Forall2_length HF) |].
    clear E. intros k p Hp. revert k Hp.
    induction HF as [|p0 q0 l l' Hpq HF IH]; intros [|k]; cbn;
      try discriminate.
    + intros [= <-]. exists q0. split; [reflexivity |].
      rewrite Hpq. cbn. auto.
    + apply IH.
  - intros start index retimed. apply forEach_retime_frame.
  - intros firstTrkInEnd T Hhd Hparse HT HS.
    destruct (mergeFiles_retimes h endTrkPrts toMerge firstTrkInEnd outputGpx
                T (List.length toMerge) Hhd Hparse eq_refl HT HS)
      as (retimed & E & _).
    eauto.
Qed.

End RetimerProps.

(* ================================================================= *)
(** ** MergeSearch: the scan as a relation *)

Module SearchProps.
Import JSNumber JSNumberFacts MergeGpx RetimerProps.

Section Scan.
Variable h : Host.
Variables beginTrkPrts endTrkPrts : list TrkPrt.
Variable outputGpx : string.
Variable thresholdMeters : float.
Variable firstEndLatLng : LatLng.

(** Distance of a begin point to the first point of the end track. *)
Definition dist_of (trkPrt : TrkPrt) : float :=
  haversineDist h firstEndLatLng (fromTrkPrt h trkPrt).

(** The point is within the threshold. *)
Definition qualifies (trkPrt : TrkPrt) : bool :=
  (dist_of trkPrt <=? thresholdMeters)%float.

Definition qualifies_at (i : nat) : bool :=
  match nth_error beginTrkPrts i with
  | Some trkPrt => qualifies trkPrt
  | None => false
  end.

(** The report of the pass at [index] that starts with running minimum
    [minDist]. *)
Definition report_at (index : nat) (trkPrt : TrkPrt) (minDist : float)
    : Candidate :=
  {| cand_index := index;
     cand_trkPrt := trkPrt;
     cand_nextPrt := nth_error beginTrkPrts (S index);
     cand_minDist :=
       if (dist_of trkPrt <=? minDist)%float then dist_of trkPrt else minDist;
     cand_inBetween :=
       match nth_error beginTrkPrts (S index) with
       | Some nextPrt =>
           isBetween firstEndLatLng (fromTrkPrt h trkPrt) (fromTrkPrt h nextPrt)
       | None => false
       end;
     cand_isMinDist := (dist_of trkPrt <=? minDist)%float |}.

(** The machine of the search: from [Scanning index] with running
    minimum [minDist] and the answers [stdin] still unread, the events
    printed and the state reached. *)
Inductive Scan : nat -> float -> list string -> list Event -> Outcome -> Prop :=
| Scan_exhausted (minDist : float) (stdin : list string) :
    Scan (List.length beginTrkPrts) minDist stdin [Info_noMergePoint] Exhausted
| Scan_skip (index : nat) (trkPrt : TrkPrt) (minDist : float)
    (stdin : list string) (tr : list Event) (o : Outcome) :
    nth_error beginTrkPrts index = Some trkPrt ->
    qualifies trkPrt = false ->
    Scan (S index) minDist stdin tr o ->
    Scan index minDist stdin tr o
| Scan_pending (index : nat) (trkPrt : TrkPrt) (minDist : float) :
    nth_error beginTrkPrts index = Some trkPrt ->
    qualifies trkPrt = true ->
    Scan index minDist []
      [Info_promising (report_at index trkPrt minDist); Ask_mergeAtThisPoint]
      (Pending index)
| Scan_confirmed (index : nat) (trkPrt : TrkPrt) (minDist : float)
    (answer : string) (stdin : list string) :
    nth_error beginTrkPrts index = Some trkPrt ->
    qualifies trkPrt = true ->
    userConfirm answer = true ->
    Scan index minDist (answer :: stdin)
      (Info_promising (report_at index trkPrt minDist)
       :: Ask_mergeAtThisPoint
       :: fst (mergeFiles h endTrkPrts (firstn (S index) beginTrkPrts) outputGpx))
      (Confirmed index
         (snd (mergeFiles h endTrkPrts (firstn (S index) beginTrkPrts) outputGpx)))
| Scan_rejected (index : nat) (trkPrt : TrkPrt) (minDist : float)
    (answer : string) (stdin : list string) (tr : list Event) (o : Outcome) :
    nth_error beginTrkPrts index = Some trkPrt ->
    qualifies trkPrt = true ->
    userConfirm answer = false ->
    Scan (S index) (cand_minDist (report_at index trkPrt minDist)) stdin tr o ->
    Scan index minDist (answer :: stdin)
      (Info_promising (report_at index trkPrt minDist)
       :: Ask_mergeAtThisPoint :: tr) o.

Lemma firstn_snoc (index : nat) (trkPrt : TrkPrt) :
  nth_error beginTrkPrts index = Some trkPrt ->
  firstn index beginTrkPrts ++ [trkPrt] = firstn (S index) beginTrkPrts.
Proof.
  revert index. induction beginTrkPrts as [|p l IH]; intros [|i]; cbn;
    try discriminate.
  - now intros [= ->].
  - intros H. now rewrite (IH _ H).
Qed.

Lemma next_lookup (index : nat) (trkPrt : TrkPrt) :
  nth_error beginTrkPrts index = Some trkPrt ->
  (index <? List.length beginTrkPrts - 1)%nat = true ->
  exists nextPrt, nth_error beginTrkPrts (index + 1) = Some nextPrt.
Proof.
  intros _ Hlt. apply Nat.ltb_lt in Hlt.
  destruct (nth_error beginTrkPrts (index + 1)) eqn:E; [eauto |].
  apply nth_error_None in E. lia.
Qed.

Lemma no_next_lookup (index : nat) (trkPrt : TrkPrt) :
  nth_error beginTrkPrts index = Some trkPrt ->
  (index <? List.length beginTrkPrts - 1)%nat = false ->
  nth_error beginTrkPrts (S index) = None.
Proof.
  intros Hp Hlt. apply Nat.ltb_ge in Hlt. apply nth_error_None.
  assert (index < List.length beginTrkPrts)%nat
    by (apply nth_error_Some; congruence).
  lia.
Qed.

(** One pass of the loop body, case by case. *)
Lemma loop_body_cases (index : nat) (trkPrt : TrkPrt) (minDist : float)
    (stdin : list string) :
  nth_error beginTrkPrts index = Some trkPrt ->
  loop_body h beginTrkPrts endTrkPrts outputGpx thresholdMeters firstEndLatLng
    index trkPrt minDist (firstn index beginTrkPrts) stdin
  = if qualifies trkPrt then
      let report := Info_promising (report_at index trkPrt minDist) in
      match stdin with
      | [] => Return [report; Ask_mergeAtThisPoint] (Pending index)
      | answer :: stdin' =>
          if userConfirm answer then
            Return
              (report :: Ask_mergeAtThisPoint
               :: fst (mergeFiles h endTrkPrts (firstn (S index) beginTrkPrts)
                         outputGpx))
              (Confirmed index
                 (snd (mergeFiles h endTrkPrts (firstn (S index) beginTrkPrts)
                         outputGpx)))
          else
            Continue (cand_minDist (report_at index trkPrt minDist))
              (firstn (S index) beginTrkPrts) stdin'
              [report; Ask_mergeAtThisPoint]
      end
    else Continue minDist (firstn (S index) beginTrkPrts) stdin [].
Proof.
  intros Hp. unfold loop_body, qualifies, report_at.
  fold (dist_of trkPrt). rewrite (firstn_snoc _ _ Hp).
  destruct (dist_of trkPrt <=? thresholdMeters)%float; [| reflexivity].
  destruct (index <? List.length beginTrkPrts - 1)%nat eqn:Elt.
  - destruct (next_lookup _ _ Hp Elt) as [nextPrt En]. rewrite En.
    rewrite Nat.add_1_r in En. rewrite En.
    destruct (dist_of trkPrt <=? minDist)%float; cbn [cand_minDist];
      destruct stdin as [|answer stdin']; trivial;
      destruct (userConfirm answer); trivial;
      now destruct (mergeFiles h endTrkPrts _ outputGpx).
  - rewrite (no_next_lookup _ _ Hp Elt).
    destruct (dist_of trkPrt <=? minDist)%float; cbn [cand_minDist];
      destruct stdin as [|answer stdin']; trivial;
      destruct (userConfirm answer); trivial;
      now destruct (mergeFiles h endTrkPrts _ outputGpx).
Qed.

(** Every run of the loop is a run of the machine. *)
Lemma for_loop_Scan (remaining : nat) :
  forall (index : nat) (minDist : float) (stdin : list string)
         (tr : list Event) (o : Outcome),
    (index + remaining = List.length beginTrkPrts)%nat ->
    for_loop h beginTrkPrts endTrkPrts outputGpx thresholdMeters firstEndLatLng
      remaining index minDist (firstn index beginTrkPrts) stdin = (tr, o) ->
    Scan index minDist stdin tr o.
Proof.
  induction remaining as [|remaining IH]; intros index minDist stdin tr o Hlen;
    cbn [for_loop].
  - intros [= <- <-]. replace index with (List.length beginTrkPrts) by lia.
    constructor.
  - destruct (nth_error beginTrkPrts index) as [trkPrt|] eqn:Hp.
    2:{ apply nth_error_None in Hp. lia. }
    rewrite (loop_body_cases _ _ _ _ Hp).
    destruct (qualifies trkPrt) eqn:Hq.
    + cbv zeta. destruct stdin as [|answer stdin'].
      * intros [= <- <-]. now apply Scan_pending.
      * destruct (userConfirm answer) eqn:Ha.
        -- intros [= <- <-]. now apply Scan_confirmed.
        -- destruct (for_loop _ _ _ _ _ _ remaining (S index) _ _ stdin')
             as [later o'] eqn:El.
           intros [= <- <-]. cbn [app].
           apply Scan_rejected; trivial. apply IH; [lia | exact El].
    + destruct (for_loop _ _ _ _ _ _ remaining (S index) _ _ stdin)
        as [later o'] eqn:El.
      intros [= <- <-]. cbn [app].
      eapply Scan_skip; eauto. apply IH; [lia | exact El].
Qed.

(** The number of begin points the scan visited. *)
Definition scanned (o : Outcome) : nat :=
  match o with
  | Confirmed j _ => S j
  | Pending j => S j
  | Exhausted => List.length beginTrkPrts
  | Threw _ => 0
  end.

(** What [mergeFiles] prints: no report, no question, and the file
    exactly when it completes. *)
Lemma mergeFiles_trace (toMerge : list TrkPrt) :
  (exists retimed,
      mergeFiles h endTrkPrts toMerge outputGpx
      = ([Info_merging outputGpx;
          WriteFile outputGpx (retimed ++ endTrkPrts);
          Info_written outputGpx], inr tt)
      /\ exists firstTrkInEnd,
          hd_error endTrkPrts = Some firstTrkInEnd
          /\ forEach_retime h
               (num_sub (Date_parse h (time firstTrkInEnd))
                  (Z.of_nat (List.length toMerge) * 1000)) 0 toMerge
             = inr retimed)
  \/ (exists e,
      mergeFiles h endTrkPrts toMerge outputGpx = ([Info_merging outputGpx], inl e)).
Proof.
  unfold mergeFiles. destruct endTrkPrts as [|f rest]; [right; eauto |].
  destruct (forEach_retime h _ 0 toMerge) as [e|retimed] eqn:E.
  - right; eauto.
  - left. exists retimed. split; [reflexivity |]. exists f. auto.
Qed.

Lemma mergeFiles_candidates (toMerge : list TrkPrt) :
  candidates (fst (mergeFiles h endTrkPrts toMerge outputGpx)) = []
  /\ questions (fst (mergeFiles h endTrkPrts toMerge outputGpx)) = 0%nat.
Proof.
  destruct (mergeFiles_trace toMerge) as [(r & -> & _)|(e & ->)]; auto.
Qed.

Lemma Scan_bounds index minDist stdin tr o :
  Scan index minDist stdin tr o ->
  (index <= scanned o <= List.length beginTrkPrts)%nat.
Proof.
  induction 1; cbn [scanned]; try lia;
    match goal with
    | H : nth_error _ ?i = Some _ |- _ =>
        assert (i < List.length beginTrkPrts)%nat
          by (apply nth_error_Some; congruence)
    end; lia.
Qed.

Lemma Scan_not_thrown index minDist stdin tr o :
  Scan index minDist stdin tr o -> forall e, o <> Threw e.
Proof. induction 1; intros e; try discriminate; auto. Qed.

(** Each report describes the begin point at its index, which is within
    the threshold, and is followed by its next point when it has one. *)
Lemma Scan_reports index minDist stdin tr o :
  Scan index minDist stdin tr o ->
  forall c, In c (candidates tr) ->
    (index <= cand_index c < scanned o)%nat
    /\ nth_error beginTrkPrts (cand_index c) = Some (cand_trkPrt c)
    /\ qualifies (cand_trkPrt c) = true
    /\ cand_nextPrt c = nth_error beginTrkPrts (S (cand_index c))
    /\ cand_inBetween c
       = match nth_error beginTrkPrts (S (cand_index c)) with
         | Some nextPrt =>
             isBetween firstEndLatLng (fromTrkPrt h (cand_trkPrt c))
               (fromTrkPrt h nextPrt)
         | None => false
         end.
Proof.
  induction 1 as [m s|i p m s tr o Hp Hq HS IH|i p m Hp Hq
                  |i p m a s Hp Hq Ha|i p m a s tr o Hp Hq Ha HS IH];
    intros c Hc; cbn [candidates] in Hc.
  - destruct Hc.
  - destruct (IH c Hc) as (Hi & Hrest). split; [lia | exact Hrest].
  - destruct Hc as [<-|[]]. cbn. repeat split; trivial; lia.
  - rewrite (proj1 (mergeFiles_candidates _)) in Hc.
    destruct Hc as [<-|[]]. cbn. repeat split; trivial; lia.
  - destruct Hc as [<-|Hc].
    + apply Scan_bounds in HS. cbn. repeat split; trivial; lia.
    + destruct (IH c Hc) as (Hi & Hrest). split; [lia | exact Hrest].
Qed.

(** The reports are those of the visited points within the threshold,
    in index order, one question each. *)
Lemma Scan_offered index minDist stdin tr o :
  Scan index minDist stdin tr o ->
  map cand_index (candidates tr)
  = filter qualifies_at (seq index (scanned o - index))
  /\ questions tr = List.length (candidates tr).
Proof.
  induction 1 as [m s|i p m s tr o Hp Hq HS IH|i p m Hp Hq
                  |i p m a s Hp Hq Ha|i p m a s tr o Hp Hq Ha HS IH];
    cbn [candidates questions scanned map List.length].
  - rewrite Nat.sub_diag. auto.
  - apply Scan_bounds in HS. destruct IH as [IH1 IH2].
    replace (scanned o - i)%nat with (S (scanned o - S i)) by lia.
    cbn [seq filter]. unfold qualifies_at at 1. rewrite Hp, Hq. auto.
  - replace (S i - i)%nat with 1%nat by lia. cbn [seq filter].
    unfold qualifies_at. rewrite Hp, Hq. auto.
  - destruct (mergeFiles_candidates (firstn (S i) beginTrkPrts)) as [-> ->].
    replace (S i - i)%nat with 1%nat by lia. cbn [seq filter map List.length].
    unfold qualifies_at. rewrite Hp, Hq. auto.
  - apply Scan_bounds in HS. destruct IH as [IH1 IH2].
    replace (scanned o - i)%nat with (S (scanned o - S i)) by lia.
    cbn [seq filter]. unfold qualifies_at at 1. rewrite Hp, Hq.
    cbn [cand_index report_at]. rewrite IH1, IH2. auto.
Qed.

(** A pass of the loop body over any point reports it and asks the
    question exactly when the point is within the threshold. *)
Lemma loop_body_offers (index : nat) (P : TrkPrt) (minDist : float)
    (toMerge : list TrkPrt) (answers : list string) :
  (exists c,
      candidates
        (printed_by
           (loop_body h beginTrkPrts endTrkPrts outputGpx thresholdMeters
              firstEndLatLng index P minDist toMerge answers)) = [c]
      /\ cand_index c = index
      /\ cand_trkPrt c = P
      /\ questions
           (printed_by
              (loop_body h beginTrkPrts endTrkPrts outputGpx thresholdMeters
                 firstEndLatLng index P minDist toMerge answers)) = 1%nat)
  <-> qualifies P = true.
Proof.
  unfold qualifies, dist_of, loop_body.
  destruct (haversineDist h firstEndLatLng (fromTrkPrt h P) <=? thresholdMeters)%float.
  2:{ cbn. split; [intros (c & Hc & _); discriminate | discriminate]. }
  split; [reflexivity | intros _].
  assert (Hm := mergeFiles_candidates (toMerge ++ [P])).
  destruct (haversineDist h firstEndLatLng (fromTrkPrt h P) <=? minDist)%float;
    (destruct (index <? List.length beginTrkPrts - 1)%nat eqn:Elt;
     [apply Nat.ltb_lt in Elt;
      destruct (nth_error beginTrkPrts (index + 1)) eqn:En;
      [| apply nth_error_None in En; lia] |]);
    (destruct answers as [|a answers'];
     [| destruct (userConfirm a);
        [destruct (mergeFiles h endTrkPrts (toMerge ++ [P]) outputGpx)
           as [printed merge]; cbn [fst] in Hm; destruct Hm as [Hc Hq] |]]);
    cbn [printed_by candidates questions]; rewrite ?Hc, ?Hq;
    eexists; repeat split.
Qed.

(** Every report in the trace is directly followed by the question. *)
Fixpoint each_report_asked (tr : list Event) : bool :=
  match tr with
  | [] => true
  | Info_promising _ :: later =>
      match later with
      | Ask_mergeAtThisPoint :: _ => each_report_asked later
      | _ => false
      end
  | _ :: later => each_report_asked later
  end.

Lemma Scan_asks index minDist stdin tr o :
  Scan index minDist stdin tr o -> each_report_asked tr = true.
Proof.
  induction 1 as [m s|i p m s tr o Hp Hq HS IH|i p m Hp Hq
                  |i p m a s Hp Hq Ha|i p m a s tr o Hp Hq Ha HS IH];
    trivial.
  cbn [each_report_asked].
  now destruct (mergeFiles_trace (firstn (S i) beginTrkPrts))
    as [(r & -> & _)|(e & ->)].
Qed.

(** The file is written by [mergeFiles] and by nothing else. *)
Lemma Scan_writes index minDist stdin tr o :
  Scan index minDist stdin tr o ->
  match o with
  | Confirmed j merge =>
      merge = snd (mergeFiles h endTrkPrts (firstn (S j) beginTrkPrts) outputGpx)
      /\ exists before,
          tr = before
               ++ Ask_mergeAtThisPoint
               :: fst (mergeFiles h endTrkPrts (firstn (S j) beginTrkPrts)
                         outputGpx)
          /\ writes before = []
  | Exhausted =>
      writes tr = [] /\ exists before, tr = before ++ [Info_noMergePoint]
  | _ => writes tr = []
  end.
Proof.
  induction 1 as [m s|i p m s tr o Hp Hq HS IH|i p m Hp Hq
                  |i p m a s Hp Hq Ha|i p m a s tr o Hp Hq Ha HS IH].
  - split; [reflexivity | now exists []].
  - exact IH.
  - reflexivity.
  - split; [reflexivity |].
    exists [Info_promising (report_at i p m)]. auto.
  - destruct o as [j merge| |j|e]; cbn [writes]; trivial.
    + destruct IH as (Hm & before & -> & Hw). split; [exact Hm |].
      exists (Info_promising (report_at i p m) :: Ask_mergeAtThisPoint :: before).
      auto.
    + destruct IH as (Hw & before & ->). split; [exact Hw |].
      now exists (Info_promising (report_at i p m) :: Ask_mergeAtThisPoint :: before).
Qed.

(** When nothing from [index] on is within the threshold the scan falls
    through without a question. *)
Lemma Scan_none_qualifies index minDist stdin tr o :
  Scan index minDist stdin tr o ->
  (forall i, (index <= i)%nat -> qualifies_at i = false) ->
  tr = [Info_noMergePoint] /\ o = Exhausted.
Proof.
  induction 1 as [m s|i p m s tr o Hp Hq HS IH|i p m Hp Hq
                  |i p m a s Hp Hq Ha|i p m a s tr o Hp Hq Ha HS IH];
    intros Hnone; auto;
    try (apply IH; intros k Hk; apply Hnone; lia);
    specialize (Hnone i (Nat.le_refl _)); unfold qualifies_at in Hnone;
    rewrite Hp in Hnone; congruence.
Qed.

(** A confirmation needs an affirmative answer. *)
Lemma Scan_confirmed_answer index minDist stdin tr o :
  Scan index minDist stdin tr o ->
  forall j merge, o = Confirmed j merge ->
    exists answer, In answer stdin /\ userConfirm answer = true.
Proof.
  induction 1 as [m s|i p m s tr o Hp Hq HS IH|i p m Hp Hq
                  |i p m a s Hp Hq Ha|i p m a s tr o Hp Hq Ha HS IH];
    intros j merge E; try discriminate.
  - eauto.
  - exists a. cbn. auto.
  - destruct (IH _ _ E) as (b & Hb & Hc). exists b. cbn. auto.
Qed.

(** With every question answered by a refusal the scan runs to the end. *)
Lemma Scan_all_rejected index minDist stdin tr o :
  Scan index minDist stdin tr o ->
  (forall answer, In answer stdin -> userConfirm answer = false) ->
  (List.length (filter qualifies_at (seq index (List.length beginTrkPrts - index)))
   <= List.length stdin)%nat ->
  o = Exhausted.
Proof.
  induction 1 as [m s|i p m s tr o Hp Hq HS IH|i p m Hp Hq
                  |i p m a s Hp Hq Ha|i p m a s tr o Hp Hq Ha HS IH];
    intros Hno Hlen; trivial;
    assert (Hi : (i < List.length beginTrkPrts)%nat)
      by (apply nth_error_Some; congruence);
    replace (List.length beginTrkPrts - i)%nat
      with (S (List.length beginTrkPrts - S i)) in Hlen by lia;
    cbn [seq filter] in Hlen; unfold qualifies_at at 1 in Hlen;
    rewrite Hp, Hq in Hlen; cbn [List.length] in Hlen.
  - apply IH; trivial.
  - lia.
  - rewrite (Hno a (or_introl eq_refl)) in Ha. discriminate.
  - apply IH; [| lia]. intros b Hb. apply Hno. now right.
Qed.

(** The minimum distance over the points before index [i] that are
    within the threshold, starting from positive infinity. *)
Definition running_min (i : nat) : float :=
  fold_left Math_min
    (map dist_of (filter qualifies (firstn i beginTrkPrts))) infinity.

Lemma running_min_S (i : nat) (trkPrt : TrkPrt) :
  nth_error beginTrkPrts i = Some trkPrt ->
  running_min (S i)
  = if qualifies trkPrt then Math_min (running_min i) (dist_of trkPrt)
    else running_min i.
Proof.
  intros Hp. unfold running_min.
  rewrite <- (firstn_snoc _ _ Hp), filter_app, map_app, fold_left_app.
  cbn [filter]. now destruct (qualifies trkPrt).
Qed.

Lemma qualifies_not_nan (trkPrt : TrkPrt) :
  qualifies trkPrt = true -> is_nan (dist_of trkPrt) = false.
Proof. intros H. now apply leb_not_nan in H. Qed.

Lemma running_min_not_nan (i : nat) : is_nan (running_min i) = false.
Proof.
  unfold running_min.
  assert (H : forall l m,
             is_nan m = false ->
             (forall x, In x l -> is_nan x = false) ->
             is_nan (fold_left Math_min l m) = false).
  { induction l as [|x l IH]; intros m Hm Hl; cbn; trivial.
    apply IH; [| intros y Hy; apply Hl; now right].
    apply Math_min_not_nan; trivial. apply Hl. now left. }
  apply H; [reflexivity |].
  intros x Hx. apply in_map_iff in Hx. destruct Hx as (p & <- & Hp).
  apply filter_In in Hp. now apply qualifies_not_nan.
Qed.

(** The variable [minDist] stands for the running minimum: it compares
    like it with every double. *)
Definition tracks_min (minDist : float) (i : nat) : Prop :=
  is_nan minDist = false
  /\ forall x, (x <=? minDist)%float = (x <=? running_min i)%float.

Lemma tracks_min_update (minDist : float) (i : nat) (trkPrt : TrkPrt) :
  nth_error beginTrkPrts i = Some trkPrt ->
  qualifies trkPrt = true ->
  tracks_min minDist i ->
  tracks_min (cand_minDist (report_at i trkPrt minDist)) (S i).
Proof.
  intros Hp Hq [Hnan Hcmp]. cbn [cand_minDist report_at].
  assert (Hd := qualifies_not_nan _ Hq).
  unfold tracks_min. rewrite (running_min_S _ _ Hp), Hq.
  split; [now destruct (dist_of trkPrt <=? minDist)%float |].
  intros x. rewrite leb_Math_min, <- Hcmp.
  destruct (dist_of trkPrt <=? minDist)%float eqn:E.
  - destruct (x <=? dist_of trkPrt)%float eqn:E1, (x <=? minDist)%float eqn:E2;
      trivial; exfalso; leb_saturate; congruence.
  - assert (E' := leb_total _ _ Hd Hnan E).
    destruct (x <=? dist_of trkPrt)%float eqn:E1, (x <=? minDist)%float eqn:E2;
      trivial; exfalso; leb_saturate; congruence.
Qed.

(** The minimum flag of a report compares the point's distance with the
    running minimum of the points before it. *)
Lemma Scan_min_flag index minDist stdin tr o :
  Scan index minDist stdin tr o ->
  tracks_min minDist index ->
  forall c, In c (candidates tr) ->
    cand_isMinDist c
    = (dist_of (cand_trkPrt c) <=? running_min (cand_index c))%float.
Proof.
  induction 1 as [m s|i p m s tr o Hp Hq HS IH|i p m Hp Hq
                  |i p m a s Hp Hq Ha|i p m a s tr o Hp Hq Ha HS IH];
    intros Hinv c Hc; cbn [candidates] in Hc.
  - destruct Hc.
  - apply IH; trivial. destruct Hinv as [Hn Hcmp]. split; trivial.
    intros x. now rewrite (running_min_S _ _ Hp), Hq.
  - destruct Hc as [<-|[]]. cbn. apply Hinv.
  - rewrite (proj1 (mergeFiles_candidates _)) in Hc.
    destruct Hc as [<-|[]]. cbn. apply Hinv.
  - destruct Hc as [<-|Hc]; [cbn; apply Hinv |].
    apply IH; trivial. now apply tracks_min_update.
Qed.

(** Being below the running minimum is being below every earlier point
    within the threshold. *)
Lemma leb_running_min (i : nat) (x : float) :
  (x <=? running_min i)%float = true <->
  is_nan x = false
  /\ forall j trkPrt,
      (j < i)%nat -> nth_error beginTrkPrts j = Some trkPrt ->
      qualifies trkPrt = true -> (x <=? dist_of trkPrt)%float = true.
Proof.
  induction i as [|i IH].
  - unfold running_min. cbn. split.
    + intros H. apply leb_not_nan in H. split; [tauto |]. intros; lia.
    + intros [H _]. now apply leb_infinity.
  - destruct (nth_error beginTrkPrts i) as [p|] eqn:Hp.
    + rewrite (running_min_S _ _ Hp).
      assert (Hstep : forall j trkPrt,
                 (j < S i)%nat -> nth_error beginTrkPrts j = Some trkPrt ->
                 (j < i)%nat \/ (j = i /\ trkPrt = p)).
      { intros j q Hj Hq. destruct (Nat.eq_dec j i) as [->|]; [right | left; lia].
        split; congruence. }
      destruct (qualifies p) eqn:Hq.
      * rewrite leb_Math_min, andb_true_iff, IH. split.
        -- intros [[Hn Hall] Hx]. split; trivial.
           intros j q Hj Hjq Hqq.
           destruct (Hstep _ _ Hj Hjq) as [Hlt|[-> ->]]; eauto.
        -- intros [Hn Hall]. repeat split; trivial.
           ++ intros j q Hj. apply (Hall j q). lia.
           ++ apply (Hall i p); trivial. lia.
      * rewrite IH. split; intros [Hn Hall]; split; trivial.
        -- intros j q Hj Hjq Hqq.
           destruct (Hstep _ _ Hj Hjq) as [Hlt|[-> ->]]; eauto. congruence.
        -- intros j q Hj. apply (Hall j q). lia.
    + assert (Hlen : (List.length beginTrkPrts <= i)%nat)
        by now apply nth_error_None.
      assert (E : running_min (S i) = running_min i).
      { unfold running_min. now rewrite !firstn_all2 by lia. }
      rewrite E, IH. split; intros [Hn Hall]; split; trivial.
      * intros j q Hj Hjq. apply (Hall j q); trivial.
        assert (j < List.length beginTrkPrts)%nat
          by (apply nth_error_Some; congruence). lia.
      * intros j q Hj. apply (Hall j q). lia.
Qed.

(** A flagged candidate is printed with its own distance as the running
    minimum. *)
Lemma Scan_min_printed index minDist stdin tr o :
  Scan index minDist stdin tr o ->
  forall c, In c (candidates tr) ->
    cand_isMinDist c = true -> cand_minDist c = dist_of (cand_trkPrt c).
Proof.
  induction 1 as [m s|i p m s tr o Hp Hq HS IH|i p m Hp Hq
                  |i p m a s Hp Hq Ha|i p m a s tr o Hp Hq Ha HS IH];
    intros c Hc; cbn [candidates] in Hc.
  - destruct Hc.
  - eauto.
  - destruct Hc as [<-|[]]. cbn. now intros ->.
  - rewrite (proj1 (mergeFiles_candidates _)) in Hc.
    destruct Hc as [<-|[]]. cbn. now intros ->.
  - destruct Hc as [<-|Hc]; [cbn; now intros -> | eauto].
Qed.

End Scan.

(** A run of [findMergePoint] on a non-empty end track prints the point
    to merge with and then runs the machine from index 0 with running
    minimum positive infinity. *)
Lemma findMergePoint_Scan (h : Host) (beginTrkPrts endTrkPrts : list TrkPrt)
    (outputGpx : string) (thresholdMeters : float) (stdin : list string)
    (tr : list Event) (o : Outcome) (firstTrkInEnd : TrkPrt) :
  hd_error endTrkPrts = Some firstTrkInEnd ->
  findMergePoint h beginTrkPrts endTrkPrts outputGpx thresholdMeters stdin
  = (tr, o) ->
  exists later,
    tr = Info_pointToMergeWith firstTrkInEnd :: later
    /\ Scan h beginTrkPrts endTrkPrts outputGpx thresholdMeters
         (fromTrkPrt h firstTrkInEnd) 0 infinity stdin later o.
Proof.
  unfold findMergePoint. destruct endTrkPrts as [|f rest]; [discriminate |].
  intros [= ->].
  destruct (for_loop h beginTrkPrts (firstTrkInEnd :: rest) outputGpx
              thresholdMeters (fromTrkPrt h firstTrkInEnd)
              (List.length beginTrkPrts) 0 infinity [] stdin)
    as [later o'] eqn:E.
  intros [= <- <-]. exists later. split; [reflexivity |].
  apply (for_loop_Scan h beginTrkPrts (firstTrkInEnd :: rest) outputGpx
           thresholdMeters (fromTrkPrt h firstTrkInEnd)
           (List.length beginTrkPrts) 0 infinity stdin later o' eq_refl).
  exact E.
Qed.

Lemma tracks_min_start (h : Host) (beginTrkPrts : list TrkPrt)
    (thresholdMeters : float) (firstEndLatLng : LatLng) :
  tracks_min h beginTrkPrts thresholdMeters firstEndLatLng infinity 0.
Proof. split; reflexivity. Qed.

(** C3.  A pass of the scan over a begin point [P] offers it (reports
    it and asks the question) exactly when its haversine distance to the
    first point of the end track is [<=] the threshold.  A pass over a
    point that is not within the threshold prints nothing and asks
    nothing but still pushes the point on [toMerge]; so does a pass whose
    candidate is refused.  Hence, of the points the scan visits (it
    returns at the confirmed index), the candidates are
    exactly those within the threshold, each report directly followed by
    the question, and a confirmation at [j] hands [mergeFiles] the
    points 0..j. *)
Theorem candidates_within_threshold (h : Host)
    (beginTrkPrts endTrkPrts : list TrkPrt) (outputGpx : string)
    (thresholdMeters : float) (stdin : list string)
    (tr : list Event) (o : Outcome) (firstTrkInEnd : TrkPrt) :
  hd_error endTrkPrts = Some firstTrkInEnd ->
  findMergePoint h beginTrkPrts endTrkPrts outputGpx thresholdMeters stdin
  = (tr, o) ->
  (forall i P,
      nth_error beginTrkPrts i = Some P ->
      (i < scanned beginTrkPrts o)%nat ->
      ((exists c, In c (candidates tr) /\ cand_index c = i /\ cand_trkPrt c = P)
       <-> (haversineDist h (fromTrkPrt h firstTrkInEnd) (fromTrkPrt h P)
            <=? thresholdMeters)%float = true))
  /\ (forall c, In c (candidates tr) ->
        (cand_index c < scanned beginTrkPrts o)%nat)
  /\ questions tr = List.length (candidates tr)
  /\ each_report_asked tr = true
  /\ (forall index P minDist toMerge answers,
        let pass :=
          loop_body h beginTrkPrts endTrkPrts outputGpx thresholdMeters
            (fromTrkPrt h firstTrkInEnd) index P minDist toMerge answers in
        (exists c,
            candidates (printed_by pass) = [c]
            /\ cand_index c = index
            /\ cand_trkPrt c = P
            /\ questions (printed_by pass) = 1%nat)
        <-> (haversineDist h (fromTrkPrt h firstTrkInEnd) (fromTrkPrt h P)
             <=? thresholdMeters)%float = true)
  /\ (forall index P minDist toMerge answers,
        (haversineDist h (fromTrkPrt h firstTrkInEnd) (fromTrkPrt h P)
         <=? thresholdMeters)%float = false ->
        loop_body h beginTrkPrts endTrkPrts outputGpx thresholdMeters
          (fromTrkPrt h firstTrkInEnd) index P minDist toMerge answers
        = Continue minDist (toMerge ++ [P]) answers [])
  /\ (forall index P minDist toMerge answers minDist' toMerge' answers' printed,
        loop_body h beginTrkPrts endTrkPrts outputGpx thresholdMeters
          (fromTrkPrt h firstTrkInEnd) index P minDist toMerge answers
        = Continue minDist' toMerge' answers' printed ->
        toMerge' = toMerge ++ [P])
  /\ (forall j merge,
        o = Confirmed j merge ->
        merge = snd (mergeFiles h endTrkPrts (firstn (S j) beginTrkPrts) outputGpx)
        /\ exists before,
            tr = before
                 ++ Ask_mergeAtThisPoint
                 :: fst (mergeFiles h endTrkPrts (firstn (S j) beginTrkPrts)
                           outputGpx)).
Proof.
  intros Hhd Hrun.
  destruct (findMergePoint_Scan _ _ _ _ _ _ _ _ _ Hhd Hrun) as (later & -> & HS).
  cbn [candidates questions].
  destruct (Scan_offered _ _ _ _ _ _ _ _ _ _ _ HS) as [Hoff Hq].
  assert (Hrep := Scan_reports _ _ _ _ _ _ _ _ _ _ _ HS).
  split; [| split; [| split; [| split; [| split; [| split; [| split]]]]]].
  - intros i P HP Hi. split.
    + intros (c & Hc & <- & <-). now destruct (Hrep c Hc) as (_ & _ & Hqual & _).
    + intros Hd.
      assert (Hin : In i (map cand_index (candidates later))).
      { rewrite Hoff. apply filter_In. split.
        - apply in_seq. lia.
        - unfold qualifies_at. rewrite HP. exact Hd. }
      apply in_map_iff in Hin. destruct Hin as (c & Hci & Hc).
      exists c. repeat split; trivial.
      destruct (Hrep c Hc) as (_ & Hnth & _). congruence.
  - intros c Hc. destruct (Hrep c Hc) as (Hi & _). lia.
  - exact Hq.
  - exact (Scan_asks _ _ _ _ _ _ _ _ _ _ _ HS).
  - intros index P minDist toMerge answers.
    exact (loop_body_offers h beginTrkPrts endTrkPrts outputGpx thresholdMeters
             (fromTrkPrt h firstTrkInEnd) index P minDist toMerge answers).
  - intros index P minDist toMerge answers Hd. unfold loop_body.
    now rewrite Hd.
  - intros index P minDist toMerge answers minDist' toMerge' answers' printed.
    unfold loop_body.
    destruct (haversineDist h _ _ <=? thresholdMeters)%float.
    2:{ now intros [= _ <- _ _]. }
    destruct (haversineDist h _ _ <=? minDist)%float;
      (destruct (index <? _)%nat;
       [destruct (nth_error beginTrkPrts (index + 1)); [| discriminate] |]);
      (destruct answers as [|a answers'']; [discriminate |]);
      (destruct (userConfirm a);
       [destruct (mergeFiles h endTrkPrts _ outputGpx); discriminate |]);
      now intros [= _ <- _ _].
  - intros j merge ->.
    destruct (Scan_writes _ _ _ _ _ _ _ _ _ _ _ HS) as (Hm & before & -> & _).
    split; [exact Hm |].
    now exists (Info_pointToMergeWith firstTrkInEnd :: before).
Qed.

(** C4.  A candidate is flagged as the running minimum exactly when its
    distance is [<=] the minimum distance over the points scanned before
    it that were within the threshold, that minimum starting at positive
    infinity: equivalently, when it is [<=] the distance of each of
    them.  On a tie with that minimum the later candidate is flagged,
    and the running minimum printed with a flagged candidate is its own
    distance. *)
Theorem minimum_flag_most_recent_wins (h : Host)
    (beginTrkPrts endTrkPrts : list TrkPrt) (outputGpx : string)
    (thresholdMeters : float) (stdin : list string)
    (tr : list Event) (o : Outcome) (firstTrkInEnd : TrkPrt) (c : Candidate) :
  hd_error endTrkPrts = Some firstTrkInEnd ->
  findMergePoint h beginTrkPrts endTrkPrts outputGpx thresholdMeters stdin
  = (tr, o) ->
  In c (candidates tr) ->
  let E := fromTrkPrt h firstTrkInEnd in
  let d := haversineDist h E (fromTrkPrt h (cand_trkPrt c)) in
  let previous_minimum :=
    running_min h beginTrkPrts thresholdMeters E (cand_index c) in
  cand_isMinDist c = (d <=? previous_minimum)%float
  /\ (cand_isMinDist c = true <->
      forall j P,
        (j < cand_index c)%nat ->
        nth_error beginTrkPrts j = Some P ->
        (haversineDist h E (fromTrkPrt h P) <=? thresholdMeters)%float = true ->
        (d <=? haversineDist h E (fromTrkPrt h P))%float = true)
  /\ ((d =? previous_minimum)%float = true -> cand_isMinDist c = true)
  /\ (cand_isMinDist c = true -> cand_minDist c = d).
Proof.
  intros Hhd Hrun Hc E d previous_minimum.
  destruct (findMergePoint_Scan _ _ _ _ _ _ _ _ _ Hhd Hrun) as (later & -> & HS).
  cbn [candidates] in Hc.
  assert (Hflag := Scan_min_flag _ _ _ _ _ _ _ _ _ _ _ HS
                     (tracks_min_start _ _ _ _) c Hc).
  fold E in HS, Hflag. unfold dist_of in Hflag. fold d previous_minimum in Hflag.
  destruct (Scan_reports _ _ _ _ _ _ _ _ _ _ _ HS c Hc)
    as (_ & _ & Hqual & _).
  split; [exact Hflag |]. split; [| split].
  - rewrite Hflag. unfold previous_minimum. rewrite leb_running_min.
    split; [intros [_ H]; exact H |].
    intros H. split; [| exact H].
    now apply qualifies_not_nan in Hqual.
  - intros Htie. rewrite Hflag. now apply eqb_leb.
  - exact (Scan_min_printed _ _ _ _ _ _ _ _ _ _ _ HS c Hc).
Qed.

(** C6, as the scan computes it.  For every candidate at index [i] with
    point [P]: when the begin track has a point at [i + 1] the flag is
    [isBetween(endFirstPoint, P, next)] for that point, and when [i] is
    the last index the flag is false. *)
Theorem between_flag_uses_next_point (h : Host)
    (beginTrkPrts endTrkPrts : list TrkPrt) (outputGpx : string)
    (thresholdMeters : float) (stdin : list string)
    (tr : list Event) (o : Outcome) (firstTrkInEnd : TrkPrt) (c : Candidate) :
  hd_error endTrkPrts = Some firstTrkInEnd ->
  findMergePoint h beginTrkPrts endTrkPrts outputGpx thresholdMeters stdin
  = (tr, o) ->
  In c (candidates tr) ->
  nth_error beginTrkPrts (cand_index c) = Some (cand_trkPrt c)
  /\ (forall next,
        nth_error beginTrkPrts (cand_index c + 1) = Some next ->
        cand_inBetween c
        = isBetween (fromTrkPrt h firstTrkInEnd) (fromTrkPrt h (cand_trkPrt c))
            (fromTrkPrt h next))
  /\ ((cand_index c + 1 = List.length beginTrkPrts)%nat ->
      cand_inBetween c = false).
Proof.
  intros Hhd Hrun Hc.
  destruct (findMergePoint_Scan _ _ _ _ _ _ _ _ _ Hhd Hrun) as (later & -> & HS).
  cbn [candidates] in Hc.
  destruct (Scan_reports _ _ _ _ _ _ _ _ _ _ _ HS c Hc)
    as (_ & Hnth & _ & _ & Hb).
  rewrite Nat.add_1_r. split; [exact Hnth |]. split.
  - intros next Hn. now rewrite Hb, Hn.
  - intros Hlast. rewrite Hb.
    assert (E : nth_error beginTrkPrts (S (cand_index c)) = None)
      by (apply nth_error_None; lia).
    now rewrite E.
Qed.

Lemma writes_app (tr1 tr2 : list Event) :
  writes (tr1 ++ tr2) = writes tr1 ++ writes tr2.
Proof.
  induction tr1 as [|e tr1 IH]; [reflexivity |].
  destruct e; cbn; now rewrite ?IH.
Qed.

(** C2.  When the candidate at index [i] is confirmed, the merge
    completes as soon as the first time of the end track parses to an
    instant [T] with [T] and [T - (i + 1)] seconds in the range of
    [Date]; and whenever it completes, the one file written holds the
    retimed begin points 0..i followed by the whole end track:
    [(i + 1) + length endTrack] points; the point at index [k <= i] is
    the begin point at [k] with its [time] replaced by the ISO text of
    [T - (i + 1 - k)] seconds, where [T] is the parsed original time of
    the end track's first point; so the last prefix point is stamped
    [T - 1] second, one second before that time, and is followed by the
    end track's first point and every other end point as it was. *)
Theorem splice_at_confirmed_index (h : Host)
    (beginTrkPrts endTrkPrts : list TrkPrt) (outputGpx : string)
    (thresholdMeters : float) (stdin : list string)
    (tr : list Event) (i : nat) (merge : Error + unit)
    (firstTrkInEnd : TrkPrt) :
  findMergePoint h beginTrkPrts endTrkPrts outputGpx thresholdMeters stdin
  = (tr, Confirmed i merge) ->
  hd_error endTrkPrts = Some firstTrkInEnd ->
  (forall T,
      Date_parse h (time firstTrkInEnd) = Some T ->
      is_time_value T ->
      is_time_value (T - Z.of_nat (i + 1) * 1000) ->
      merge = inr tt)
  /\ (merge = inr tt ->
      exists T retimed,
        Date_parse h (time firstTrkInEnd) = Some T
        /\ writes tr = [(outputGpx, retimed ++ endTrkPrts)]
        /\ List.length retimed = (i + 1)%nat
        /\ List.length (retimed ++ endTrkPrts)
           = ((i + 1) + List.length endTrkPrts)%nat
        /\ (forall k P,
              (k <= i)%nat ->
              nth_error beginTrkPrts k = Some P ->
              exists q,
                nth_error (retimed ++ endTrkPrts) k = Some q
                /\ time q = Date_format h (instant T (i + 1) k)
                /\ attr_lat q = attr_lat P
                /\ attr_lon q = attr_lon P
                /\ ele q = ele P)
        /\ (exists P q,
              nth_error beginTrkPrts i = Some P
              /\ nth_error (retimed ++ endTrkPrts) i = Some q
              /\ time q = Date_format h (T - 1000)
              /\ attr_lat q = attr_lat P
              /\ attr_lon q = attr_lon P
              /\ ele q = ele P)
        /\ nth_error (retimed ++ endTrkPrts) (i + 1) = Some firstTrkInEnd
        /\ skipn (i + 1) (retimed ++ endTrkPrts) = endTrkPrts
        /\ (forall k q,
              nth_error endTrkPrts k = Some q ->
              nth_error (retimed ++ endTrkPrts) (i + 1 + k) = Some q)).
Proof.
  intros Hrun Hhd.
  destruct (findMergePoint_Scan _ _ _ _ _ _ _ _ _ Hhd Hrun) as (later & -> & HSc).
  assert (Hb := Scan_bounds _ _ _ _ _ _ _ _ _ _ _ HSc). cbn [scanned] in Hb.
  destruct (Scan_writes _ _ _ _ _ _ _ _ _ _ _ HSc) as (Hm & before & -> & Hw).
  assert (Hlen : List.length (firstn (S i) beginTrkPrts) = (i + 1)%nat)
    by (rewrite length_firstn; lia).
  split.
  - intros T Hparse HT HS.
    destruct (mergeFiles_retimes h endTrkPrts (firstn (S i) beginTrkPrts)
                firstTrkInEnd outputGpx T (i + 1) Hhd Hparse Hlen HT HS)
      as (retimed & E & _).
    rewrite E in Hm. exact Hm.
  - intros Hdone.
    destruct (mergeFiles_trace h endTrkPrts outputGpx (firstn (S i) beginTrkPrts))
      as [(retimed & E & g & Hg & Ef)|(e & E)].
    2:{ rewrite E in Hm. cbn [snd] in Hm. congruence. }
    rewrite Hhd in Hg. injection Hg as <-.
    destruct (Date_parse h (time firstTrkInEnd)) as [T|] eqn:Hparse.
    2:{ cbn [num_sub option_map] in Ef. apply forEach_retime_NaN in Ef.
        rewrite Ef in Hlen. cbn in Hlen. lia. }
    cbn [num_sub option_map] in Ef. rewrite Hlen in Ef.
    destruct (forEach_retime_shape h _ _ _ _ Ef) as [Hl Hn].
    rewrite Hlen in Hl.
    exists T, retimed. split; [reflexivity |].
    assert (Hprefix : forall k P,
               (k <= i)%nat -> nth_error beginTrkPrts k = Some P ->
               nth_error (retimed ++ endTrkPrts) k
               = Some (set_time P (Date_format h (instant T (i + 1) k)))).
    { intros k P Hk HP. rewrite nth_error_app1 by lia.
      rewrite instant_offset. apply Hn. rewrite nth_error_firstn.
      destruct (Nat.ltb_spec k (S i)); [exact HP | lia]. }
    split; [| split; [exact Hl | split; [| split; [| split;
            [| split; [| split]]]]]].
    + cbn [writes]. rewrite writes_app, Hw, E. reflexivity.
    + rewrite length_app. lia.
    + intros k P Hk HP. eexists. split; [exact (Hprefix k P Hk HP) |].
      repeat split.
    + destruct (nth_error beginTrkPrts i) as [P|] eqn:HP.
      2:{ apply nth_error_None in HP. lia. }
      exists P, (set_time P (Date_format h (instant T (i + 1) i))).
      split; [reflexivity |].
      split; [exact (Hprefix i P (Nat.le_refl _) HP) |].
      split; [| repeat split]. cbn [time set_time]. f_equal.
      unfold instant. lia.
    + rewrite nth_error_app2 by lia.
      replace (i + 1 - List.length retimed)%nat with 0%nat by lia.
      destruct endTrkPrts; [discriminate | exact Hhd].
    + rewrite skipn_app, skipn_all2 by lia.
      now replace (i + 1 - List.length retimed)%nat with 0%nat by lia.
    + intros k q Hq. rewrite nth_error_app2 by lia.
      now replace (i + 1 + k - List.length retimed)%nat with k by lia.
Qed.

(** C7.  The output file is written at most once, and only by a run in
    which a candidate was confirmed and [mergeFiles] completed, after the
    question about it; such a run writes it exactly once.  A run that
    confirms no candidate writes nothing.  A scan that runs off the end
    of the begin track ends in [Exhausted] with the message last and no
    write; that is the outcome when the begin track is empty, when no
    begin point is within the threshold (then no question is asked
    either), and when every question gets a refusal. *)
Theorem output_written_once_after_confirmation (h : Host)
    (beginTrkPrts endTrkPrts : list TrkPrt) (outputGpx : string)
    (thresholdMeters : float) (stdin : list string)
    (tr : list Event) (o : Outcome) :
  findMergePoint h beginTrkPrts endTrkPrts outputGpx thresholdMeters stdin
  = (tr, o) ->
  (List.length (writes tr) <= 1)%nat
  /\ (writes tr <> [] ->
      exists i before content,
        o = Confirmed i (inr tt)
        /\ tr = before
                ++ [Ask_mergeAtThisPoint; Info_merging outputGpx;
                    WriteFile outputGpx content; Info_written outputGpx]
        /\ writes before = []
        /\ exists answer, In answer stdin /\ userConfirm answer = true)
  /\ (forall i, o = Confirmed i (inr tt) -> List.length (writes tr) = 1%nat)
  /\ ((forall i merge, o <> Confirmed i merge) -> writes tr = [])
  /\ (o = Exhausted ->
      writes tr = [] /\ exists before, tr = before ++ [Info_noMergePoint])
  /\ (endTrkPrts <> [] ->
      (forall i merge, o <> Confirmed i merge) ->
      (forall i, o <> Pending i) ->
      o = Exhausted)
  /\ (endTrkPrts <> [] -> beginTrkPrts = [] ->
      o = Exhausted /\ questions tr = 0%nat /\ writes tr = [])
  /\ (forall firstTrkInEnd,
        hd_error endTrkPrts = Some firstTrkInEnd ->
        (forall P, In P beginTrkPrts ->
           (haversineDist h (fromTrkPrt h firstTrkInEnd) (fromTrkPrt h P)
            <=? thresholdMeters)%float = false) ->
        o = Exhausted /\ questions tr = 0%nat /\ writes tr = [])
  /\ (endTrkPrts <> [] ->
      (forall answer, In answer stdin -> userConfirm answer = false) ->
      (List.length beginTrkPrts <= List.length stdin)%nat ->
      o = Exhausted /\ writes tr = []).
Proof.
  intros Hrun.
  destruct endTrkPrts as [|f rest] eqn:Eend.
  { cbn in Hrun. injection Hrun as <- <-. cbn.
    repeat split; try discriminate; try lia; try congruence;
      intros; exfalso; auto. }
  rewrite <- Eend in *.
  assert (Hhd : hd_error endTrkPrts = Some f) by now rewrite Eend.
  destruct (findMergePoint_Scan _ _ _ _ _ _ _ _ _ Hhd Hrun) as (later & -> & HS).
  assert (HW := Scan_writes _ _ _ _ _ _ _ _ _ _ _ HS).
  assert (HT := Scan_not_thrown _ _ _ _ _ _ _ _ _ _ _ HS).
  assert (Hnone : (forall i merge, o <> Confirmed i merge) ->
                  writes (Info_pointToMergeWith f :: later) = []).
  { intros Hno. cbn [writes].
    destruct o as [j merge| |j|e]; try tauto. exfalso. now apply (Hno j merge). }
  assert (Hex : o = Exhausted ->
                writes (Info_pointToMergeWith f :: later) = []
                /\ exists before,
                    Info_pointToMergeWith f :: later
                    = before ++ [Info_noMergePoint]).
  { intros ->. destruct HW as (Hw & before & ->). split; [exact Hw |].
    now exists (Info_pointToMergeWith f :: before). }
  assert (Hconf : forall j merge, o = Confirmed j merge ->
            (merge = inr tt /\ exists before content,
                Info_pointToMergeWith f :: later
                = before ++ [Ask_mergeAtThisPoint; Info_merging outputGpx;
                             WriteFile outputGpx content; Info_written outputGpx]
                /\ writes before = []
                /\ writes (Info_pointToMergeWith f :: later)
                   = [(outputGpx, content)])
            \/ ((exists e, merge = inl e)
                /\ writes (Info_pointToMergeWith f :: later) = [])).
  { intros j merge ->. destruct HW as (Hm & before & -> & Hw).
    destruct (mergeFiles_trace h endTrkPrts outputGpx (firstn (S j) beginTrkPrts))
      as [(retimed & E & _)|(e & E)]; rewrite E in *; cbn [fst snd] in *.
    - left. split; [exact Hm |].
      exists (Info_pointToMergeWith f :: before), (retimed ++ endTrkPrts).
      split; [reflexivity |]. split; [exact Hw |].
      cbn [writes]. rewrite writes_app, Hw. reflexivity.
    - right. split; [eauto |]. cbn [writes]. rewrite writes_app, Hw.
      reflexivity. }
  split; [| split; [| split; [| split; [exact Hnone | split; [exact Hex |
          split; [| split; [| split]]]]]]].
  - destruct o as [j merge| |j|e].
    + destruct (Hconf j merge eq_refl)
        as [(_ & before & content & _ & _ & ->)|(_ & ->)]; cbn; lia.
    + rewrite (proj1 (Hex eq_refl)). cbn; lia.
    + cbn [writes]. rewrite HW. cbn; lia.
    + now destruct (HT e).
  - intros Hne. destruct o as [j merge| |j|e].
    + destruct (Hconf j merge eq_refl)
        as [(-> & before & content & Htr & Hw & _)|(_ & Hw)]; [| contradiction].
      exists j, before, content. repeat split; trivial.
      exact (Scan_confirmed_answer _ _ _ _ _ _ _ _ _ _ _ HS _ _ eq_refl).
    + now rewrite (proj1 (Hex eq_refl)) in Hne.
    + cbn [writes] in Hne. now rewrite HW in Hne.
    + now destruct (HT e).
  - intros j ->.
    destruct (Hconf j (inr tt) eq_refl)
      as [(_ & before & content & _ & _ & ->)|((e & He) & _)];
      [reflexivity | discriminate].
  - intros _ Hnc Hnp. destruct o as [j merge| |j|e]; trivial.
    + now destruct (Hnc j merge).
    + now destruct (Hnp j).
    + now destruct (HT e).
  - intros _ Hbegin.
    destruct (Scan_none_qualifies _ _ _ _ _ _ _ _ _ _ _ HS) as [-> ->].
    { intros i _. unfold qualifies_at. rewrite Hbegin. now destruct i. }
    auto.
  - intros g Hg Hfar. rewrite Hhd in Hg. injection Hg as <-.
    destruct (Scan_none_qualifies _ _ _ _ _ _ _ _ _ _ _ HS) as [-> ->].
    { intros i _. unfold qualifies_at.
      destruct (nth_error beginTrkPrts i) as [P|] eqn:HP; trivial.
      apply Hfar. eapply nth_error_In; eauto. }
    auto.
  - intros _ Hno Hlen.
    assert (Ho : o = Exhausted).
    { apply (Scan_all_rejected _ _ _ _ _ _ _ _ _ _ _ HS Hno).
      rewrite Nat.sub_0_r.
      etransitivity; [apply filter_length_le |]. now rewrite length_seq. }
    split; [exact Ho | exact (proj1 (Hex Ho))].
Qed.

End SearchProps.

(* ================================================================= *)
(** ** The example host meets what the distance theorems ask *)

Module SampleHostFacts.
Import JSNumber JSNumberFacts FloatSigns HaversineProps.
Local Open Scope float_scope.

Lemma sample_sin_is_odd : sin_is_odd SampleHost.host.
Proof.
  intros x. cbn [Math_sin SampleHost.host]. unfold SampleHost.sin.
  now rewrite mul_opp_opp, mul_opp_l.
Qed.

Lemma sample_sqrt_keeps_sign : sqrt_keeps_sign SampleHost.host.
Proof. intros x. apply sqrt_sign. Qed.

Lemma zero_div_positive (x : float) : (0 <? x) = true -> 0 / x = 0.
Proof.
  rewrite zero_ltb. intros H. apply Prim2SF_inj. rewrite div_spec.
  change (Prim2SF 0) with (S754_zero false).
  now destruct (Prim2SF x) as [[]|[]| |[] m e].
Qed.

Lemma sign_bit_cases (y : float) :
  SampleHost.sign_bit y = true -> (y <? 0) = true \/ y = (-0)%float.
Proof.
  unfold SampleHost.sign_bit. rewrite classify_spec, ltb_zero, neg_zero_spec.
  unfold SF64classify, SFclassify.
  destruct (Prim2SF y) as [[]|[]| |[] m e]; try discriminate; auto;
    destruct (Z.pos (digits2_pos m) =? prec)%Z; discriminate.
Qed.

Lemma sample_atan2_negative_only_below :
  atan2_negative_only_below SampleHost.host.
Proof.
  intros y x. cbn [Math_atan2 SampleHost.host]. unfold SampleHost.atan2.
  destruct (is_nan y || is_nan x)%bool; [discriminate |].
  destruct (SampleHost.sign_bit y) eqn:Es.
  - destruct (sign_bit_cases y Es) as [Hy| ->]; [auto |].
    intros H. right. split; [reflexivity |].
    destruct (0 <? x) eqn:Ex; trivial. exfalso. revert H.
    unfold SampleHost.atan2_upper. change (- -0) with 0%float.
    rewrite Ex, (zero_div_positive x Ex). discriminate.
  - unfold SampleHost.atan2_upper. now rewrite abs_not_negative.
Qed.

Lemma sample_zero_values : zero_values SampleHost.host.
Proof. repeat split; reflexivity. Qed.

End SampleHostFacts.

(* ================================================================= *)
(** ** How the merge and the search fail *)

Module FailureProps.
Import MergeGpx RetimerProps SearchProps.

(** The only error the retiming loop raises is the RangeError of
    [toISOString]. *)
Lemma forEach_retime_error (h : Host) (start : option Z) (toMerge : list TrkPrt) :
  forall (index : nat) (e : Error),
    forEach_retime h start index toMerge = inl e -> e = RangeError.
Proof.
  induction toMerge as [|p rest IH]; intros index e; cbn; [discriminate |].
  destruct (new_Date _) as [tv|]; cbn; [| now intros [= <-]].
  destruct (forEach_retime h start (S index) rest) as [e'|r] eqn:Er;
    [| discriminate].
  intros [= <-]. eauto.
Qed.

Lemma mergeFiles_succeeds_iff (h : Host) (endTrkPrts toMerge : list TrkPrt)
    (outputGpx : string) :
  snd (mergeFiles h endTrkPrts toMerge outputGpx) = inr tt <->
  exists firstTrkInEnd,
    hd_error endTrkPrts = Some firstTrkInEnd
    /\ (toMerge = []
        \/ exists T,
            Date_parse h (time firstTrkInEnd) = Some T
            /\ is_time_value (T - Z.of_nat (List.length toMerge) * 1000)
            /\ is_time_value (T - 1000)).
Proof.
  unfold mergeFiles. destruct endTrkPrts as [|f rest]; cbn [snd hd_error].
  { split; [discriminate | intros (g & Hg & _); discriminate]. }
  destruct (forEach_retime h _ 0 toMerge) as [e|retimed] eqn:E; cbn [snd].
  - split; [discriminate |].
    intros (g & [= <-] & [->|(T & HT & Hfirst & Hlast)]); [discriminate |].
    exfalso. rewrite HT in E. cbn [num_sub option_map] in E.
    destruct (forEach_retime_succeeds h
                (T - Z.of_nat (List.length toMerge) * 1000) toMerge 0)
      as [r Er]; [| congruence].
    intros k Hk. cbn [Nat.add].
    apply (is_time_value_between
             (T - Z.of_nat (List.length toMerge) * 1000) (T - 1000));
      trivial; lia.
  - split; [| reflexivity]. intros _. exists f. split; [reflexivity |].
    destruct toMerge as [|p l]; [now left | right].
    destruct (Date_parse h (time f)) as [T|] eqn:HT.
    2:{ cbn in E. discriminate. }
    exists T. split; [reflexivity |]. cbn [num_sub option_map] in E.
    destruct (forEach_retime_shape h _ _ _ _ E) as [_ Hn].
    split.
    + destruct (Hn 0%nat p eq_refl) as [_ H0]. cbn [Nat.add] in H0.
      now rewrite Z.add_0_r in H0.
    + destruct (nth_error (p :: l) (List.length l)) as [q|] eqn:Hq.
      2:{ apply nth_error_None in Hq. cbn in Hq. lia. }
      destruct (Hn _ q Hq) as [_ Hlast]. cbn [Nat.add] in Hlast.
      replace (T - 1000)%Z
        with (T - Z.of_nat (List.length (p :: l)) * 1000
              + Z.of_nat (List.length l) * 1000)%Z; [exact Hlast |].
      cbn [List.length]. lia.
Qed.

Lemma mergeFiles_failure (h : Host) (endTrkPrts toMerge : list TrkPrt)
    (outputGpx : string) (e : Error) :
  snd (mergeFiles h endTrkPrts toMerge outputGpx) = inl e ->
  fst (mergeFiles h endTrkPrts toMerge outputGpx) = [Info_merging outputGpx]
  /\ (e = TypeError <-> endTrkPrts = [])
  /\ (e = RangeError <-> endTrkPrts <> []).
Proof.
  unfold mergeFiles. destruct endTrkPrts as [|f rest]; cbn [fst snd].
  { intros [= <-]. repeat split; congruence. }
  destruct (forEach_retime h _ 0 toMerge) as [e'|retimed] eqn:E; cbn [fst snd];
    [| discriminate].
  intros [= <-]. apply forEach_retime_error in E. subst e'.
  repeat split; congruence.
Qed.

(** X2.  [mergeFiles] completes exactly when the end track has a first
    point and either there is nothing to retime or the time of that
    point parses to an instant [T] with [T - N] seconds and [T - 1]
    second (the first and the last instant to assign) in the range of
    [Date].  When it fails it has printed its opening line only and
    written nothing: with a TypeError when the end track is empty, with
    the RangeError of [toISOString] otherwise.  An empty prefix is
    written out as the end track alone, whatever its first time. *)
Theorem mergeFiles_completes_iff (h : Host) (endTrkPrts toMerge : list TrkPrt)
    (outputGpx : string) :
  (snd (mergeFiles h endTrkPrts toMerge outputGpx) = inr tt <->
   exists firstTrkInEnd,
     hd_error endTrkPrts = Some firstTrkInEnd
     /\ (toMerge = []
         \/ exists T,
             Date_parse h (time firstTrkInEnd) = Some T
             /\ is_time_value (T - Z.of_nat (List.length toMerge) * 1000)
             /\ is_time_value (T - 1000)))
  /\ (forall e,
        snd (mergeFiles h endTrkPrts toMerge outputGpx) = inl e ->
        fst (mergeFiles h endTrkPrts toMerge outputGpx) = [Info_merging outputGpx]
        /\ (e = TypeError <-> endTrkPrts = [])
        /\ (e = RangeError <-> endTrkPrts <> []))
  /\ (endTrkPrts <> [] ->
      mergeFiles h endTrkPrts [] outputGpx
      = ([Info_merging outputGpx; WriteFile outputGpx endTrkPrts;
          Info_written outputGpx], inr tt)).
Proof.
  split; [apply mergeFiles_succeeds_iff | split].
  - intros e. apply mergeFiles_failure.
  - intros Hne. destruct endTrkPrts as [|f rest]; [congruence | reflexivity].
Qed.

(** X1.  A run of [findMergePoint] ends by throwing outside of
    [mergeFiles] exactly when the end track has no point: a TypeError
    (the first point is [undefined]), raised before anything is printed
    or asked.  With an end point the scan itself never throws, the
    lookup of the next point included. *)
Theorem findMergePoint_throws_iff_no_end_point (h : Host)
    (beginTrkPrts endTrkPrts : list TrkPrt) (outputGpx : string)
    (thresholdMeters : float) (stdin : list string) :
  (forall e,
      snd (findMergePoint h beginTrkPrts endTrkPrts outputGpx thresholdMeters stdin)
      = Threw e
      <-> endTrkPrts = [] /\ e = TypeError)
  /\ (endTrkPrts = [] ->
      fst (findMergePoint h beginTrkPrts endTrkPrts outputGpx thresholdMeters stdin)
      = []).
Proof.
  split.
  - intros e. destruct endTrkPrts as [|f rest] eqn:Eend.
    + cbn. split; [intros [= <-]; auto | intros [_ ->]; reflexivity].
    + split; [| intros [H _]; discriminate].
      intros Ho. exfalso.
      destruct (findMergePoint_Scan h beginTrkPrts (f :: rest) outputGpx
                  thresholdMeters stdin _ _ f eq_refl
                  (surjective_pairing _)) as (later & _ & HS).
      exact (Scan_not_thrown _ _ _ _ _ _ _ _ _ _ _ HS e Ho).
  - intros ->. reflexivity.
Qed.

(** X3.  When the candidate at index [i] is confirmed, the merge
    completes exactly when the first time of the end track parses to an
    instant [T] with [T - (i + 1)] seconds and [T - 1] second in the
    range of [Date]; otherwise (the time is not a date, or lies at the
    edge of the range) [toISOString] throws a RangeError, the last line
    printed is the opening line of [mergeFiles], and no file is
    written. *)
Theorem confirmed_merge_completes_iff (h : Host)
    (beginTrkPrts endTrkPrts : list TrkPrt) (outputGpx : string)
    (thresholdMeters : float) (stdin : list string)
    (tr : list Event) (i : nat) (merge : Error + unit) (firstTrkInEnd : TrkPrt) :
  findMergePoint h beginTrkPrts endTrkPrts outputGpx thresholdMeters stdin
  = (tr, Confirmed i merge) ->
  hd_error endTrkPrts = Some firstTrkInEnd ->
  (merge = inr tt <->
   exists T,
     Date_parse h (time firstTrkInEnd) = Some T
     /\ is_time_value (T - Z.of_nat (i + 1) * 1000)
     /\ is_time_value (T - 1000))
  /\ (merge <> inr tt ->
      merge = inl RangeError
      /\ writes tr = []
      /\ exists before,
          tr = before ++ [Ask_mergeAtThisPoint; Info_merging outputGpx]).
Proof.
  intros Hrun Hhd.
  destruct (findMergePoint_Scan _ _ _ _ _ _ _ _ _ Hhd Hrun) as (later & -> & HS).
  assert (Hb := Scan_bounds _ _ _ _ _ _ _ _ _ _ _ HS). cbn [scanned] in Hb.
  destruct (Scan_writes _ _ _ _ _ _ _ _ _ _ _ HS) as (Hm & before & -> & Hw).
  assert (Hlen : List.length (firstn (S i) beginTrkPrts) = (i + 1)%nat)
    by (rewrite length_firstn; lia).
  assert (Hiff := mergeFiles_succeeds_iff h endTrkPrts
                    (firstn (S i) beginTrkPrts) outputGpx).
  rewrite <- Hm, Hlen in Hiff. split.
  - rewrite Hiff. split.
    + intros (g & Hg & [Hnil|H]).
      * apply (f_equal (@List.length _)) in Hnil. rewrite Hlen in Hnil.
        cbn in Hnil. lia.
      * rewrite Hhd in Hg. injection Hg as <-. exact H.
    + intros H. exists firstTrkInEnd. auto.
  - intros Hfail. destruct merge as [e|[]]; [| congruence].
    destruct (mergeFiles_failure h endTrkPrts (firstn (S i) beginTrkPrts)
                outputGpx e (eq_sym Hm)) as (Htr & _ & He).
    assert (e = RangeError) as ->.
    { apply He. destruct endTrkPrts; discriminate. }
    split; [reflexivity |]. rewrite Htr. split.
    + cbn [writes]. rewrite writes_app, Hw. reflexivity.
    + exists (Info_pointToMergeWith firstTrkInEnd :: before). reflexivity.
Qed.

End FailureProps.

(* ================================================================= *)
(** ** Thresholds and coordinates that are not numbers *)

Module NaNFacts.
Import JSNumber JSNumberFacts FloatSigns.
Local Open Scope float_scope.

Lemma nan_eq x : is_nan x = true -> x = nan.
Proof.
  rewrite is_nan_spec. intros H. apply Prim2SF_inj.
  now destruct (Prim2SF x).
Qed.

Lemma sub_nan_l x : nan - x = nan.
Proof.
  apply Prim2SF_inj. rewrite sub_spec. change (Prim2SF nan) with S754_nan.
  now destruct (Prim2SF x).
Qed.

Lemma sub_nan_r x : x - nan = nan.
Proof.
  apply Prim2SF_inj. rewrite sub_spec. change (Prim2SF nan) with S754_nan.
  now destruct (Prim2SF x) as [[]|[]| |[] m e].
Qed.

Lemma add_nan_l x : nan + x = nan.
Proof.
  apply Prim2SF_inj. rewrite add_spec. change (Prim2SF nan) with S754_nan.
  now destruct (Prim2SF x).
Qed.

Lemma add_nan_r x : x + nan = nan.
Proof.
  apply Prim2SF_inj. rewrite add_spec. change (Prim2SF nan) with S754_nan.
  now destruct (Prim2SF x) as [[]|[]| |[] m e].
Qed.

Lemma mul_nan_l x : nan * x = nan.
Proof.
  apply Prim2SF_inj. rewrite mul_spec. change (Prim2SF nan) with S754_nan.
  now destruct (Prim2SF x).
Qed.

Lemma mul_nan_r x : x * nan = nan.
Proof. now rewrite mul_comm, mul_nan_l. Qed.

Lemma div_nan_l x : nan / x = nan.
Proof.
  apply Prim2SF_inj. rewrite div_spec. change (Prim2SF nan) with S754_nan.
  now destruct (Prim2SF x).
Qed.

Lemma ltb_not_leb x y : (x <? y) = true -> (y <=? x) = false.
Proof.
  intros H. destruct (y <=? x) eqn:E; trivial. exfalso.
  apply ltb_key in H. apply leb_key in E.
  destruct H as (_ & _ & H), E as (_ & _ & E).
  rewrite key_compare_antisym, H in E. now apply E.
Qed.

(** Below a negative number there are only negative numbers. *)
Lemma leb_negative x y : (x <=? y) = true -> (y <? 0) = true -> (x <? 0) = true.
Proof.
  intros Hxy Hy. destruct (x <? 0) eqn:E; trivial. exfalso.
  destruct (leb_not_nan _ _ Hxy) as [Nx Ny].
  assert (H0 : (0 <=? x) = true) by (apply not_ltb_leb; trivial).
  assert (H1 := leb_trans _ _ _ H0 Hxy).
  apply ltb_not_leb in Hy. congruence.
Qed.

End NaNFacts.

Module ThresholdProps.
Import JSNumber JSNumberFacts FloatSigns NaNFacts MergeGpx HaversineProps SearchProps.
Local Open Scope float_scope.

(** What the theorems on unparsed coordinates ask of the engine's
    [Math]: ECMAScript prescribes NaN for each of these calls. *)
Definition nan_propagates (h : Host) : Prop :=
  Math_sin h nan = nan
  /\ Math_sqrt h nan = nan
  /\ forall x, Math_atan2 h nan x = nan.

(** A NaN coordinate on either side makes the distance NaN. *)
Lemma haversineDist_nan (h : Host) (a b : LatLng) :
  nan_propagates h ->
  (is_nan (lat a) || is_nan (lng a) || is_nan (lat b) || is_nan (lng b))%bool = true ->
  haversineDist h a b = nan.
Proof.
  intros (Hsin & Hsqrt & Hatan) H. unfold haversineDist. cbv zeta.
  assert (Hlat : (lat b - lat a) * Math_PI / 180 / 2 = nan
                 \/ (lng b - lng a) * Math_PI / 180 / 2 = nan).
  { destruct (is_nan (lat a)) eqn:E1;
      [left; rewrite (nan_eq _ E1), sub_nan_r, mul_nan_l, !div_nan_l; reflexivity |].
    destruct (is_nan (lng a)) eqn:E2;
      [right; rewrite (nan_eq _ E2), sub_nan_r, mul_nan_l, !div_nan_l; reflexivity |].
    destruct (is_nan (lat b)) eqn:E3;
      [left; rewrite (nan_eq _ E3), sub_nan_l, mul_nan_l, !div_nan_l; reflexivity |].
    destruct (is_nan (lng b)) eqn:E4; [| discriminate].
    right. now rewrite (nan_eq _ E4), sub_nan_l, mul_nan_l, !div_nan_l. }
  destruct Hlat as [-> | ->]; rewrite Hsin.
  - now rewrite mul_nan_l, add_nan_l, Hsqrt, Hatan, !mul_nan_r.
  - now rewrite !mul_nan_r, add_nan_r, Hsqrt, Hatan, !mul_nan_r.
Qed.

(** X4.  With a threshold that is NaN, or negative on an engine whose
    square root and arc tangent have the signs ECMAScript prescribes, no
    begin point is within the threshold: the scan prints the point to
    merge with and the closing message, asks nothing and writes nothing,
    whatever the tracks and the answers. *)
Theorem threshold_rejecting_everything (h : Host)
    (beginTrkPrts : list TrkPrt) (firstTrkInEnd : TrkPrt) (rest : list TrkPrt)
    (outputGpx : string) (thresholdMeters : float) (stdin : list string) :
  is_nan thresholdMeters = true
  \/ ((thresholdMeters <? 0) = true
      /\ sqrt_keeps_sign h /\ atan2_negative_only_below h /\ zero_values h) ->
  findMergePoint h beginTrkPrts (firstTrkInEnd :: rest) outputGpx
    thresholdMeters stdin
  = ([Info_pointToMergeWith firstTrkInEnd; Info_noMergePoint], Exhausted).
Proof.
  intros Hthr.
  destruct (findMergePoint h beginTrkPrts (firstTrkInEnd :: rest) outputGpx
              thresholdMeters stdin) as [tr o] eqn:Hrun.
  destruct (findMergePoint_Scan h beginTrkPrts (firstTrkInEnd :: rest) _ _ _ _ _
              firstTrkInEnd eq_refl Hrun) as (later & -> & HS).
  destruct (Scan_none_qualifies _ _ _ _ _ _ _ _ _ _ _ HS) as [-> ->];
    [| reflexivity].
  intros i _. unfold qualifies_at.
  destruct (nth_error beginTrkPrts i) as [P|]; trivial.
  unfold qualifies, dist_of.
  destruct Hthr as [Hnan|(Hneg & Hsqrt & Hatan & Hzero)].
  - now apply leb_nan_r.
  - destruct (haversineDist h _ _ <=? thresholdMeters) eqn:E; trivial.
    apply leb_negative with (1 := E) in Hneg.
    now rewrite haversineDist_never_negative in Hneg.
Qed.

(** X5.  On an engine whose [Math] returns NaN on NaN, a begin point
    whose latitude or longitude does not parse is never offered, and an
    end track whose first point has such a coordinate leaves no
    candidate at all. *)
Theorem unparsed_coordinates_never_offered (h : Host)
    (beginTrkPrts endTrkPrts : list TrkPrt) (outputGpx : string)
    (thresholdMeters : float) (stdin : list string)
    (tr : list Event) (o : Outcome) (firstTrkInEnd : TrkPrt) :
  nan_propagates h ->
  hd_error endTrkPrts = Some firstTrkInEnd ->
  findMergePoint h beginTrkPrts endTrkPrts outputGpx thresholdMeters stdin
  = (tr, o) ->
  (forall c, In c (candidates tr) ->
     is_nan (Number_parseFloat h (attr_lat (cand_trkPrt c))) = false
     /\ is_nan (Number_parseFloat h (attr_lon (cand_trkPrt c))) = false)
  /\ ((is_nan (Number_parseFloat h (attr_lat firstTrkInEnd))
       || is_nan (Number_parseFloat h (attr_lon firstTrkInEnd)))%bool = true ->
      tr = [Info_pointToMergeWith firstTrkInEnd; Info_noMergePoint]
      /\ o = Exhausted).
Proof.
  intros Hnan Hhd Hrun.
  destruct (findMergePoint_Scan _ _ _ _ _ _ _ _ _ Hhd Hrun) as (later & -> & HS).
  split.
  - intros c Hc. cbn [candidates] in Hc.
    destruct (Scan_reports _ _ _ _ _ _ _ _ _ _ _ HS c Hc) as (_ & _ & Hq & _).
    apply qualifies_not_nan in Hq. unfold dist_of in Hq.
    destruct (is_nan (Number_parseFloat h (attr_lat (cand_trkPrt c)))) eqn:E1.
    { rewrite (haversineDist_nan h _ _ Hnan) in Hq; [discriminate |].
      cbn [fromTrkPrt LatLng_new lat lng]. rewrite E1.
      now rewrite !orb_true_r. }
    destruct (is_nan (Number_parseFloat h (attr_lon (cand_trkPrt c)))) eqn:E2;
      auto.
    rewrite (haversineDist_nan h _ _ Hnan) in Hq; [discriminate |].
    cbn [fromTrkPrt LatLng_new lat lng]. rewrite E2.
    now rewrite !orb_true_r.
  - intros HE.
    destruct (Scan_none_qualifies _ _ _ _ _ _ _ _ _ _ _ HS) as [-> ->]; auto.
    intros i _. unfold qualifies_at.
    destruct (nth_error beginTrkPrts i) as [P|]; trivial.
    unfold qualifies, dist_of. apply leb_nan_l.
    rewrite (haversineDist_nan h _ _ Hnan); [reflexivity |].
    cbn [fromTrkPrt LatLng_new lat lng].
    apply orb_true_iff in HE. destruct HE as [-> | ->]; cbn;
      now rewrite ?orb_true_r.
Qed.

Lemma filter_length_mono (f g : nat -> bool) (l : list nat) :
  (forall x, f x = true -> g x = true) ->
  (List.length (filter f l) <= List.length (filter g l))%nat.
Proof.
  intros Hfg. induction l as [|x l IH]; cbn; [lia |].
  destruct (f x) eqn:Ef.
  - rewrite (Hfg x Ef). cbn. lia.
  - destruct (g x); cbn; lia.
Qed.

(** X6.  Raising the threshold never loses a candidate: in runs where
    every question is refused (and there are answers enough), the
    indices offered under a threshold are all offered under any larger
    one, and no fewer questions are asked. *)
Theorem larger_threshold_keeps_candidates (h : Host)
    (beginTrkPrts endTrkPrts : list TrkPrt) (outputGpx : string)
    (thresholdMeters thresholdMeters' : float) (stdin : list string)
    (firstTrkInEnd : TrkPrt) :
  hd_error endTrkPrts = Some firstTrkInEnd ->
  (thresholdMeters <=? thresholdMeters') = true ->
  (forall answer, In answer stdin -> userConfirm answer = false) ->
  (List.length beginTrkPrts <= List.length stdin)%nat ->
  let run := findMergePoint h beginTrkPrts endTrkPrts outputGpx
               thresholdMeters stdin in
  let run' := findMergePoint h beginTrkPrts endTrkPrts outputGpx
                thresholdMeters' stdin in
  snd run = Exhausted
  /\ snd run' = Exhausted
  /\ incl (map cand_index (candidates (fst run)))
          (map cand_index (candidates (fst run')))
  /\ (questions (fst run) <= questions (fst run'))%nat.
Proof.
  intros Hhd Hle Hno Hlen run run'.
  destruct (findMergePoint_Scan h beginTrkPrts endTrkPrts outputGpx
              thresholdMeters stdin _ _ firstTrkInEnd Hhd (surjective_pairing _))
    as (later & E1 & HS1).
  destruct (findMergePoint_Scan h beginTrkPrts endTrkPrts outputGpx
              thresholdMeters' stdin _ _ firstTrkInEnd Hhd (surjective_pairing _))
    as (later' & E2 & HS2).
  fold run in E1, HS1. fold run' in E2, HS2.
  assert (Hfew : forall thr,
             (List.length
                (filter (qualifies_at h beginTrkPrts thr (fromTrkPrt h firstTrkInEnd))
                   (seq 0 (List.length beginTrkPrts - 0)))
              <= List.length stdin)%nat).
  { intros thr. rewrite Nat.sub_0_r.
    etransitivity; [apply filter_length_le |]. now rewrite length_seq. }
  assert (Ho1 := Scan_all_rejected _ _ _ _ _ _ _ _ _ _ _ HS1 Hno (Hfew _)).
  assert (Ho2 := Scan_all_rejected _ _ _ _ _ _ _ _ _ _ _ HS2 Hno (Hfew _)).
  destruct (Scan_offered _ _ _ _ _ _ _ _ _ _ _ HS1) as [Hoff1 Hq1].
  destruct (Scan_offered _ _ _ _ _ _ _ _ _ _ _ HS2) as [Hoff2 Hq2].
  rewrite Ho1 in Hoff1. rewrite Ho2 in Hoff2. cbn [scanned] in Hoff1, Hoff2.
  assert (Hmono : forall i,
             qualifies_at h beginTrkPrts thresholdMeters
               (fromTrkPrt h firstTrkInEnd) i = true ->
             qualifies_at h beginTrkPrts thresholdMeters'
               (fromTrkPrt h firstTrkInEnd) i = true).
  { intros i. unfold qualifies_at.
    destruct (nth_error beginTrkPrts i) as [P|]; [| discriminate].
    unfold qualifies. intros Hd. exact (leb_trans _ _ _ Hd Hle). }
  rewrite E1, E2. cbn [candidates questions].
  split; [exact Ho1 |]. split; [exact Ho2 |]. split.
  - rewrite Hoff1, Hoff2. intros i Hi. apply filter_In in Hi.
    apply filter_In. split; [tauto |]. apply Hmono. tauto.
  - rewrite Hq1, Hq2, <- (length_map cand_index (candidates later)),
      <- (length_map cand_index (candidates later')), Hoff1, Hoff2.
    now apply filter_length_mono.
Qed.

End ThresholdProps.

(* ================================================================= *)
(** ** The answers and the running minimum *)

Module AnswerProps.
Import JSNumber JSNumberFacts MergeGpx RetimerProps SearchProps.

(** Position of the first answer that [userConfirm] accepts. *)
Fixpoint first_yes (stdin : list string) : option nat :=
  match stdin with
  | [] => None
  | answer :: stdin' =>
      if userConfirm answer then Some 0%nat else option_map S (first_yes stdin')
  end.

Section Answers.
Variable h : Host.
Variables beginTrkPrts endTrkPrts : list TrkPrt.
Variable outputGpx : string.
Variable thresholdMeters : float.
Variable firstEndLatLng : LatLng.

(** Indices from [index] on of the begin points within the threshold. *)
Definition qualifying_from (index : nat) : list nat :=
  filter (qualifies_at h beginTrkPrts thresholdMeters firstEndLatLng)
    (seq index (List.length beginTrkPrts - index)).

Lemma qualifying_from_step (index : nat) (trkPrt : TrkPrt) :
  nth_error beginTrkPrts index = Some trkPrt ->
  qualifying_from index
  = if qualifies h thresholdMeters firstEndLatLng trkPrt
    then index :: qualifying_from (S index)
    else qualifying_from (S index).
Proof.
  intros Hp. unfold qualifying_from.
  assert (index < List.length beginTrkPrts)%nat
    by (apply nth_error_Some; congruence).
  replace (List.length beginTrkPrts - index)%nat
    with (S (List.length beginTrkPrts - S index)) by lia.
  cbn [seq filter]. unfold qualifies_at at 1. now rewrite Hp.
Qed.

Lemma Scan_first_yes index minDist stdin tr o :
  Scan h beginTrkPrts endTrkPrts outputGpx thresholdMeters firstEndLatLng
    index minDist stdin tr o ->
  match first_yes stdin with
  | Some k =>
      match nth_error (qualifying_from index) k with
      | Some j => (exists merge, o = Confirmed j merge) /\ questions tr = S k
      | None =>
          o = Exhausted /\ questions tr = List.length (qualifying_from index)
      end
  | None =>
      match nth_error (qualifying_from index) (List.length stdin) with
      | Some j => o = Pending j /\ questions tr = S (List.length stdin)
      | None =>
          o = Exhausted /\ questions tr = List.length (qualifying_from index)
      end
  end.
Proof.
  induction 1 as [m s|i p m s tr o Hp Hq HS IH|i p m Hp Hq
                  |i p m a s Hp Hq Ha|i p m a s tr o Hp Hq Ha HS IH].
  - unfold qualifying_from. rewrite Nat.sub_diag. cbn [seq filter].
    destruct (first_yes s) as [k|].
    + now destruct k.
    + now destruct (List.length s).
  - now rewrite (qualifying_from_step _ _ Hp), Hq.
  - rewrite (qualifying_from_step _ _ Hp), Hq. cbn. auto.
  - rewrite (qualifying_from_step _ _ Hp), Hq. cbn [first_yes]. rewrite Ha.
    cbn [nth_error questions].
    rewrite (proj2 (mergeFiles_candidates h endTrkPrts outputGpx _)).
    split; eauto.
  - rewrite (qualifying_from_step _ _ Hp), Hq. cbn [first_yes]. rewrite Ha.
    cbn [questions List.length].
    destruct (first_yes s) as [k|]; cbn [option_map nth_error].
    + destruct (nth_error (qualifying_from (S i)) k) as [j|];
        destruct IH as [IH1 IH2]; split; trivial; now rewrite IH2.
    + destruct (nth_error (qualifying_from (S i)) (List.length s)) as [j|];
        destruct IH as [IH1 IH2]; split; trivial; now rewrite IH2.
Qed.

End Answers.

(** X7.  The outcome in closed form.  Let [Q] be the indices, in order, of
    the begin points within the threshold.  The answers are read one
    per question, and the scan stops at the first one [userConfirm]
    accepts: if that is answer number [k] (from 0) and [Q] has an entry
    [k], the merge happens at [Q[k]] after [k + 1] questions; if the
    answers run out first, the question about the next entry of [Q]
    stays open; otherwise every entry of [Q] was asked about and
    refused, and the scan runs off the end. *)
Theorem outcome_by_first_accepted_answer (h : Host)
    (beginTrkPrts endTrkPrts : list TrkPrt) (outputGpx : string)
    (thresholdMeters : float) (stdin : list string)
    (tr : list Event) (o : Outcome) (firstTrkInEnd : TrkPrt) :
  hd_error endTrkPrts = Some firstTrkInEnd ->
  findMergePoint h beginTrkPrts endTrkPrts outputGpx thresholdMeters stdin
  = (tr, o) ->
  let Q :=
    filter (fun i =>
              match nth_error beginTrkPrts i with
              | Some P =>
                  (haversineDist h (fromTrkPrt h firstTrkInEnd) (fromTrkPrt h P)
                   <=? thresholdMeters)%float
              | None => false
              end)
      (seq 0 (List.length beginTrkPrts)) in
  match first_yes stdin with
  | Some k =>
      match nth_error Q k with
      | Some j => (exists merge, o = Confirmed j merge) /\ questions tr = S k
      | None => o = Exhausted /\ questions tr = List.length Q
      end
  | None =>
      match nth_error Q (List.length stdin) with
      | Some j => o = Pending j /\ questions tr = S (List.length stdin)
      | None => o = Exhausted /\ questions tr = List.length Q
      end
  end.
Proof.
  intros Hhd Hrun Q.
  destruct (findMergePoint_Scan _ _ _ _ _ _ _ _ _ Hhd Hrun) as (later & -> & HS).
  apply Scan_first_yes in HS. unfold qualifying_from in HS.
  rewrite Nat.sub_0_r in HS. cbn [questions]. exact HS.
Qed.

End AnswerProps.

Module MinimumProps.
Import JSNumber JSNumberFacts MergeGpx RetimerProps SearchProps.
Local Open Scope float_scope.

Section Minimum.
Variable h : Host.
Variables beginTrkPrts endTrkPrts : list TrkPrt.
Variable outputGpx : string.
Variable thresholdMeters : float.
Variable firstEndLatLng : LatLng.

(** The running minimum printed with a report stands for the minimum
    over the points up to and including the reported one. *)
Lemma Scan_min_tracks index minDist stdin tr o :
  Scan h beginTrkPrts endTrkPrts outputGpx thresholdMeters firstEndLatLng
    index minDist stdin tr o ->
  tracks_min h beginTrkPrts thresholdMeters firstEndLatLng minDist index ->
  forall c, In c (candidates tr) ->
    tracks_min h beginTrkPrts thresholdMeters firstEndLatLng
      (cand_minDist c) (S (cand_index c)).
Proof.
  induction 1 as [m s|i p m s tr o Hp Hq HS IH|i p m Hp Hq
                  |i p m a s Hp Hq Ha|i p m a s tr o Hp Hq Ha HS IH];
    intros Hinv c Hc; cbn [candidates] in Hc.
  - destruct Hc.
  - apply IH; trivial. destruct Hinv as [Hn Hcmp]. split; trivial.
    intros x. now rewrite (running_min_S _ _ _ _ _ _ Hp), Hq.
  - destruct Hc as [<-|[]]. now apply tracks_min_update.
  - rewrite (proj1 (mergeFiles_candidates _ _ _ _)) in Hc.
    destruct Hc as [<-|[]]. now apply tracks_min_update.
  - destruct Hc as [<-|Hc]; [now apply tracks_min_update |].
    apply IH; trivial. now apply tracks_min_update.
Qed.

(** The running minimum only shrinks as the scan advances. *)
Lemma running_min_antitone (i j : nat) (x : float) :
  (i <= j)%nat ->
  (x <=? running_min h beginTrkPrts thresholdMeters firstEndLatLng j) = true ->
  (x <=? running_min h beginTrkPrts thresholdMeters firstEndLatLng i) = true.
Proof.
  intros Hij. rewrite !leb_running_min. intros [Hn Hall]. split; trivial.
  intros k q Hk. apply Hall. lia.
Qed.

Lemma filter_seq_head (f : nat -> bool) (n a x : nat) (l : list nat) :
  filter f (seq a n) = x :: l ->
  forall j, (a <= j < x)%nat -> f j = false.
Proof.
  revert a. induction n as [|n IH]; intros a; cbn [seq filter]; [discriminate |].
  destruct (f a) eqn:Ea.
  - intros [= <- _] j Hj. lia.
  - intros Hf j Hj. destruct (Nat.eq_dec j a) as [->|Hne]; trivial.
    apply (IH (S a) Hf). 
    assert (a < x)%nat by lia.
    assert (Hin : In x (filter f (seq (S a) n))) by (rewrite Hf; now left).
    apply filter_In in Hin. destruct Hin as [Hin _]. apply in_seq in Hin. lia.
Qed.

End Minimum.

(** X8.  The distance printed with a report is the running minimum,
    not the distance of the reported point: it is the minimum over the
    points within the threshold up to and including that point, so it is
    at most the point's own distance, strictly smaller when the point is
    not flagged as the minimum, and it never grows from one report to a
    later one.  The first report of a run is always flagged. *)
Theorem printed_distance_is_running_minimum (h : Host)
    (beginTrkPrts endTrkPrts : list TrkPrt) (outputGpx : string)
    (thresholdMeters : float) (stdin : list string)
    (tr : list Event) (o : Outcome) (firstTrkInEnd : TrkPrt) :
  hd_error endTrkPrts = Some firstTrkInEnd ->
  findMergePoint h beginTrkPrts endTrkPrts outputGpx thresholdMeters stdin
  = (tr, o) ->
  let E := fromTrkPrt h firstTrkInEnd in
  (forall c, In c (candidates tr) ->
     let d := haversineDist h E (fromTrkPrt h (cand_trkPrt c)) in
     (forall x,
         (x <=? cand_minDist c)
         = (x <=? running_min h beginTrkPrts thresholdMeters E (S (cand_index c))))
     /\ (cand_minDist c <=? d) = true
     /\ (cand_isMinDist c = false -> (cand_minDist c <? d) = true))
  /\ (forall c later, candidates tr = c :: later -> cand_isMinDist c = true)
  /\ (forall c c',
        In c (candidates tr) -> In c' (candidates tr) ->
        (cand_index c <= cand_index c')%nat ->
        (cand_minDist c' <=? cand_minDist c) = true).
Proof.
  intros Hhd Hrun E.
  destruct (findMergePoint_Scan _ _ _ _ _ _ _ _ _ Hhd Hrun) as (later & -> & HS).
  fold E in HS. cbn [candidates].
  assert (Htr := Scan_min_tracks _ _ _ _ _ _ _ _ _ _ _ HS
                   (tracks_min_start _ _ _ _)).
  assert (Hrep := Scan_reports _ _ _ _ _ _ _ _ _ _ _ HS).
  assert (Hflag := Scan_min_flag _ _ _ _ _ _ _ _ _ _ _ HS
                     (tracks_min_start _ _ _ _)).
  assert (Hself : forall c, In c (candidates later) ->
            (cand_minDist c
             <=? running_min h beginTrkPrts thresholdMeters E (S (cand_index c)))
            = true).
  { intros c Hc. destruct (Htr c Hc) as [Hn Hcmp]. rewrite <- Hcmp.
    now apply leb_refl. }
  split; [| split].
  - intros c Hc.
    set (d := haversineDist h E (fromTrkPrt h (cand_trkPrt c))).
    destruct (Htr c Hc) as [Hn Hcmp].
    destruct (Hrep c Hc) as (_ & Hnth & Hq & _).
    assert (Hm := Hself c Hc).
    rewrite (running_min_S _ _ _ _ _ _ Hnth), Hq, leb_Math_min in Hm.
    apply andb_true_iff in Hm. destruct Hm as [Hprev Hd].
    split; [exact Hcmp |]. split; [exact Hd |].
    intros Hf. destruct (cand_minDist c <? d) eqn:Elt; trivial. exfalso.
    assert (Hdn := qualifies_not_nan _ _ _ _ Hq).
    assert (Hdm : (d <=? cand_minDist c) = true) by (apply not_ltb_leb; trivial).
    rewrite (Hflag c Hc) in Hf.
    assert (Hd' := leb_trans _ _ _ Hdm Hprev).
    unfold SearchProps.dist_of in Hf. fold d in Hf. congruence.
  - intros c rest Hcs.
    assert (Hc : In c (candidates later)) by (rewrite Hcs; now left).
    rewrite (Hflag c Hc). apply leb_running_min.
    destruct (Hrep c Hc) as (_ & Hnth & Hq & _).
    split; [now apply qualifies_not_nan in Hq |].
    intros j P Hj HP HqP. exfalso.
    destruct (Scan_offered _ _ _ _ _ _ _ _ _ _ _ HS) as [Hoff _].
    rewrite Hcs in Hoff. cbn [map] in Hoff. symmetry in Hoff.
    assert (Hno := filter_seq_head _ _ _ _ _ Hoff j ltac:(lia)).
    unfold qualifies_at in Hno. rewrite HP in Hno. congruence.
  - intros c c' Hc Hc' Hle.
    destruct (Htr c Hc) as [_ Hcmp]. rewrite Hcmp.
    apply (running_min_antitone h beginTrkPrts thresholdMeters E
             (S (cand_index c)) (S (cand_index c'))); [lia |].
    now apply Hself.
Qed.

End MinimumProps.

(* ================================================================= *)
(** ** What the begin track's times do not influence *)

Module IndependenceProps.
Import JSNumber JSNumberFacts MergeGpx RetimerProps SearchProps.

(** Two points that agree on everything but [time]. *)
Definition same_but_time (p q : TrkPrt) : Prop := q = set_time p (time q).

(** A report with the time stamps of its points blanked. *)
Definition blank_times (c : Candidate) : Candidate :=
  {| cand_index := cand_index c;
     cand_trkPrt := set_time (cand_trkPrt c) EmptyString;
     cand_nextPrt := option_map (fun p => set_time p EmptyString) (cand_nextPrt c);
     cand_minDist := cand_minDist c;
     cand_inBetween := cand_inBetween c;
     cand_isMinDist := cand_isMinDist c |}.

Lemma same_but_time_blank (p q : TrkPrt) :
  same_but_time p q -> set_time p EmptyString = set_time q EmptyString.
Proof. intros ->. reflexivity. Qed.

Lemma same_but_time_fromTrkPrt (h : Host) (p q : TrkPrt) :
  same_but_time p q -> fromTrkPrt h p = fromTrkPrt h q.
Proof. intros ->. reflexivity. Qed.

Lemma forEach_retime_same_but_time (h : Host) (start : option Z)
    (l1 l2 : list TrkPrt) :
  Forall2 same_but_time l1 l2 ->
  forall index, forEach_retime h start index l1 = forEach_retime h start index l2.
Proof.
  induction 1 as [|p q l1 l2 Hpq HF IH]; intros index; cbn; [reflexivity |].
  destruct (toISOString h _) as [e|iso]; [reflexivity |].
  rewrite (IH (S index)). rewrite Hpq. reflexivity.
Qed.

Lemma mergeFiles_same_but_time (h : Host) (endTrkPrts l1 l2 : list TrkPrt)
    (outputGpx : string) :
  Forall2 same_but_time l1 l2 ->
  mergeFiles h endTrkPrts l1 outputGpx = mergeFiles h endTrkPrts l2 outputGpx.
Proof.
  intros HF. unfold mergeFiles. destruct endTrkPrts as [|f rest]; trivial.
  now rewrite (Forall2_length HF), (forEach_retime_same_but_time h _ _ _ HF).
Qed.

(** X10.  [mergeFiles] never reads the times of the points it retimes:
    two prefixes that agree on everything but [time] give the same
    events and the same file; so handing it the prefix it has already
    retimed writes the same file again. *)
Theorem mergeFiles_ignores_prefix_times (h : Host)
    (endTrkPrts toMerge toMerge' : list TrkPrt) (outputGpx : string) :
  Forall2 same_but_time toMerge toMerge' ->
  mergeFiles h endTrkPrts toMerge outputGpx
  = mergeFiles h endTrkPrts toMerge' outputGpx
  /\ (forall retimed,
        writes (fst (mergeFiles h endTrkPrts toMerge outputGpx))
        = [(outputGpx, retimed ++ endTrkPrts)] ->
        mergeFiles h endTrkPrts retimed outputGpx
        = mergeFiles h endTrkPrts toMerge outputGpx).
Proof.
  intros HF. split; [now apply mergeFiles_same_but_time |].
  intros retimed Hw. symmetry. apply mergeFiles_same_but_time.
  unfold mergeFiles in Hw. destruct endTrkPrts as [|f rest]; [discriminate |].
  destruct (forEach_retime h _ 0 toMerge) as [e|r] eqn:E; [discriminate |].
  cbn in Hw. injection Hw as Hw. apply app_inv_tail in Hw. subst r.
  exact (forEach_retime_frame h _ _ _ _ E).
Qed.

Lemma same_but_time_lookup (l1 l2 : list TrkPrt) (i : nat) (p q : TrkPrt) :
  Forall2 same_but_time l1 l2 ->
  nth_error l1 i = Some p -> nth_error l2 i = Some q -> same_but_time p q.
Proof.
  intros HF. revert i. induction HF as [|x y l1 l2 Hxy HF IH]; intros [|i]; cbn;
    try discriminate.
  - now intros [= <-] [= <-].
  - apply IH.
Qed.

Lemma same_but_time_next (l1 l2 : list TrkPrt) (i : nat) :
  Forall2 same_but_time l1 l2 ->
  option_map (fun p => set_time p EmptyString) (nth_error l1 i)
  = option_map (fun p => set_time p EmptyString) (nth_error l2 i).
Proof.
  intros HF. revert i. induction HF as [|x y l1 l2 Hxy HF IH]; intros [|i]; cbn;
    trivial.
  now rewrite (same_but_time_blank _ _ Hxy).
Qed.

Lemma same_but_time_firstn (l1 l2 : list TrkPrt) (n : nat) :
  Forall2 same_but_time l1 l2 ->
  Forall2 same_but_time (firstn n l1) (firstn n l2).
Proof.
  intros HF. revert n. induction HF as [|x y l1 l2 Hxy HF IH]; intros [|n]; cbn;
    constructor; auto.
Qed.

Section TwoBeginTracks.
Variable h : Host.
Variables b1 b2 endTrkPrts : list TrkPrt.
Variable outputGpx : string.
Variable thresholdMeters : float.
Variable firstEndLatLng : LatLng.
Hypothesis Hsame : Forall2 same_but_time b1 b2.

Lemma report_at_same_but_time (i : nat) (p q : TrkPrt) (minDist : float) :
  nth_error b1 i = Some p -> nth_error b2 i = Some q ->
  blank_times (report_at h b1 firstEndLatLng i p minDist)
  = blank_times (report_at h b2 firstEndLatLng i q minDist).
Proof.
  intros Hp Hq. assert (Hpq := same_but_time_lookup _ _ _ _ _ Hsame Hp Hq).
  unfold blank_times, report_at, dist_of.
  cbn [cand_index cand_trkPrt cand_nextPrt cand_minDist cand_inBetween
       cand_isMinDist].
  rewrite <- (same_but_time_fromTrkPrt h _ _ Hpq).
  rewrite (same_but_time_blank _ _ Hpq), (same_but_time_next _ _ (S i) Hsame).
  f_equal.
  destruct (nth_error b1 (S i)) as [n1|] eqn:E1,
           (nth_error b2 (S i)) as [n2|] eqn:E2; trivial.
  - now rewrite (same_but_time_fromTrkPrt h _ _ (same_but_time_lookup _ _ _ _ _ Hsame E1 E2)).
  - apply nth_error_None in E2. rewrite <- (Forall2_length Hsame) in E2.
    apply nth_error_None in E2. congruence.
  - apply nth_error_None in E1. rewrite (Forall2_length Hsame) in E1.
    apply nth_error_None in E1. congruence.
Qed.

Lemma Scan_same_but_time index minDist stdin tr1 o1 :
  Scan h b1 endTrkPrts outputGpx thresholdMeters firstEndLatLng
    index minDist stdin tr1 o1 ->
  forall tr2 o2,
    Scan h b2 endTrkPrts outputGpx thresholdMeters firstEndLatLng
      index minDist stdin tr2 o2 ->
    o1 = o2
    /\ writes tr1 = writes tr2
    /\ questions tr1 = questions tr2
    /\ map blank_times (candidates tr1) = map blank_times (candidates tr2).
Proof.
  assert (Hlen := Forall2_length Hsame).
  assert (Hq : forall i p q,
             nth_error b1 i = Some p -> nth_error b2 i = Some q ->
             qualifies h thresholdMeters firstEndLatLng p
             = qualifies h thresholdMeters firstEndLatLng q).
  { intros i p q Hp Hq. unfold qualifies, dist_of.
    now rewrite (same_but_time_fromTrkPrt h _ _ (same_but_time_lookup _ _ _ _ _ Hsame Hp Hq)). }
  assert (Hend : forall q, nth_error b2 (List.length b1) = Some q -> False).
  { intros q Hq'. rewrite Hlen in Hq'.
    assert (nth_error b2 (List.length b2) = None) by now apply nth_error_None.
    congruence. }
  induction 1 as [m s|i p m s tr o Hp Hqp HS IH|i p m Hp Hqp
                  |i p m a s Hp Hqp Ha|i p m a s tr o Hp Hqp Ha HS IH];
    intros tr2 o2 H2.
  - inversion H2; subst; try (exfalso; eapply Hend; eauto; fail).
    repeat split.
  - inversion H2; subst;
      try (match goal with
           | Hp2 : nth_error b2 i = Some ?q |- _ =>
               rewrite (Hq _ _ _ Hp Hp2) in Hqp; congruence
           end).
    + exfalso. rewrite <- Hlen in Hp.
      assert (nth_error b1 (List.length b1) = None) by now apply nth_error_None.
      congruence.
    + now apply IH.
  - inversion H2; subst;
      try (match goal with
           | Hp2 : nth_error b2 i = Some ?q |- _ =>
               rewrite (Hq _ _ _ Hp Hp2) in Hqp; congruence
           end).
    + exfalso. rewrite <- Hlen in Hp.
      assert (nth_error b1 (List.length b1) = None) by now apply nth_error_None.
      congruence.
    + cbn [writes questions candidates map].
      match goal with
      | Hp2 : nth_error b2 i = Some ?q |- _ =>
          rewrite (report_at_same_but_time i p q m Hp Hp2)
      end.
      repeat split.
  - inversion H2; subst;
      try (match goal with
           | Hp2 : nth_error b2 i = Some ?q |- _ =>
               rewrite (Hq _ _ _ Hp Hp2) in Hqp; congruence
           end); try congruence.
    + exfalso. rewrite <- Hlen in Hp.
      assert (nth_error b1 (List.length b1) = None) by now apply nth_error_None.
      congruence.
    + rewrite (mergeFiles_same_but_time h endTrkPrts _ _ outputGpx
                 (same_but_time_firstn _ _ (S i) Hsame)).
      cbn [writes questions candidates map].
      match goal with
      | Hp2 : nth_error b2 i = Some ?q |- _ =>
          rewrite (report_at_same_but_time i p q m Hp Hp2)
      end.
      destruct (mergeFiles_candidates h endTrkPrts outputGpx (firstn (S i) b2))
        as [Hc _].
      rewrite Hc. repeat split.
  - inversion H2; subst;
      try (match goal with
           | Hp2 : nth_error b2 i = Some ?q |- _ =>
               rewrite (Hq _ _ _ Hp Hp2) in Hqp; congruence
           end); try congruence.
    + exfalso. rewrite <- Hlen in Hp.
      assert (nth_error b1 (List.length b1) = None) by now apply nth_error_None.
      congruence.
    + match goal with
      | Hp2 : nth_error b2 i = Some ?q,
        HS2 : Scan _ b2 _ _ _ _ (S i) _ _ _ _ |- _ =>
          assert (Hr := report_at_same_but_time i p q m Hp Hp2);
          assert (Hm : cand_minDist
                         (report_at h b1 firstEndLatLng i p m)
                       = cand_minDist
                           (report_at h b2 firstEndLatLng i q m))
            by exact (f_equal cand_minDist Hr);
          rewrite <- Hm in HS2;
          destruct (IH _ _ HS2) as (Ho & Hw & Hqs & Hc)
      end.
      cbn [writes questions candidates map]. rewrite Hr, Hw, Hqs, Hc.
      repeat split; trivial.
Qed.

End TwoBeginTracks.

(** X9.  The search and the merge never read the times of the begin track:
    two begin tracks that agree on everything but [time] give the same
    outcome, the same questions, the same reports up to the times of the
    points shown, and the same file. *)
Theorem begin_times_never_read (h : Host)
    (beginTrkPrts beginTrkPrts' endTrkPrts : list TrkPrt) (outputGpx : string)
    (thresholdMeters : float) (stdin : list string) :
  Forall2 same_but_time beginTrkPrts beginTrkPrts' ->
  let run := findMergePoint h beginTrkPrts endTrkPrts outputGpx
               thresholdMeters stdin in
  let run' := findMergePoint h beginTrkPrts' endTrkPrts outputGpx
                thresholdMeters stdin in
  snd run = snd run'
  /\ writes (fst run) = writes (fst run')
  /\ questions (fst run) = questions (fst run')
  /\ map blank_times (candidates (fst run))
     = map blank_times (candidates (fst run')).
Proof.
  intros Hsame run run'.
  destruct endTrkPrts as [|f rest] eqn:Eend.
  { subst run run'. cbn. auto. }
  destruct (findMergePoint_Scan h beginTrkPrts (f :: rest) outputGpx
              thresholdMeters stdin _ _ f eq_refl (surjective_pairing _))
    as (later & E1 & HS1).
  destruct (findMergePoint_Scan h beginTrkPrts' (f :: rest) outputGpx
              thresholdMeters stdin _ _ f eq_refl (surjective_pairing _))
    as (later' & E2 & HS2).
  fold run in E1, HS1. fold run' in E2, HS2. rewrite E1, E2.
  cbn [writes questions candidates].
  exact (Scan_same_but_time h _ _ _ _ _ _ Hsame _ _ _ _ _ HS1 _ _ HS2).
Qed.

End IndependenceProps.

(* ================================================================= *)
(** ** More on the answer text and on the interval check *)

Module AnswerTextProps.
Import JSString MergeGpx ConfirmProps.
Local Open Scope string_scope.

Lemma toLowerCase_app (a b : string) :
  toLowerCase (a ++ b) = toLowerCase a ++ toLowerCase b.
Proof. induction a as [|c a IH]; cbn; [reflexivity | now rewrite IH]. Qed.

Lemma toLowerCase_char_idempotent (c : ascii) :
  toLowerCase_char (toLowerCase_char c) = toLowerCase_char c.
Proof. destruct c as [[] [] [] [] [] [] [] []]; reflexivity. Qed.

Lemma toLowerCase_idempotent (s : string) :
  toLowerCase (toLowerCase s) = toLowerCase s.
Proof.
  induction s as [|c s IH]; cbn; [reflexivity |].
  now rewrite toLowerCase_char_idempotent, IH.
Qed.

(** A piece of lower-cased text is in lower case. *)
Lemma toLowerCase_prefix (pre : string) :
  forall s rest, toLowerCase s = pre ++ rest -> toLowerCase pre = pre.
Proof.
  induction pre as [|c pre IH]; intros s rest; [reflexivity |].
  destruct s as [|x s]; cbn; [discriminate |].
  intros [= Hc Hrest]. now rewrite <- Hc, toLowerCase_char_idempotent, (IH _ _ Hrest).
Qed.

(** The match of the pattern in [s]: the first [y], and nothing more. *)
Lemma exec_confirm_first_y (s : string) :
  exec confirm_pattern s
  = match s with
    | EmptyString => None
    | String c s' =>
        if Ascii.eqb c "y" then Some (0%nat, "y")
        else match exec confirm_pattern s' with
             | Some (i, m) => Some (S i, m)
             | None => None
             end
    end.
Proof.
  destruct s as [|c s']; [reflexivity |].
  cbn [exec]. rewrite match_here_confirm. cbn [is_prefix].
  rewrite (Ascii.eqb_sym "y" c). now destruct (Ascii.eqb c "y").
Qed.

Lemma exec_confirm_contains (s : string) :
  match exec confirm_pattern s with Some _ => true | None => false end
  = contains_char "y" s.
Proof.
  induction s as [|c s IH]; [reflexivity |].
  rewrite exec_confirm_first_y. cbn [contains_char].
  destruct (Ascii.eqb c "y"); [reflexivity |]. cbn [orb]. rewrite <- IH.
  now destruct (exec confirm_pattern s) as [[i m]|].
Qed.

Lemma contains_char_app (c : ascii) (a b : string) :
  contains_char c (a ++ b) = (contains_char c a || contains_char c b)%bool.
Proof.
  induction a as [|x a IH]; cbn; [reflexivity |].
  now rewrite IH, orb_assoc.
Qed.

Lemma userConfirm_contains (answer : string) :
  userConfirm answer = contains_char "y" (toLowerCase answer).
Proof.
  unfold userConfirm, String_match. apply exec_confirm_contains.
Qed.

Lemma exec_confirm_leftmost (s : string) :
  forall i m,
    exec confirm_pattern s = Some (i, m) ->
    m = "y"
    /\ exists pre post,
        s = pre ++ "y" ++ post
        /\ String.length pre = i
        /\ contains_char "y" pre = false.
Proof.
  induction s as [|c s IH]; intros i m; rewrite exec_confirm_first_y;
    [discriminate |].
  destruct (Ascii.eqb c "y") eqn:E.
  - intros [= <- <-]. apply Ascii.eqb_eq in E. subst c.
    split; [reflexivity |]. now exists "", s.
  - destruct (exec confirm_pattern s) as [[j n]|]; [| discriminate].
    intros [= <- <-].
    destruct (IH j n eq_refl) as (Hm & pre & post & Hs & Hi & Hpre).
    split; [exact Hm |]. exists (String c pre), post.
    rewrite Hs, <- Hi. repeat split. cbn [contains_char]. now rewrite E, Hpre.
Qed.

(** X11.  [userConfirm] looks for a [y] anywhere in the answer: an answer put
    together from two parts is accepted exactly when one of the parts
    is, so text around an accepted answer changes nothing; the case of
    the letters does not matter; and what the pattern matches is always
    the first [y] alone, the alternative [yes] never being reached. *)
Theorem userConfirm_accepts_any_part (a b : string) :
  userConfirm (a ++ b) = (userConfirm a || userConfirm b)%bool
  /\ userConfirm (toLowerCase a) = userConfirm a
  /\ (forall i m,
        String_match (toLowerCase a) confirm_pattern = Some (i, m) ->
        m = "y"
        /\ exists pre post,
            toLowerCase a = pre ++ "y" ++ post
            /\ String.length pre = i
            /\ userConfirm pre = false).
Proof.
  split; [| split].
  - now rewrite !userConfirm_contains, toLowerCase_app, contains_char_app.
  - now rewrite !userConfirm_contains, toLowerCase_idempotent.
  - intros i m H. destruct (exec_confirm_leftmost _ _ _ H)
      as (Hm & pre & post & Hs & Hi & Hpre).
    split; [exact Hm |]. exists pre, post. repeat split; trivial.
    rewrite userConfirm_contains.
    now rewrite (toLowerCase_prefix _ _ _ Hs).
Qed.

End AnswerTextProps.

Module BetweenProps.
Import JSNumber JSNumberFacts MergeGpx.
Local Open Scope float_scope.

(** Two doubles below each other are [==]. *)
Lemma leb_antisym_eqb (x p : float) : ((x <=? p) && (p <=? x))%bool = (x =? p).
Proof.
  rewrite !leb_spec, eqb_spec. unfold SFleb, SFeqb. rewrite !SFcompare_key.
  rewrite (key_compare_antisym (sf_key (Prim2SF x)) (sf_key (Prim2SF p))).
  destruct (sf_is_nan (Prim2SF x)), (sf_is_nan (Prim2SF p)); cbn; trivial.
  now destruct (key_compare (sf_key (Prim2SF x)) (sf_key (Prim2SF p))).
Qed.

(** X12.  [isBetween] does not depend on the order of its two arguments; a
    point whose latitudes (or longitudes) are numbers lies between
    itself and any other such point; a receiver with neither coordinate
    a number is between nothing; and between a point and itself lies
    exactly what shares its latitude or its longitude. *)
Theorem isBetween_order_and_endpoints :
  (forall p a b : LatLng, isBetween p a b = isBetween p b a)
  /\ (forall a b : LatLng,
        (is_nan (lat a) = false /\ is_nan (lat b) = false)
        \/ (is_nan (lng a) = false /\ is_nan (lng b) = false) ->
        isBetween a a b = true /\ isBetween b a b = true)
  /\ (forall p a b : LatLng,
        is_nan (lat p) = true -> is_nan (lng p) = true ->
        isBetween p a b = false)
  /\ (forall p a : LatLng,
        isBetween p a a = ((lat a =? lat p) || (lng a =? lng p))%bool).
Proof.
  split; [| split; [| split]].
  - intros p a b. unfold isBetween.
    destruct (lat a <=? lat p), (lat p <=? lat b), (lat b <=? lat p),
      (lat p <=? lat a), (lng a <=? lng p), (lng p <=? lng b),
      (lng b <=? lng p), (lng p <=? lng a); reflexivity.
  - intros a b H. unfold isBetween.
    destruct H as [[Ha Hb]|[Ha Hb]].
    + rewrite (leb_refl _ Ha), (leb_refl _ Hb).
      destruct (lat a <=? lat b) eqn:E.
      * cbn. split; reflexivity.
      * rewrite (leb_total _ _ Ha Hb E). cbn. split; reflexivity.
    + rewrite (leb_refl _ Ha), (leb_refl _ Hb).
      destruct (lng a <=? lng b) eqn:E; [| rewrite (leb_total _ _ Ha Hb E)];
        destruct (lat a <=? lat a), (lat a <=? lat b), (lat b <=? lat a),
          (lat b <=? lat b); split; reflexivity.
  - intros p a b Hlat Hlng. unfold isBetween.
    rewrite !(leb_nan_l _ _ Hlat), !(leb_nan_l _ _ Hlng),
      !(leb_nan_r _ _ Hlat), !(leb_nan_r _ _ Hlng). reflexivity.
  - intros p a. unfold isBetween.
    rewrite <- !leb_antisym_eqb.
    destruct (lat a <=? lat p), (lat p <=? lat a), (lng a <=? lng p),
      (lng p <=? lng a); reflexivity.
Qed.

End BetweenProps.

(* ================================================================= *)
(** ** The single-file script, the two retimers and [linearDist] *)

Module ScriptProps.
Import JSNumber JSNumberFacts FloatSigns RetimerProps HaversineProps.
Import FixGpx.
Local Open Scope float_scope.

(** The coordinates the script parses out of a point. *)
Definition latLng_of (h : Host) (trkPrt : TrkPrt) : MergeGpx.LatLng :=
  {| MergeGpx.lat := Number_parseFloat h (attr_lat trkPrt);
     MergeGpx.lng := Number_parseFloat h (attr_lon trkPrt) |}.

(** What the pass over index [i] logs when the loop starts at [S0]: the
    new time of the point and, when there is a next point, the distance
    to it and the speed that covers it in one second. *)
Definition log_at (h : Host) (trkPrts : list TrkPrt) (S0 : Z) (i : nat)
    : list Event :=
  match nth_error trkPrts i with
  | None => []
  | Some trkPrt =>
      Warn_time (Date_format h (S0 + Z.of_nat i * 1000))
      :: match nth_error trkPrts (S i) with
         | Some nextPrt =>
             let dist :=
               MergeGpx.haversineDist h (latLng_of h trkPrt) (latLng_of h nextPrt) in
             [Warn_distance dist;
              Warn_speed (dist / 1000 * milePerKm * secPerHour)]
         | None => []
         end
  end.

(** The files a trace of the script writes. *)
Fixpoint file_writes (tr : list Event) : list (string * list TrkPrt) :=
  match tr with
  | [] => []
  | WriteFile path trkpt :: tr' => (path, trkpt) :: file_writes tr'
  | _ :: tr' => file_writes tr'
  end.

Definition is_time_line (e : Event) : bool :=
  match e with Warn_time _ => true | _ => false end.

Definition is_distance_line (e : Event) : bool :=
  match e with Warn_distance _ => true | _ => false end.

Definition is_speed_line (e : Event) : bool :=
  match e with Warn_speed _ => true | _ => false end.

Lemma skipn_cons {A : Type} (l : list A) :
  forall (i : nat) (x : A) (r : list A),
    skipn i l = x :: r -> nth_error l i = Some x /\ skipn (S i) l = r.
Proof.
  induction l as [|y l IH]; intros [|i] x r; cbn; try discriminate.
  - intros [= -> ->]. auto.
  - intros H. destruct (IH i x r H) as [H1 H2]. auto.
Qed.

Lemma file_writes_app (tr1 tr2 : list Event) :
  file_writes (tr1 ++ tr2) = file_writes tr1 ++ file_writes tr2.
Proof.
  induction tr1 as [|e tr1 IH]; [reflexivity |].
  destruct e; cbn; now rewrite ?IH.
Qed.

Section Loop.
Variable h : Host.
Variable trkPrts : list TrkPrt.

(** Under the guard the next point is there. *)
Lemma guarded_lookup (idx : nat) :
  (idx <? List.length trkPrts - 1)%nat = true ->
  exists nextPrt, nth_error trkPrts (idx + 1) = Some nextPrt.
Proof.
  intros Hlt. apply Nat.ltb_lt in Hlt.
  destruct (nth_error trkPrts (idx + 1)) eqn:E; [eauto |].
  apply nth_error_None in E. lia.
Qed.

Lemma unguarded_lookup (idx : nat) (trkPrt : TrkPrt) :
  nth_error trkPrts idx = Some trkPrt ->
  (idx <? List.length trkPrts - 1)%nat = false ->
  nth_error trkPrts (S idx) = None.
Proof.
  intros Hp Hlt. apply Nat.ltb_ge in Hlt. apply nth_error_None.
  assert (idx < List.length trkPrts)%nat by (apply nth_error_Some; congruence).
  lia.
Qed.

(** The loop raises nothing but the RangeError of [toISOString], and
    writes no file. *)
Lemma fix_forEach_error (start : option Z) (rest : list TrkPrt) :
  forall idx printed r,
    forEach_retime h trkPrts start idx rest = (printed, r) ->
    file_writes printed = []
    /\ forall e, r = inl e -> e = RangeError.
Proof.
  induction rest as [|p rest' IH]; intros idx printed r; cbn [forEach_retime].
  - intros [= <- <-]. split; [reflexivity | discriminate].
  - destruct (new_Date _) as [tv|]; cbn [toISOString].
    2:{ intros [= <- <-]. split; [reflexivity | now intros e' [= <-]]. }
    destruct (forEach_retime h trkPrts start (S idx) rest') as [later r'] eqn:El.
    destruct (IH _ _ _ El) as [Hw He].
    destruct (idx <? List.length trkPrts - 1)%nat eqn:Elt.
    + destruct (guarded_lookup _ Elt) as [nextPrt ->].
      intros [= <- <-]. cbn [file_writes app]. split; [exact Hw |].
      intros e. destruct r' as [e'|r']; [| discriminate].
      intros [= <-]. now apply He.
    + intros [= <- <-]. cbn [file_writes app]. split; [exact Hw |].
      intros e. destruct r' as [e'|r']; [| discriminate].
      intros [= <-]. now apply He.
Qed.

(** A loop that completes over some points started from a number and
    met only time values of [Date]. *)
Lemma fix_forEach_valid (start : option Z) (rest : list TrkPrt) :
  forall idx printed retimed,
    forEach_retime h trkPrts start idx rest = (printed, inr retimed) ->
    rest = []
    \/ exists S0,
        start = Some S0
        /\ forall k, (k < List.length rest)%nat ->
                     is_time_value (S0 + Z.of_nat (idx + k) * 1000).
Proof.
  induction rest as [|p rest' IH]; intros idx printed retimed; [now left |].
  cbn [forEach_retime]. intros H. right.
  destruct start as [S0|]; [| cbn in H; discriminate].
  cbn [num_add option_map new_Date] in H.
  destruct (TimeClip (S0 + Z.of_nat idx * 1000)) as [tv|] eqn:Ec;
    [| cbn in H; discriminate].
  apply TimeClip_Some in Ec. destruct Ec as [-> Hv]. cbn [toISOString] in H.
  destruct (forEach_retime h trkPrts (Some S0) (S idx) rest') as [later r'] eqn:El.
  assert (Hr : forall r'', r' = inr r'' ->
             forall k, (k < List.length (p :: rest'))%nat ->
                       is_time_value (S0 + Z.of_nat (idx + k) * 1000)).
  { intros r'' -> [|k] Hk; [now rewrite Nat.add_0_r |].
    destruct (IH _ _ _ El) as [->|(S1 & [= <-] & Hall)]; [cbn in Hk; lia |].
    replace (idx + S k)%nat with (S idx + k)%nat by lia.
    apply Hall. cbn in Hk. lia. }
  exists S0. split; [reflexivity |].
  destruct (idx <? List.length trkPrts - 1)%nat eqn:Elt.
  - destruct (guarded_lookup _ Elt) as [nextPrt Hn]. rewrite Hn in H.
    destruct r' as [e|r'']; [discriminate |]. now apply (Hr r'').
  - destruct r' as [e|r'']; [discriminate |]. now apply (Hr r'').
Qed.

(** What a completed loop over the points from [idx] on has logged. *)
Lemma fix_forEach_log (S0 : Z) (rest : list TrkPrt) :
  forall idx printed retimed,
    skipn idx trkPrts = rest ->
    forEach_retime h trkPrts (Some S0) idx rest = (printed, inr retimed) ->
    printed = flat_map (log_at h trkPrts S0) (seq idx (List.length rest)).
Proof.
  induction rest as [|p rest' IH]; intros idx printed retimed Hskip;
    cbn [forEach_retime].
  - now intros [= <- _].
  - destruct (skipn_cons _ _ _ _ Hskip) as [Hp Hskip'].
    cbn [num_add option_map new_Date].
    destruct (TimeClip (S0 + Z.of_nat idx * 1000)) as [tv|] eqn:Ec;
      [| cbn; discriminate].
    apply TimeClip_Some in Ec. destruct Ec as [-> Hv]. cbn [toISOString].
    destruct (forEach_retime h trkPrts (Some S0) (S idx) rest') as [later r'] eqn:El.
    cbn [List.length seq flat_map]. unfold log_at at 1. rewrite Hp.
    destruct (idx <? List.length trkPrts - 1)%nat eqn:Elt.
    + destruct (guarded_lookup _ Elt) as [nextPrt Hn]. rewrite Hn.
      rewrite Nat.add_1_r in Hn. rewrite Hn.
      destruct r' as [e|r'']; [discriminate |]. intros [= <- _].
      now rewrite (IH _ _ _ Hskip' El).
    + rewrite (unguarded_lookup _ _ Hp Elt).
      destruct r' as [e|r'']; [discriminate |]. intros [= <- _].
      now rewrite (IH _ _ _ Hskip' El).
Qed.

(** One time line for each point, one distance line and one speed line
    for each point but the last. *)
Lemma log_lines (S0 : Z) (n : nat) :
  forall a,
    (a + n = List.length trkPrts)%nat ->
    List.length (filter is_time_line (flat_map (log_at h trkPrts S0) (seq a n))) = n
    /\ List.length (filter is_distance_line
                      (flat_map (log_at h trkPrts S0) (seq a n))) = (n - 1)%nat
    /\ List.length (filter is_speed_line
                      (flat_map (log_at h trkPrts S0) (seq a n))) = (n - 1)%nat.
Proof.
  induction n as [|n IH]; intros a Ha; [repeat split |].
  cbn [seq flat_map]. rewrite !filter_app, !length_app.
  destruct (IH (S a) ltac:(lia)) as (-> & -> & ->).
  unfold log_at.
  destruct (nth_error trkPrts a) as [p|] eqn:Hp.
  2:{ apply nth_error_None in Hp. lia. }
  destruct (nth_error trkPrts (S a)) as [q|] eqn:Hq; cbn.
  - assert (S a < List.length trkPrts)%nat by (apply nth_error_Some; congruence).
    repeat split; lia.
  - apply nth_error_None in Hq. repeat split; lia.
Qed.

End Loop.

(** On an array the script completes exactly when the array is empty
    or the first and the last instant are time values of [Date]. *)
Lemma script_on_array_completes_iff (h : Host) (trkPrts : list TrkPrt) :
  snd (script_on_array h trkPrts) = inr tt <->
  trkPrts = []
  \/ exists T,
      Date_parse h timeToReach = Some T
      /\ is_time_value (T - Z.of_nat (List.length trkPrts) * 1000)
      /\ is_time_value (T - 1000).
Proof.
  unfold script_on_array.
  destruct (forEach_retime h trkPrts _ 0 trkPrts) as [printed r] eqn:E.
  destruct r as [e|retimed]; cbn [snd].
  - split; [discriminate |]. intros [->|(T & HT & Hfirst & Hlast)].
    + cbn in E. discriminate.
    + exfalso. rewrite HT in E. cbn [num_sub option_map] in E.
      destruct (fix_forEach_succeeds h trkPrts
                  (T - Z.of_nat (List.length trkPrts) * 1000) trkPrts 0)
        as (pr & r & Er & _); [| congruence].
      intros k Hk. cbn [Nat.add].
      apply (is_time_value_between
               (T - Z.of_nat (List.length trkPrts) * 1000) (T - 1000));
        trivial; lia.
  - split; [| reflexivity]. intros _.
    destruct (fix_forEach_valid h trkPrts _ _ _ _ _ E)
      as [Hnil|(S0 & HS0 & Hall)]; [now left |].
    destruct trkPrts as [|p l] eqn:Etrk; [now left | right].
    rewrite <- Etrk in *.
    destruct (Date_parse h timeToReach) as [T|]; [| discriminate].
    cbn [num_sub option_map] in HS0. injection HS0 as <-.
    exists T. split; [reflexivity |]. split.
    + specialize (Hall 0%nat ltac:(rewrite Etrk; cbn; lia)).
      cbn [Nat.add] in Hall. now rewrite Z.add_0_r in Hall.
    + specialize (Hall (List.length l) ltac:(rewrite Etrk; cbn; lia)).
      cbn [Nat.add] in Hall.
      replace (T - 1000)%Z
        with (T - Z.of_nat (List.length trkPrts) * 1000
              + Z.of_nat (List.length l) * 1000)%Z; [exact Hall |].
      rewrite Etrk. cbn [List.length]. lia.
Qed.

(** On an array a failure is the RangeError of [toISOString] and leaves
    no file; a completed run ends with the one write. *)
Lemma script_on_array_ends (h : Host) (trkPrts : list TrkPrt) :
  (forall e,
      snd (script_on_array h trkPrts) = inl e ->
      e = RangeError /\ file_writes (fst (script_on_array h trkPrts)) = [])
  /\ (snd (script_on_array h trkPrts) = inr tt ->
      exists before retimed,
        fst (script_on_array h trkPrts)
        = before ++ [WriteFile "./lunch-ride-fixed.gpx" retimed]
        /\ file_writes before = []
        /\ List.length retimed = List.length trkPrts).
Proof.
  unfold script_on_array.
  destruct (forEach_retime h trkPrts _ 0 trkPrts) as [printed r] eqn:E.
  destruct (fix_forEach_error h trkPrts _ _ _ _ _ E) as [Hw He].
  split.
  - intros e. destruct r as [e'|retimed]; cbn [fst snd]; [| discriminate].
    intros [= <-]. split; [now apply He | exact Hw].
  - destruct r as [e'|retimed]; cbn [fst snd]; [discriminate |]. intros _.
    exists printed, retimed. repeat split; trivial.
    destruct (fix_forEach_valid h trkPrts _ _ _ _ _ E)
      as [Hnil|(S0 & HS0 & Hall)].
    + rewrite Hnil in *. cbn in E. now injection E as <- <-.
    + destruct (fix_forEach_succeeds h trkPrts S0 trkPrts 0 Hall)
        as (pr & r & Er & Hlen & _).
      rewrite HS0 in E. congruence.
Qed.

(** X13.  The log of the single-file script on a file of two or more
    points (fewer are not parsed into an array, and nothing is logged).
    When [timeToReach] parses to [T] and the instants fit a [Date], the
    script logs, for each point in turn, its new time and, unless it is
    the last, the haversine distance to the next point (the distance of
    [mergeGpx.ts] on the parsed coordinates) and the matching speed;
    then it writes the file, once, as its last action.  That makes one
    time line per point and one distance and one speed line per point
    but the last. *)
Theorem script_log_lines (h : Host) (trkPrts : list TrkPrt) (T : Z) :
  (2 <= List.length trkPrts)%nat ->
  Date_parse h timeToReach = Some T ->
  is_time_value T ->
  is_time_value (T - Z.of_nat (List.length trkPrts) * 1000) ->
  let N := List.length trkPrts in
  let log := flat_map (log_at h trkPrts (T - Z.of_nat N * 1000)) (seq 0 N) in
  (exists retimed,
      script h (parsed_trkpt trkPrts)
      = (log ++ [WriteFile "./lunch-ride-fixed.gpx" retimed], inr tt))
  /\ file_writes log = []
  /\ List.length (filter is_time_line log) = N
  /\ List.length (filter is_distance_line log) = (N - 1)%nat
  /\ List.length (filter is_speed_line log) = (N - 1)%nat.
Proof.
  intros HN Hparse HT HS N log.
  destruct (fix_forEach_succeeds h trkPrts (T - Z.of_nat N * 1000) trkPrts 0)
    as (printed & retimed & E & _).
  { intros k Hk. rewrite <- instant_offset. now apply instant_valid. }
  assert (Hlog := fix_forEach_log h trkPrts _ _ 0 _ _ eq_refl E).
  fold N log in Hlog. subst printed.
  split; [| split].
  - exists retimed. rewrite (parsed_trkpt_array _ HN).
    unfold script, script_on_array. rewrite Hparse.
    cbn [num_sub option_map]. fold N. now rewrite E.
  - exact (proj1 (fix_forEach_error h trkPrts _ _ _ _ _ E)).
  - exact (log_lines h trkPrts _ N 0 eq_refl).
Qed.

(** X14.  How the single-file script ends, by the number [N] of points
    in the file.  It completes exactly when [N >= 2] and [timeToReach]
    parses to an instant [T] with [T - N] seconds and [T - 1] second in
    the range of [Date]; with the instant the literal denotes, that is
    every file of two or more points that an array can hold.  On
    completion the file is the last thing in the trace and the only
    write.  A file with no point fails with a TypeError and a file with
    one point with a RangeError, both before anything is logged; any
    other failure is the RangeError of [toISOString]; no failure leaves
    a file. *)
Theorem script_completes_iff (h : Host) (trkPrts : list TrkPrt) :
  (snd (script h (parsed_trkpt trkPrts)) = inr tt <->
   (2 <= List.length trkPrts)%nat
   /\ exists T,
       Date_parse h timeToReach = Some T
       /\ is_time_value (T - Z.of_nat (List.length trkPrts) * 1000)
       /\ is_time_value (T - 1000))
  /\ (forall e,
        snd (script h (parsed_trkpt trkPrts)) = inl e ->
        file_writes (fst (script h (parsed_trkpt trkPrts))) = []
        /\ (e = TypeError <-> trkPrts = [])
        /\ (e = RangeError <-> trkPrts <> []))
  /\ ((List.length trkPrts < 2)%nat ->
      fst (script h (parsed_trkpt trkPrts)) = []
      /\ exists e, snd (script h (parsed_trkpt trkPrts)) = inl e)
  /\ (snd (script h (parsed_trkpt trkPrts)) = inr tt ->
      exists before retimed,
        fst (script h (parsed_trkpt trkPrts))
        = before ++ [WriteFile "./lunch-ride-fixed.gpx" retimed]
        /\ file_writes before = []
        /\ List.length retimed = List.length trkPrts)
  /\ (Date_parse h timeToReach = Some 1639858477000%Z ->
      (2 <= List.length trkPrts)%nat ->
      (Z.of_nat (List.length trkPrts) < 2 ^ 32)%Z ->
      snd (script h (parsed_trkpt trkPrts)) = inr tt).
Proof.
  destruct trkPrts as [|p [|q l]] eqn:Etrk.
  - cbn. split; [split; [discriminate | intros [H _]; lia] |].
    split; [intros e [= <-]; repeat split; congruence |].
    split; [intros _; split; eauto |].
    split; [discriminate | intros _ H; lia].
  - cbn. split; [split; [discriminate | intros [H _]; lia] |].
    split; [intros e [= <-]; repeat split; congruence |].
    split; [intros _; split; eauto |].
    split; [discriminate | intros _ H; lia].
  - rewrite <- Etrk.
    assert (HN : (2 <= List.length trkPrts)%nat) by (rewrite Etrk; cbn; lia).
    assert (Hne : trkPrts <> []) by (rewrite Etrk; discriminate).
    rewrite (parsed_trkpt_array _ HN). cbn [script].
    assert (Hiff := script_on_array_completes_iff h trkPrts).
    destruct (script_on_array_ends h trkPrts) as [Hfail Hdone].
    split; [| split; [| split; [| split]]].
    + rewrite Hiff. split.
      * intros [H|H]; [contradiction | auto].
      * intros [_ H]. now right.
    + intros e He. destruct (Hfail e He) as [-> Hw].
      split; [exact Hw |]. split; split; congruence.
    + intros H. lia.
    + exact Hdone.
    + intros Hparse _ Hlen. apply Hiff. right. exists 1639858477000%Z.
      split; [exact Hparse |]. unfold is_time_value. lia.
Qed.

End ScriptProps.

Module MoreSigns.
Import JSNumber JSNumberFacts FloatSigns.
Local Open Scope float_scope.

(** A quotient by a positive constant is negative only if the dividend
    is. *)
Lemma div_positive_negative x k :
  (0 <? k) = true -> is_finite k = true ->
  (x / k <? 0) = true -> (x <? 0) = true.
Proof.
  rewrite zero_ltb, !ltb_zero, div_spec. unfold is_finite, is_infinity.
  rewrite is_nan_spec, eqb_spec, abs_spec.
  destruct (Prim2SF k) as [[]|[]| |[] mk ek]; try discriminate.
  intros _ _.
  destruct (Prim2SF x) as [[]|[]| |[] mx ex];
    cbn -[binary_round_aux SFdiv_core_binary]; try discriminate; trivial.
  destruct (SFdiv_core_binary prec emax (Z.pos mx) ex (Z.pos mk) ek)
    as [[mz ez] lz].
  pose proof (binary_round_aux_sign false mz ez lz) as H.
  destruct (binary_round_aux prec emax false mz ez lz) as [s|s| |s m e];
    try discriminate; now subst s.
Qed.

Lemma mul_negative_positive x k :
  (0 <? k) = true -> is_finite k = true ->
  (x * k <? 0) = true -> (x <? 0) = true.
Proof. rewrite mul_comm. apply mul_positive_negative. Qed.

End MoreSigns.

Module ScriptNumberProps.
Import JSNumber JSNumberFacts FloatSigns MoreSigns RetimerProps HaversineProps.
Import FixGpx ScriptProps.
Local Open Scope float_scope.

(** The speed the script derives from a distance is negative only if
    the distance is. *)
Lemma speed_negative (dist : float) :
  (dist / 1000 * milePerKm * secPerHour <? 0) = true -> (dist <? 0) = true.
Proof.
  intros H.
  apply mul_negative_positive in H; [| reflexivity | reflexivity].
  apply mul_negative_positive in H; [| reflexivity | reflexivity].
  apply div_positive_negative in H; [exact H | reflexivity | reflexivity].
Qed.

Definition not_negative_line (e : Event) : Prop :=
  match e with
  | Warn_distance dist => (dist <? 0) = false
  | Warn_speed milesPerHour => (milesPerHour <? 0) = false
  | _ => True
  end.

Lemma fix_forEach_not_negative (h : Host) (trkPrts : list TrkPrt)
    (start : option Z) (rest : list TrkPrt) :
  sqrt_keeps_sign h -> atan2_negative_only_below h -> zero_values h ->
  forall idx printed r,
    forEach_retime h trkPrts start idx rest = (printed, r) ->
    Forall not_negative_line printed.
Proof.
  intros Hsqrt Hatan Hzero.
  induction rest as [|p rest' IH]; intros idx printed r; cbn [forEach_retime].
  - intros [= <- _]. constructor.
  - destruct (toISOString h _) as [e|iso]; [intros [= <- _]; constructor |].
    destruct (forEach_retime h trkPrts start (S idx) rest') as [later r'] eqn:El.
    assert (Hl := IH _ _ _ El).
    destruct (idx <? List.length trkPrts - 1)%nat.
    + destruct (nth_error trkPrts (idx + 1)) as [nextPrt|].
      * intros [= <- _]. cbn [app].
        assert (Hd : (haversineDist h (Number_parseFloat h (attr_lat p))
                        (Number_parseFloat h (attr_lon p))
                        (Number_parseFloat h (attr_lat nextPrt))
                        (Number_parseFloat h (attr_lon nextPrt)) <? 0) = false).
        { exact (haversineDist_never_negative h (latLng_of h p)
                   (latLng_of h nextPrt) Hsqrt Hatan Hzero). }
        constructor; [exact I |]. constructor; [exact Hd |].
        constructor; [| exact Hl]. cbn [not_negative_line].
        apply not_true_is_false. intros E.
        apply speed_negative in E. congruence.
      * intros [= <- _]. repeat constructor.
    + intros [= <- _]. cbn [app]. constructor; [exact I | exact Hl].
Qed.

(** X15.  On an engine whose square root and arc tangent have the signs
    ECMAScript prescribes, the script never logs a negative distance or
    a negative speed, whatever the parser delivered, and each distance
    it logs is the haversine distance of [mergeGpx.ts] on the same
    coordinates. *)
Theorem script_logs_no_negative_number (h : Host) (trkpt : TrkptValue) :
  sqrt_keeps_sign h -> atan2_negative_only_below h -> zero_values h ->
  (forall dist, In (Warn_distance dist) (fst (script h trkpt)) ->
                (dist <? 0) = false)
  /\ (forall milesPerHour,
        In (Warn_speed milesPerHour) (fst (script h trkpt)) ->
        (milesPerHour <? 0) = false)
  /\ (forall lat1 lon1 lat2 lon2,
        haversineDist h lat1 lon1 lat2 lon2
        = MergeGpx.haversineDist h
            {| MergeGpx.lat := lat1; MergeGpx.lng := lon1 |}
            {| MergeGpx.lat := lat2; MergeGpx.lng := lon2 |}).
Proof.
  intros Hsqrt Hatan Hzero.
  assert (H : Forall not_negative_line (fst (script h trkpt))).
  { destruct trkpt as [|p|trkPrts]; cbn [script fst]; [constructor.. |].
    unfold script_on_array.
    destruct (forEach_retime h trkPrts _ 0 trkPrts) as [printed r] eqn:E.
    assert (Hp := fix_forEach_not_negative h trkPrts _ _ Hsqrt Hatan Hzero _ _ _ E).
    destruct r as [e|retimed]; cbn [fst]; trivial.
    apply Forall_app. split; trivial. repeat constructor. }
  rewrite Forall_forall in H.
  split; [| split].
  - intros dist Hin. exact (H _ Hin).
  - intros v Hin. exact (H _ Hin).
  - reflexivity.
Qed.

End ScriptNumberProps.

Module RetimerAgreement.
Import RetimerProps FixGpx ScriptProps.

(** The two retiming loops, run from the same start over as many points,
    assign the same texts and fail alike. *)
Lemma loops_agree (h : Host) (trkPrts : list TrkPrt) (start : option Z)
    (toMerge : list MergeGpx.TrkPrt) :
  forall (rest : list TrkPrt) (idx : nat),
    List.length toMerge = List.length rest ->
    match MergeGpx.forEach_retime h start idx toMerge,
          snd (forEach_retime h trkPrts start idx rest) with
    | inr retimed, inr retimed' =>
        map MergeGpx.time retimed = map time retimed'
    | inl e, inl e' => e = e'
    | _, _ => False
    end.
Proof.
  induction toMerge as [|p l IH]; intros [|q rest] idx; cbn [List.length];
    try discriminate; [reflexivity |]. intros [= Hlen].
  cbn [MergeGpx.forEach_retime forEach_retime].
  destruct (toISOString h _) as [e|iso]; [reflexivity |].
  specialize (IH rest (S idx) Hlen).
  destruct (forEach_retime h trkPrts start (S idx) rest) as [later r'].
  cbn [snd] in IH.
  destruct (idx <? List.length trkPrts - 1)%nat eqn:Elt.
  - destruct (guarded_lookup trkPrts _ Elt) as [nextPrt ->]. cbn [snd].
    destruct (MergeGpx.forEach_retime h start (S idx) l) as [e|r], r' as [e'|r'];
      trivial; try contradiction. cbn. now rewrite IH.
  - cbn [snd].
    destruct (MergeGpx.forEach_retime h start (S idx) l) as [e|r], r' as [e'|r'];
      trivial; try contradiction. cbn. now rewrite IH.
Qed.

(** X16.  On a file of two or more points the single-file script
    retimes like [mergeFiles]: over as many points, and with an end
    track whose first time parses like [timeToReach], the two complete
    or fail alike, and the points they write carry the same times, index
    by index.  (On a file of one point they differ: the script throws
    where [mergeFiles] on a one-point prefix can complete.) *)
Theorem script_retimes_like_mergeFiles (h : Host)
    (trkPrts : list TrkPrt) (toMerge : list MergeGpx.TrkPrt)
    (firstTrkInEnd : MergeGpx.TrkPrt) (rest : list MergeGpx.TrkPrt)
    (outputGpx : string) :
  (2 <= List.length trkPrts)%nat ->
  List.length toMerge = List.length trkPrts ->
  Date_parse h (MergeGpx.time firstTrkInEnd) = Date_parse h timeToReach ->
  snd (MergeGpx.mergeFiles h (firstTrkInEnd :: rest) toMerge outputGpx)
  = snd (script h (parsed_trkpt trkPrts))
  /\ (snd (script h (parsed_trkpt trkPrts)) = inr tt ->
      exists retimed retimed',
        MergeGpx.writes
          (fst (MergeGpx.mergeFiles h (firstTrkInEnd :: rest) toMerge outputGpx))
        = [(outputGpx, retimed ++ firstTrkInEnd :: rest)]
        /\ file_writes (fst (script h (parsed_trkpt trkPrts)))
           = [("./lunch-ride-fixed.gpx"%string, retimed')]
        /\ map MergeGpx.time retimed = map time retimed')
  /\ (forall trkPrt : TrkPrt,
        snd (script h (parsed_trkpt [trkPrt])) = inl RangeError).
Proof.
  intros HN Hlen Hparse. rewrite (parsed_trkpt_array _ HN). cbn [script].
  unfold MergeGpx.mergeFiles, script_on_array. rewrite Hparse, Hlen.
  assert (H := loops_agree h trkPrts
                 (num_sub (Date_parse h timeToReach)
                    (Z.of_nat (List.length trkPrts) * 1000))
                 toMerge trkPrts 0 Hlen).
  destruct (forEach_retime h trkPrts _ 0 trkPrts) as [printed r] eqn:E.
  cbn [snd] in H.
  destruct (MergeGpx.forEach_retime h _ 0 toMerge) as [e|retimed],
    r as [e'|retimed']; try contradiction; cbn [fst snd].
  - subst e'. split; [reflexivity | split; [discriminate | reflexivity]].
  - split; [reflexivity |]. split; [| reflexivity].
    intros _. exists retimed, retimed'.
    split; [reflexivity |]. split; [| exact H].
    rewrite file_writes_app.
    now rewrite (proj1 (fix_forEach_error h trkPrts _ _ _ _ _ E)).
Qed.

End RetimerAgreement.

Module LinearDistProps.
Import JSNumber JSNumberFacts FloatSigns HaversineProps.
Local Open Scope float_scope.

(** What the theorem on [linearDist] asks of [Math.pow]: a square does
    not see the sign of its base, and the square of zero is zero (the
    value ECMAScript prescribes). *)
Definition square_is_even (Math_pow : float -> float -> float) : Prop :=
  forall x, Math_pow (- x) 2 = Math_pow x 2.

Definition square_of_zero (Math_pow : float -> float -> float) : Prop :=
  Math_pow 0 2 = 0.

(** X17.  [linearDist] is never negative on an engine whose square root
    is not; it is the same double in both directions when squaring
    forgets the sign of the base; a point with finite coordinates is at
    distance 0 from itself when the square and the root of zero are
    zero; and the copy of the function in the single-file script
    computes the same. *)
Theorem linearDist_properties (h : Host) (Math_pow : float -> float -> float) :
  sqrt_keeps_sign h ->
  Math_sqrt h 0 = 0 ->
  square_is_even Math_pow ->
  square_of_zero Math_pow ->
  (forall lat1 lon1 lat2 lon2,
      (MergeGpx.linearDist h Math_pow lat1 lon1 lat2 lon2 <? 0) = false)
  /\ (forall lat1 lon1 lat2 lon2,
        MergeGpx.linearDist h Math_pow lat1 lon1 lat2 lon2
        = MergeGpx.linearDist h Math_pow lat2 lon2 lat1 lon1)
  /\ (forall lat1 lon1,
        is_finite lat1 = true -> is_finite lon1 = true ->
        MergeGpx.linearDist h Math_pow lat1 lon1 lat1 lon1 = 0)
  /\ (forall lat1 lon1 lat2 lon2,
        FixGpx.linearDist h Math_pow lat1 lon1 lat2 lon2
        = MergeGpx.linearDist h Math_pow lat1 lon1 lat2 lon2).
Proof.
  intros Hsqrt Hsqrt0 Heven Hzero.
  assert (Hsq : forall u v, same_or_opp u v -> Math_pow u 2 = Math_pow v 2).
  { intros u v [->| ->]; [reflexivity | apply Heven]. }
  split; [| split; [| split]].
  - intros lat1 lon1 lat2 lon2. unfold MergeGpx.linearDist. cbv zeta.
    destruct (_ <? 0) eqn:E; trivial. exfalso.
    apply mul_positive_negative in E; [| reflexivity | reflexivity].
    now rewrite (proj1 (Hsqrt _)) in E.
  - intros lat1 lon1 lat2 lon2. unfold MergeGpx.linearDist. cbv zeta.
    now rewrite (Hsq _ _ (sub_swap lat1 lat2)), (Hsq _ _ (sub_swap lon1 lon2)).
  - intros lat1 lon1 Hlat Hlon. unfold MergeGpx.linearDist. cbv zeta.
    rewrite (sub_self _ Hlat), (sub_self _ Hlon), Hzero.
    change (0 + 0) with 0. rewrite Hsqrt0. reflexivity.
  - reflexivity.
Qed.

End LinearDistProps.

(* ================================================================= *)
(** ** The order of the reports, the script's frame, the end track *)

Module OrderProps.
Import JSNumber JSNumberFacts MergeGpx RetimerProps SearchProps.

Lemma filter_seq_increasing (f : nat -> bool) (n : nat) :
  forall a k k' x y,
    (k < k')%nat ->
    nth_error (filter f (seq a n)) k = Some x ->
    nth_error (filter f (seq a n)) k' = Some y ->
    (x < y)%nat.
Proof.
  induction n as [|n IH]; intros a k k' x y Hk; cbn [seq filter].
  { destruct k; discriminate. }
  destruct (f a).
  - destruct k' as [|k']; [lia |]. destruct k as [|k]; cbn [nth_error].
    + intros [= <-] Hy. apply nth_error_In, filter_In in Hy.
      destruct Hy as [Hy _]. apply in_seq in Hy. lia.
    + apply IH. lia.
  - now apply IH.
Qed.

(** X18.  The reports of a run are those of the begin points within the
    threshold among the points the scan visited, each point reported
    once and in track order: their indices are the qualifying indices
    below the number of points scanned, in increasing order. *)
Theorem reports_in_track_order (h : Host)
    (beginTrkPrts endTrkPrts : list TrkPrt) (outputGpx : string)
    (thresholdMeters : float) (stdin : list string)
    (tr : list Event) (o : Outcome) (firstTrkInEnd : TrkPrt) :
  hd_error endTrkPrts = Some firstTrkInEnd ->
  findMergePoint h beginTrkPrts endTrkPrts outputGpx thresholdMeters stdin
  = (tr, o) ->
  map cand_index (candidates tr)
  = filter (fun i =>
              match nth_error beginTrkPrts i with
              | Some P =>
                  (haversineDist h (fromTrkPrt h firstTrkInEnd) (fromTrkPrt h P)
                   <=? thresholdMeters)%float
              | None => false
              end)
      (seq 0 (scanned beginTrkPrts o))
  /\ (forall k k' c c',
        (k < k')%nat ->
        nth_error (candidates tr) k = Some c ->
        nth_error (candidates tr) k' = Some c' ->
        (cand_index c < cand_index c')%nat)
  /\ (forall c, In c (candidates tr) ->
        nth_error beginTrkPrts (cand_index c) = Some (cand_trkPrt c)).
Proof.
  intros Hhd Hrun.
  destruct (findMergePoint_Scan _ _ _ _ _ _ _ _ _ Hhd Hrun) as (later & -> & HS).
  cbn [candidates].
  destruct (Scan_offered _ _ _ _ _ _ _ _ _ _ _ HS) as [Hoff _].
  rewrite Nat.sub_0_r in Hoff.
  split; [exact Hoff | split].
  - intros k k' c c' Hk Hc Hc'.
    apply (filter_seq_increasing
             (qualifies_at h beginTrkPrts thresholdMeters (fromTrkPrt h firstTrkInEnd))
             (scanned beginTrkPrts o) 0 k k'); trivial;
      rewrite <- Hoff, nth_error_map; [now rewrite Hc | now rewrite Hc'].
  - intros c Hc.
    now destruct (Scan_reports _ _ _ _ _ _ _ _ _ _ _ HS c Hc) as (_ & Hnth & _).
Qed.

End OrderProps.

Module ScriptFrameProps.
Import RetimerProps FixGpx ScriptProps.

Lemma fix_forEach_frame (h : Host) (trkPrts : list TrkPrt) (start : option Z)
    (rest : list TrkPrt) :
  forall idx printed retimed,
    forEach_retime h trkPrts start idx rest = (printed, inr retimed) ->
    Forall2 (fun p q => q = set_time p (time q)) rest retimed.
Proof.
  induction rest as [|p rest' IH]; intros idx printed retimed;
    cbn [forEach_retime].
  - intros [= _ <-]. constructor.
  - destruct (toISOString h _) as [e|iso]; [discriminate |].
    destruct (forEach_retime h trkPrts start (S idx) rest') as [later r'] eqn:El.
    destruct (idx <? List.length trkPrts - 1)%nat;
      [destruct (nth_error trkPrts (idx + 1)); [| discriminate] |];
      (destruct r' as [e|r'']; [discriminate |]);
      intros [= _ <-]; (constructor; [reflexivity | eauto]).
Qed.

(** X19.  The single-file script changes nothing but the times: when it
    completes (the parser then delivered an array), the file holds as
    many points as the input, in the same order, each with the latitude
    and the longitude text of the input point at its index. *)
Theorem script_changes_only_time (h : Host) (trkpt : TrkptValue) :
  snd (script h trkpt) = inr tt ->
  exists trkPrts retimed,
    trkpt = Trkpt_array trkPrts
    /\ file_writes (fst (script h trkpt))
       = [("./lunch-ride-fixed.gpx"%string, retimed)]
    /\ List.length retimed = List.length trkPrts
    /\ Forall2 (fun p q => q = set_time p (time q)) trkPrts retimed
    /\ forall k p,
        nth_error trkPrts k = Some p ->
        exists q,
          nth_error retimed k = Some q
          /\ attr_lat q = attr_lat p
          /\ attr_lon q = attr_lon p.
Proof.
  destruct trkpt as [|p|trkPrts]; cbn [script snd]; try discriminate.
  unfold script_on_array.
  destruct (forEach_retime h trkPrts _ 0 trkPrts) as [printed r] eqn:E.
  destruct r as [e|retimed]; cbn [fst snd]; [discriminate |]. intros _.
  assert (HF := fix_forEach_frame h trkPrts _ _ _ _ _ E).
  exists trkPrts, retimed. split; [reflexivity |]. split.
  { rewrite file_writes_app.
    now rewrite (proj1 (fix_forEach_error h trkPrts _ _ _ _ _ E)). }
  split; [symmetry; exact (Forall2_length HF) |]. split; [exact HF |].
  clear E. induction HF as [|p0 q0 l l' Hpq HF IH]; intros [|k] p; cbn;
    try discriminate.
  - intros [= <-]. exists q0. split; [reflexivity |]. rewrite Hpq. cbn. auto.
  - apply IH.
Qed.

End ScriptFrameProps.

Module EndTrackProps.
Import JSNumber JSNumberFacts MergeGpx RetimerProps SearchProps.

Lemma mergeFiles_same_first (h : Host) (firstTrkInEnd : TrkPrt)
    (rest rest' toMerge : list TrkPrt) (outputGpx : string) :
  (exists e,
      mergeFiles h (firstTrkInEnd :: rest) toMerge outputGpx
      = ([Info_merging outputGpx], inl e)
      /\ mergeFiles h (firstTrkInEnd :: rest') toMerge outputGpx
         = ([Info_merging outputGpx], inl e))
  \/ (exists retimed,
      mergeFiles h (firstTrkInEnd :: rest) toMerge outputGpx
      = ([Info_merging outputGpx;
          WriteFile outputGpx (retimed ++ firstTrkInEnd :: rest);
          Info_written outputGpx], inr tt)
      /\ mergeFiles h (firstTrkInEnd :: rest') toMerge outputGpx
         = ([Info_merging outputGpx;
             WriteFile outputGpx (retimed ++ firstTrkInEnd :: rest');
             Info_written outputGpx], inr tt)).
Proof.
  unfold mergeFiles.
  destruct (forEach_retime h _ 0 toMerge) as [e|retimed]; [left | right]; eauto.
Qed.

Section TwoEndTracks.
Variable h : Host.
Variable beginTrkPrts : list TrkPrt.
Variable firstTrkInEnd : TrkPrt.
Variables rest rest' : list TrkPrt.
Variable outputGpx : string.
Variable thresholdMeters : float.
Variable firstEndLatLng : LatLng.

Lemma Scan_same_first index minDist stdin tr o :
  Scan h beginTrkPrts (firstTrkInEnd :: rest) outputGpx thresholdMeters
    firstEndLatLng index minDist stdin tr o ->
  forall tr' o',
    Scan h beginTrkPrts (firstTrkInEnd :: rest') outputGpx thresholdMeters
      firstEndLatLng index minDist stdin tr' o' ->
    o = o'
    /\ candidates tr = candidates tr'
    /\ questions tr = questions tr'
    /\ ((writes tr = [] /\ writes tr' = [])
        \/ exists retimed,
            writes tr = [(outputGpx, retimed ++ firstTrkInEnd :: rest)]
            /\ writes tr' = [(outputGpx, retimed ++ firstTrkInEnd :: rest')]).
Proof.
  assert (Hend : forall q, nth_error beginTrkPrts (List.length beginTrkPrts) = Some q
                           -> False).
  { intros q Hq.
    assert (nth_error beginTrkPrts (List.length beginTrkPrts) = None)
      by now apply nth_error_None.
    congruence. }
  induction 1 as [m s|i p m s tr o Hp Hqp HS IH|i p m Hp Hqp
                  |i p m a s Hp Hqp Ha|i p m a s tr o Hp Hqp Ha HS IH];
    intros tr2 o2 H2;
    inversion H2; subst;
    try (exfalso; eapply Hend; eassumption);
    try congruence.
  - repeat split. left. split; reflexivity.
  - now apply IH.
  - assert (p = trkPrt) by congruence. subst trkPrt.
    repeat split. left. split; reflexivity.
  - assert (p = trkPrt) by congruence. subst trkPrt.
    destruct (mergeFiles_same_first h firstTrkInEnd rest rest'
                (firstn (S i) beginTrkPrts) outputGpx)
      as [(e & -> & ->)|(retimed & -> & ->)]; cbn [fst snd candidates questions writes].
    + repeat split. left. split; reflexivity.
    + repeat split. right. exists retimed. split; reflexivity.
  - assert (p = trkPrt) by congruence. subst trkPrt.
    match goal with
    | HS2 : Scan _ _ (_ :: rest') _ _ _ (S i) _ _ _ _ |- _ =>
        destruct (IH _ _ HS2) as (Ho & Hc & Hq & Hw)
    end.
    cbn [candidates questions writes]. rewrite Hc, Hq. repeat split; trivial.
Qed.

End TwoEndTracks.

(** X20.  Of the end track the search reads the first point only: two
    end tracks with the same first point give the same outcome, the same
    reports and the same questions, and when the merge completes the
    two files hold the same retimed prefix, each followed by its own end
    track. *)
Theorem search_reads_first_end_point_only (h : Host)
    (beginTrkPrts : list TrkPrt) (firstTrkInEnd : TrkPrt)
    (rest rest' : list TrkPrt) (outputGpx : string)
    (thresholdMeters : float) (stdin : list string) :
  let run := findMergePoint h beginTrkPrts (firstTrkInEnd :: rest) outputGpx
               thresholdMeters stdin in
  let run' := findMergePoint h beginTrkPrts (firstTrkInEnd :: rest') outputGpx
                thresholdMeters stdin in
  snd run = snd run'
  /\ candidates (fst run) = candidates (fst run')
  /\ questions (fst run) = questions (fst run')
  /\ ((writes (fst run) = [] /\ writes (fst run') = [])
      \/ exists retimed,
          writes (fst run) = [(outputGpx, retimed ++ firstTrkInEnd :: rest)]
          /\ writes (fst run')
             = [(outputGpx, retimed ++ firstTrkInEnd :: rest')]).
Proof.
  intros run run'.
  destruct (findMergePoint_Scan h beginTrkPrts (firstTrkInEnd :: rest) outputGpx
              thresholdMeters stdin _ _ firstTrkInEnd eq_refl
              (surjective_pairing _)) as (later & E1 & HS1).
  destruct (findMergePoint_Scan h beginTrkPrts (firstTrkInEnd :: rest') outputGpx
              thresholdMeters stdin _ _ firstTrkInEnd eq_refl
              (surjective_pairing _)) as (later' & E2 & HS2).
  fold run in E1, HS1. fold run' in E2, HS2. rewrite E1, E2.
  cbn [writes questions candidates].
  destruct (Scan_same_first h _ _ _ _ _ _ _ _ _ _ _ _ HS1 _ _ HS2)
    as (Ho & Hc & Hq & Hw).
  rewrite Hc. auto.
Qed.

End EndTrackProps.

(* ================================================================= *)
(** ** The theorems on the example tracks *)

Module Examples.
Import MergeGpx RetimerProps SearchProps Samples.
Local Open Scope string_scope.
Local Open Scope list_scope.

(** The end track of the examples starts at 2021-12-18T20:14:37Z. *)
Definition T0 : Z := 1639858477000.

(** The first point of the example end track. *)
Definition endFirst : TrkPrt :=
  point "2021-12-18T20:14:37Z" "40.00005" "-105.00005".

Lemma T0_is_time_value : is_time_value T0.
Proof. unfold is_time_value, T0. lia. Defined.

Lemma T0_minus_3s_is_time_value : is_time_value (T0 - Z.of_nat 3 * 1000).
Proof. unfold is_time_value, T0. lia. Defined.





(** The example merge: the third begin point is the only one within
    10 m, the operator answers [y]. *)
Definition confirmedRun : list Event * Outcome :=
  findMergePoint SampleHost.host beginTrack endTrack "merged.gpx" 10 ["y"%string].

Lemma confirmedRun_outcome :
  confirmedRun = (fst confirmedRun, Confirmed 2 (inr tt)).
Proof. vm_compute. reflexivity. Defined.

Lemma splice_at_confirmed_index_witness :
  (confirmedRun = (fst confirmedRun, Confirmed 2 (inr tt))
   /\ hd_error endTrack = Some endFirst)
  /\ (exists T retimed,
         Date_parse SampleHost.host (time endFirst) = Some T
         /\ writes (fst confirmedRun) = [("merged.gpx"%string, retimed ++ endTrack)]
         /\ List.length (retimed ++ endTrack)
            = ((2 + 1) + List.length endTrack)%nat
         /\ (exists P q,
                nth_error beginTrack 2 = Some P
                /\ nth_error (retimed ++ endTrack) 2 = Some q
                /\ time q = SampleHost.format (T - 1000)
                /\ attr_lat q = attr_lat P
                /\ attr_lon q = attr_lon P
                /\ ele q = ele P)
         /\ nth_error (retimed ++ endTrack) (2 + 1) = Some endFirst
         /\ skipn (2 + 1) (retimed ++ endTrack) = endTrack)
  /\ Date_parse SampleHost.host (time endFirst) = Some T0
  /\ SampleHost.format (T0 - 1000) = "2021-12-18T20:14:36.000Z"%string
  /\ Date_parse SampleHost.host "2021-12-18T20:14:36.000Z" = Some (T0 - 1000)%Z.
Proof.
  split; [split; [exact confirmedRun_outcome | reflexivity] |].
  destruct (splice_at_confirmed_index SampleHost.host beginTrack endTrack
              "merged.gpx" 10 ["y"%string] (fst confirmedRun) 2 (inr tt)
              endFirst confirmedRun_outcome eq_refl)
    as (_ & Hdone).
  destruct (Hdone eq_refl)
    as (T & retimed & HT & Hw & _ & Hlen & _ & Hlast & Hnext & Hskip & _).
  split; [exists T, retimed; auto 10 |].
  split; [reflexivity |]. split; reflexivity.
Defined.

Lemma candidates_within_threshold_witness :
  (hd_error endTrack = Some endFirst)
  /\ (forall i P,
        nth_error beginTrack i = Some P ->
        (i < scanned beginTrack (snd confirmedRun))%nat ->
        ((exists c, In c (candidates (fst confirmedRun))
                    /\ cand_index c = i /\ cand_trkPrt c = P)
         <-> (haversineDist SampleHost.host (fromTrkPrt SampleHost.host endFirst)
                (fromTrkPrt SampleHost.host P) <=? 10)%float = true))
  /\ questions (fst confirmedRun) = 1%nat
  /\ map cand_index (candidates (fst confirmedRun)) = [2%nat]
  /\ snd confirmedRun = Confirmed 2 (inr tt).
Proof.
  split; [reflexivity |].
  destruct (candidates_within_threshold SampleHost.host beginTrack endTrack
              "merged.gpx" 10 ["y"%string] (fst confirmedRun) (snd confirmedRun)
              endFirst eq_refl (surjective_pairing confirmedRun))
    as (Hiff & _ & Hq & _).
  split; [exact Hiff |]. split; [rewrite Hq |]; vm_compute; auto.
Defined.

(** A run over the paused track with both questions refused: the two
    candidates are at the same distance, and the later one is flagged as
    the minimum as well. *)
Definition refusedRun : list Event * Outcome :=
  findMergePoint SampleHost.host pausedTrack endTrack "merged.gpx" 10
    ["n"%string; "no"%string].

(** The second candidate of [refusedRun]. *)
Definition laterCandidate : Candidate :=
  nth 1 (candidates (fst refusedRun))
    {| cand_index := 0; cand_trkPrt := endFirst; cand_nextPrt := None;
       cand_minDist := 0; cand_inBetween := false; cand_isMinDist := false |}.

Lemma laterCandidate_reported : In laterCandidate (candidates (fst refusedRun)).
Proof. vm_compute. right. left. reflexivity. Defined.

Lemma minimum_flag_most_recent_wins_witness :
  (hd_error endTrack = Some endFirst
   /\ In laterCandidate (candidates (fst refusedRun)))
  /\ cand_index laterCandidate = 1%nat
  /\ cand_isMinDist laterCandidate
     = (haversineDist SampleHost.host (fromTrkPrt SampleHost.host endFirst)
          (fromTrkPrt SampleHost.host (cand_trkPrt laterCandidate))
        <=? running_min SampleHost.host pausedTrack 10
              (fromTrkPrt SampleHost.host endFirst) (cand_index laterCandidate))%float
  /\ (haversineDist SampleHost.host (fromTrkPrt SampleHost.host endFirst)
        (fromTrkPrt SampleHost.host (cand_trkPrt laterCandidate))
      =? running_min SampleHost.host pausedTrack 10
           (fromTrkPrt SampleHost.host endFirst) (cand_index laterCandidate))%float
     = true
  /\ cand_isMinDist laterCandidate = true.
Proof.
  split; [split; [reflexivity | exact laterCandidate_reported] |].
  split; [reflexivity |].
  destruct (minimum_flag_most_recent_wins SampleHost.host pausedTrack endTrack
              "merged.gpx" 10 ["n"%string; "no"%string]
              (fst refusedRun) (snd refusedRun) endFirst laterCandidate
              eq_refl (surjective_pairing refusedRun) laterCandidate_reported)
    as (Hflag & _ & Htie & _).
  split; [exact Hflag |].
  assert (E : (haversineDist SampleHost.host (fromTrkPrt SampleHost.host endFirst)
                 (fromTrkPrt SampleHost.host (cand_trkPrt laterCandidate))
               =? running_min SampleHost.host pausedTrack 10
                    (fromTrkPrt SampleHost.host endFirst)
                    (cand_index laterCandidate))%float = true)
    by (vm_compute; reflexivity).
  split; [exact E | exact (Htie E)].
Defined.

(** The candidate of [confirmedRun]: index 2, with a next point. *)
Definition confirmedCandidate : Candidate :=
  nth 0 (candidates (fst confirmedRun)) laterCandidate.

Lemma confirmedCandidate_reported :
  In confirmedCandidate (candidates (fst confirmedRun)).
Proof. vm_compute. left. reflexivity. Defined.

Lemma between_flag_uses_next_point_witness :
  (hd_error endTrack = Some endFirst
   /\ In confirmedCandidate (candidates (fst confirmedRun)))
  /\ nth_error beginTrack (cand_index confirmedCandidate)
     = Some (cand_trkPrt confirmedCandidate)
  /\ (forall next,
        nth_error beginTrack (cand_index confirmedCandidate + 1) = Some next ->
        cand_inBetween confirmedCandidate
        = isBetween (fromTrkPrt SampleHost.host endFirst)
            (fromTrkPrt SampleHost.host (cand_trkPrt confirmedCandidate))
            (fromTrkPrt SampleHost.host next))
  /\ cand_index confirmedCandidate = 2%nat
  /\ cand_inBetween confirmedCandidate = true.
Proof.
  split; [split; [reflexivity | exact confirmedCandidate_reported] |].
  destruct (between_flag_uses_next_point SampleHost.host beginTrack endTrack
              "merged.gpx" 10 ["y"%string]
              (fst confirmedRun) (snd confirmedRun) endFirst confirmedCandidate
              eq_refl (surjective_pairing confirmedRun)
              confirmedCandidate_reported)
    as (Hnth & Hnext & _).
  split; [exact Hnth |]. split; [exact Hnext |]. split; reflexivity.
Defined.

(** C6 as stated fails on the code.  On a begin track whose only point
    lies due east of the first end point, within the threshold, that
    point is a candidate at the last index; the flag reported for it is
    false, but [isBetween(endFirstPoint, P, P)] is true because the two
    latitudes are equal. *)
Lemma between_flag_last_index_counterexample :
  exists c,
    candidates
      (fst (findMergePoint SampleHost.host lastPointTrack endTrack
              "merged.gpx" 10 []))
    = [c]
    /\ (cand_index c + 1 = List.length lastPointTrack)%nat
    /\ nth_error lastPointTrack (cand_index c) = Some (cand_trkPrt c)
    /\ cand_inBetween c = false
    /\ isBetween (fromTrkPrt SampleHost.host endFirst)
         (fromTrkPrt SampleHost.host (cand_trkPrt c))
         (fromTrkPrt SampleHost.host (cand_trkPrt c)) = true
    /\ cand_inBetween c
       <> isBetween (fromTrkPrt SampleHost.host endFirst)
            (fromTrkPrt SampleHost.host (cand_trkPrt c))
            (fromTrkPrt SampleHost.host (cand_trkPrt c)).
Proof.
  eexists. split; [vm_compute; reflexivity |].
  repeat split; try reflexivity. vm_compute. discriminate.
Qed.

Lemma output_written_once_after_confirmation_witness :
  List.length (writes (fst confirmedRun)) = 1%nat
  /\ (exists i before content,
         snd confirmedRun = Confirmed i (inr tt)
         /\ fst confirmedRun
            = before
              ++ [Ask_mergeAtThisPoint; Info_merging "merged.gpx";
                  WriteFile "merged.gpx" content; Info_written "merged.gpx"]
         /\ writes before = []
         /\ exists answer, In answer ["y"%string] /\ userConfirm answer = true)
  /\ (snd refusedRun = Exhausted
      /\ writes (fst refusedRun) = []
      /\ exists before, fst refusedRun = before ++ [Info_noMergePoint]).
Proof.
  destruct (output_written_once_after_confirmation SampleHost.host beginTrack
              endTrack "merged.gpx" 10 ["y"%string]
              (fst confirmedRun) (snd confirmedRun)
              (surjective_pairing confirmedRun))
    as (_ & Hafter & Honce & _).
  destruct (output_written_once_after_confirmation SampleHost.host pausedTrack
              endTrack "merged.gpx" 10 ["n"%string; "no"%string]
              (fst refusedRun) (snd refusedRun)
              (surjective_pairing refusedRun))
    as (_ & _ & _ & _ & Hex & _).
  split; [apply (Honce 2); vm_compute; reflexivity |].
  split; [apply Hafter; vm_compute; discriminate |].
  assert (E : snd refusedRun = Exhausted) by (vm_compute; reflexivity).
  split; [exact E | exact (Hex E)].
Defined.

Lemma retiming_changes_only_time_witness :
  (hd_error endTrack = Some endFirst
   /\ Date_parse SampleHost.host (time endFirst) = Some T0
   /\ is_time_value T0
   /\ is_time_value (T0 - Z.of_nat (List.length (firstn 3 beginTrack)) * 1000))
  /\ exists tr retimed,
      mergeFiles SampleHost.host endTrack (firstn 3 beginTrack) "merged.gpx"
      = (tr, inr tt)
      /\ writes tr = [("merged.gpx"%string, retimed ++ endTrack)]
      /\ forall k p,
          nth_error (firstn 3 beginTrack) k = Some p ->
          exists q,
            nth_error (retimed ++ endTrack) k = Some q
            /\ attr_lat q = attr_lat p
            /\ attr_lon q = attr_lon p
            /\ ele q = ele p
            /\ q = set_time p (time q).
Proof.
  split; [repeat split; try reflexivity;
          [exact T0_is_time_value | exact T0_minus_3s_is_time_value] |].
  destruct (retiming_changes_only_time SampleHost.host endTrack
              (firstn 3 beginTrack) "merged.gpx")
    as (Hframe & _ & Hruns).
  destruct (Hruns endFirst T0 eq_refl eq_refl T0_is_time_value
              T0_minus_3s_is_time_value) as [tr Htr].
  destruct (Hframe tr Htr) as (retimed & Hw & _ & Hk).
  exists tr, retimed. auto.
Defined.

(** The point at latitude 40, longitude -105. *)
Definition boulder : LatLng :=
  {| lat := 40%float; lng := (-105)%float |}.

Lemma haversineDist_properties_witness :
  (HaversineProps.sin_is_odd SampleHost.host
   /\ HaversineProps.sqrt_keeps_sign SampleHost.host
   /\ HaversineProps.atan2_negative_only_below SampleHost.host
   /\ HaversineProps.zero_values SampleHost.host
   /\ HaversineProps.finite_point boulder)
  /\ (haversineDist SampleHost.host boulder (fromTrkPrt SampleHost.host endFirst)
      <? 0)%float = false
  /\ haversineDist SampleHost.host boulder (fromTrkPrt SampleHost.host endFirst)
     = haversineDist SampleHost.host (fromTrkPrt SampleHost.host endFirst) boulder
  /\ haversineDist SampleHost.host boulder boulder = 0%float
  /\ haversineDist SampleHost.host HaversineProps.origin
       HaversineProps.nextToOrigin = 0%float.
Proof.
  split.
  { split; [exact SampleHostFacts.sample_sin_is_odd |].
    split; [exact SampleHostFacts.sample_sqrt_keeps_sign |].
    split; [exact SampleHostFacts.sample_atan2_negative_only_below |].
    split; [exact SampleHostFacts.sample_zero_values |].
    split; reflexivity. }
  destruct (HaversineProps.haversineDist_properties SampleHost.host
              SampleHostFacts.sample_sin_is_odd
              SampleHostFacts.sample_sqrt_keeps_sign
              SampleHostFacts.sample_atan2_negative_only_below
              SampleHostFacts.sample_zero_values)
    as (Hneg & Hsym & _ & Hself & _ & Hzero & _).
  split; [apply Hneg |]. split; [apply Hsym |].
  split; [apply Hself; [split; reflexivity | reflexivity] | exact Hzero].
Defined.

(** C8 as stated fails on the code: two points that differ in one bit
    of the longitude, and two that differ in the sign of a zero
    latitude, are at distance 0, so a zero distance does not mean equal
    points. *)
Lemma zero_distance_distinct_points_counterexample :
  (haversineDist SampleHost.host HaversineProps.origin
     HaversineProps.nextToOrigin =? 0)%float = true
  /\ HaversineProps.origin <> HaversineProps.nextToOrigin
  /\ (haversineDist SampleHost.host {| lat := 0%float; lng := 0%float |}
        {| lat := (-0)%float; lng := 0%float |} =? 0)%float = true
  /\ {| lat := 0%float; lng := 0%float |}
     <> {| lat := (-0)%float; lng := 0%float |}
  /\ ~ (forall a b : LatLng,
          (haversineDist SampleHost.host a b =? 0)%float = true <-> a = b).
Proof.
  split; [reflexivity |].
  split; [exact HaversineProps.origin_neq_nextToOrigin |].
  split; [reflexivity |].
  split.
  - intros H. apply (f_equal (fun p => Prim2SF (lat p))) in H.
    vm_compute in H. discriminate.
  - intros H.
    apply HaversineProps.origin_neq_nextToOrigin, H. reflexivity.
Qed.

End Examples.

(* ================================================================= *)
(** ** The further theorems on the example tracks *)

Module MoreExamples.
Import MergeGpx RetimerProps SearchProps Samples Examples.
Local Open Scope string_scope.
Local Open Scope list_scope.

(** The first point of an end track whose time is not a date. *)
Definition undatedFirst : TrkPrt := point "yesterday" "40.00005" "-105.00005".

Definition undatedEnd : list TrkPrt := [undatedFirst].

(** The example merge against that end track. *)
Definition undatedRun : list Event * Outcome :=
  findMergePoint SampleHost.host beginTrack undatedEnd "merged.gpx" 10 ["y"].

Lemma undatedRun_outcome :
  undatedRun = (fst undatedRun, Confirmed 2 (inl RangeError)).
Proof. vm_compute. reflexivity. Defined.

Lemma confirmed_merge_completes_iff_witness :
  (undatedRun = (fst undatedRun, Confirmed 2 (inl RangeError))
   /\ hd_error undatedEnd = Some undatedFirst)
  /\ Date_parse SampleHost.host (time undatedFirst) = None
  /\ writes (fst undatedRun) = []
  /\ (exists before,
         fst undatedRun
         = before ++ [Ask_mergeAtThisPoint; Info_merging "merged.gpx"])
  /\ (exists T,
         Date_parse SampleHost.host (time endFirst) = Some T
         /\ is_time_value (T - Z.of_nat (2 + 1) * 1000)
         /\ is_time_value (T - 1000)).
Proof.
  split; [split; [exact undatedRun_outcome | reflexivity] |].
  split; [reflexivity |].
  destruct (FailureProps.confirmed_merge_completes_iff SampleHost.host
              beginTrack undatedEnd "merged.gpx" 10 ["y"] (fst undatedRun) 2
              (inl RangeError) undatedFirst undatedRun_outcome eq_refl)
    as [_ Hfail].
  destruct (Hfail ltac:(discriminate)) as (_ & Hw & Hb).
  split; [exact Hw |]. split; [exact Hb |].
  destruct (FailureProps.confirmed_merge_completes_iff SampleHost.host
              beginTrack endTrack "merged.gpx" 10 ["y"] (fst confirmedRun) 2
              (inr tt) endFirst confirmedRun_outcome eq_refl)
    as [Hiff _].
  exact (proj1 Hiff eq_refl).
Defined.

Lemma sample_signs :
  HaversineProps.sqrt_keeps_sign SampleHost.host
  /\ HaversineProps.atan2_negative_only_below SampleHost.host
  /\ HaversineProps.zero_values SampleHost.host.
Proof.
  split; [exact SampleHostFacts.sample_sqrt_keeps_sign |].
  split; [exact SampleHostFacts.sample_atan2_negative_only_below |].
  exact SampleHostFacts.sample_zero_values.
Defined.

(** Thresholds of -1 and of NaN on the example tracks. *)
Lemma threshold_rejecting_everything_witness :
  ((-1 <? 0)%float = true
   /\ HaversineProps.sqrt_keeps_sign SampleHost.host
   /\ HaversineProps.atan2_negative_only_below SampleHost.host
   /\ HaversineProps.zero_values SampleHost.host)
  /\ findMergePoint SampleHost.host beginTrack endTrack "merged.gpx" (-1) ["y"]
     = ([Info_pointToMergeWith endFirst; Info_noMergePoint], Exhausted)
  /\ is_nan nan = true
  /\ findMergePoint SampleHost.host beginTrack endTrack "merged.gpx" nan ["y"]
     = ([Info_pointToMergeWith endFirst; Info_noMergePoint], Exhausted).
Proof.
  assert (H : (-1 <? 0)%float = true
              /\ HaversineProps.sqrt_keeps_sign SampleHost.host
              /\ HaversineProps.atan2_negative_only_below SampleHost.host
              /\ HaversineProps.zero_values SampleHost.host)
    by (split; [reflexivity | exact sample_signs]).
  split; [exact H |]. split.
  - exact (ThresholdProps.threshold_rejecting_everything SampleHost.host
             beginTrack endFirst (tl endTrack) "merged.gpx" (-1)%float ["y"]
             (or_intror H)).
  - split; [reflexivity |].
    exact (ThresholdProps.threshold_rejecting_everything SampleHost.host
             beginTrack endFirst (tl endTrack) "merged.gpx" nan ["y"]
             (or_introl eq_refl)).
Defined.

Lemma sample_nan_propagates : ThresholdProps.nan_propagates SampleHost.host.
Proof. split; [reflexivity | split; [reflexivity | intros x; reflexivity]]. Defined.

(** A begin track whose first point has a latitude that is not a
    number. *)
Definition unparsedTrack : list TrkPrt :=
  [point "2021-12-11T18:00:00Z" "north" "-105.00000";
   point "2021-12-11T18:00:01Z" "40.00000" "-105.00000"].

Definition unparsedRun : list Event * Outcome :=
  findMergePoint SampleHost.host unparsedTrack endTrack "merged.gpx" 10 [].

Lemma unparsed_coordinates_never_offered_witness :
  (ThresholdProps.nan_propagates SampleHost.host
   /\ hd_error endTrack = Some endFirst)
  /\ is_nan (Number_parseFloat SampleHost.host "north") = true
  /\ (forall c, In c (candidates (fst unparsedRun)) ->
        is_nan (Number_parseFloat SampleHost.host (attr_lat (cand_trkPrt c)))
        = false
        /\ is_nan (Number_parseFloat SampleHost.host (attr_lon (cand_trkPrt c)))
           = false)
  /\ map cand_index (candidates (fst unparsedRun)) = [1%nat].
Proof.
  split; [split; [exact sample_nan_propagates | reflexivity] |].
  split; [reflexivity |].
  destruct (ThresholdProps.unparsed_coordinates_never_offered SampleHost.host
              unparsedTrack endTrack "merged.gpx" 10 [] (fst unparsedRun)
              (snd unparsedRun) endFirst sample_nan_propagates eq_refl
              (surjective_pairing unparsedRun))
    as [Hc _].
  split; [exact Hc | reflexivity].
Defined.

(** The example begin track with a threshold of 200 m and every
    question refused: all four points are offered. *)
Definition fourRefusals : list string := ["n"; "no"; "n"; "no"].

Definition wideRun : list Event * Outcome :=
  findMergePoint SampleHost.host beginTrack endTrack "merged.gpx" 200 fourRefusals.

Definition narrowRun : list Event * Outcome :=
  findMergePoint SampleHost.host beginTrack endTrack "merged.gpx" 10 fourRefusals.

Lemma fourRefusals_refuse :
  forall answer, In answer fourRefusals -> userConfirm answer = false.
Proof. intros a [<-|[<-|[<-|[<-|[]]]]]; reflexivity. Defined.

Lemma larger_threshold_keeps_candidates_witness :
  (hd_error endTrack = Some endFirst
   /\ (10 <=? 200)%float = true
   /\ (forall answer, In answer fourRefusals -> userConfirm answer = false)
   /\ (List.length beginTrack <= List.length fourRefusals)%nat)
  /\ snd narrowRun = Exhausted
  /\ snd wideRun = Exhausted
  /\ incl (map cand_index (candidates (fst narrowRun)))
          (map cand_index (candidates (fst wideRun)))
  /\ map cand_index (candidates (fst narrowRun)) = [2%nat]
  /\ map cand_index (candidates (fst wideRun)) = [0; 1; 2; 3]%nat.
Proof.
  split.
  { split; [reflexivity |]. split; [reflexivity |].
    split; [exact fourRefusals_refuse | cbn; lia]. }
  destruct (ThresholdProps.larger_threshold_keeps_candidates SampleHost.host
              beginTrack endTrack "merged.gpx" 10 200 fourRefusals endFirst
              eq_refl eq_refl fourRefusals_refuse (le_n 4))
    as (Ho & Ho' & Hincl & _).
  split; [exact Ho |]. split; [exact Ho' |]. split; [exact Hincl |].
  split; vm_compute; reflexivity.
Defined.

Lemma outcome_by_first_accepted_answer_witness :
  (hd_error endTrack = Some endFirst)
  /\ AnswerProps.first_yes ["y"] = Some 0%nat
  /\ ((exists merge, snd confirmedRun = Confirmed 2 merge)
      /\ questions (fst confirmedRun) = 1%nat)
  /\ AnswerProps.first_yes fourRefusals = None
  /\ (snd wideRun = Exhausted /\ questions (fst wideRun) = 4%nat).
Proof.
  split; [reflexivity |]. split; [reflexivity |]. split.
  - exact (AnswerProps.outcome_by_first_accepted_answer SampleHost.host
             beginTrack endTrack "merged.gpx" 10 ["y"]
             (fst confirmedRun) (snd confirmedRun) endFirst eq_refl
             (surjective_pairing confirmedRun)).
  - split; [reflexivity |].
    exact (AnswerProps.outcome_by_first_accepted_answer SampleHost.host
             beginTrack endTrack "merged.gpx" 200 fourRefusals
             (fst wideRun) (snd wideRun) endFirst eq_refl
             (surjective_pairing wideRun)).
Defined.

(** The last candidate of [wideRun]: farther away than the one before
    it. *)
Definition lastCandidate : Candidate :=
  nth 3 (candidates (fst wideRun)) laterCandidate.

Lemma lastCandidate_reported : In lastCandidate (candidates (fst wideRun)).
Proof. vm_compute. do 3 right. left. reflexivity. Defined.

Lemma printed_distance_is_running_minimum_witness :
  (hd_error endTrack = Some endFirst
   /\ In lastCandidate (candidates (fst wideRun)))
  /\ cand_index lastCandidate = 3%nat
  /\ cand_isMinDist lastCandidate = false
  /\ (cand_minDist lastCandidate
      <=? haversineDist SampleHost.host (fromTrkPrt SampleHost.host endFirst)
            (fromTrkPrt SampleHost.host (cand_trkPrt lastCandidate)))%float = true
  /\ (cand_minDist lastCandidate
      <? haversineDist SampleHost.host (fromTrkPrt SampleHost.host endFirst)
           (fromTrkPrt SampleHost.host (cand_trkPrt lastCandidate)))%float = true
  /\ (forall c later,
        candidates (fst wideRun) = c :: later -> cand_isMinDist c = true).
Proof.
  split; [split; [reflexivity | exact lastCandidate_reported] |].
  split; [reflexivity |].
  assert (Hflag : cand_isMinDist lastCandidate = false) by reflexivity.
  split; [exact Hflag |].
  destruct (MinimumProps.printed_distance_is_running_minimum SampleHost.host
              beginTrack endTrack "merged.gpx" 200 fourRefusals
              (fst wideRun) (snd wideRun) endFirst eq_refl
              (surjective_pairing wideRun))
    as (Hall & Hfirst & _).
  destruct (Hall lastCandidate lastCandidate_reported) as (_ & Hle & Hlt).
  split; [exact Hle |]. split; [exact (Hlt Hflag) | exact Hfirst].
Defined.

(** The example begin track with its times blanked. *)
Definition blankedTrack : list TrkPrt :=
  map (fun p => set_time p "") beginTrack.

Lemma blankedTrack_same :
  Forall2 IndependenceProps.same_but_time beginTrack blankedTrack.
Proof. repeat constructor. Defined.

Lemma begin_times_never_read_witness :
  Forall2 IndependenceProps.same_but_time beginTrack blankedTrack
  /\ snd confirmedRun
     = snd (findMergePoint SampleHost.host blankedTrack endTrack "merged.gpx"
              10 ["y"])
  /\ writes (fst confirmedRun)
     = writes (fst (findMergePoint SampleHost.host blankedTrack endTrack
                      "merged.gpx" 10 ["y"])).
Proof.
  split; [exact blankedTrack_same |].
  destruct (IndependenceProps.begin_times_never_read SampleHost.host
              beginTrack blankedTrack endTrack "merged.gpx" 10 ["y"]
              blankedTrack_same)
    as (Ho & Hw & _).
  split; [exact Ho | exact Hw].
Defined.

Lemma blankedPrefix_same :
  Forall2 IndependenceProps.same_but_time
    (firstn 3 beginTrack) (firstn 3 blankedTrack).
Proof. repeat constructor. Defined.

Lemma mergeFiles_ignores_prefix_times_witness :
  Forall2 IndependenceProps.same_but_time
    (firstn 3 beginTrack) (firstn 3 blankedTrack)
  /\ mergeFiles SampleHost.host endTrack (firstn 3 beginTrack) "merged.gpx"
     = mergeFiles SampleHost.host endTrack (firstn 3 blankedTrack) "merged.gpx"
  /\ snd (mergeFiles SampleHost.host endTrack (firstn 3 blankedTrack) "merged.gpx")
     = inr tt.
Proof.
  split; [exact blankedPrefix_same |].
  destruct (IndependenceProps.mergeFiles_ignores_prefix_times SampleHost.host
              endTrack (firstn 3 beginTrack) (firstn 3 blankedTrack)
              "merged.gpx" blankedPrefix_same)
    as [Heq _].
  split; [exact Heq | reflexivity].
Defined.

Lemma T0_minus_2s_is_time_value : is_time_value (T0 - Z.of_nat 2 * 1000).
Proof. unfold is_time_value, T0. lia. Defined.

(** The single-file script on two points. *)
Lemma script_log_lines_witness :
  ((2 <= List.length singleFileTrack)%nat
   /\ Date_parse SampleHost.host FixGpx.timeToReach = Some T0
   /\ is_time_value T0
   /\ is_time_value (T0 - Z.of_nat (List.length singleFileTrack) * 1000))
  /\ (exists retimed,
         FixGpx.script SampleHost.host (FixGpx.parsed_trkpt singleFileTrack)
         = (flat_map
              (ScriptProps.log_at SampleHost.host singleFileTrack
                 (T0 - Z.of_nat 2 * 1000)) (seq 0 2)
            ++ [FixGpx.WriteFile "./lunch-ride-fixed.gpx" retimed], inr tt))
  /\ List.length
       (filter ScriptProps.is_time_line
          (fst (FixGpx.script SampleHost.host
                  (FixGpx.parsed_trkpt singleFileTrack)))) = 2%nat
  /\ List.length
       (filter ScriptProps.is_distance_line
          (fst (FixGpx.script SampleHost.host
                  (FixGpx.parsed_trkpt singleFileTrack)))) = 1%nat.
Proof.
  split; [split; [exact (le_n 2) | split; [reflexivity | split;
          [exact T0_is_time_value | exact T0_minus_2s_is_time_value]]] |].
  destruct (ScriptProps.script_log_lines SampleHost.host singleFileTrack T0
              (le_n 2) eq_refl T0_is_time_value T0_minus_2s_is_time_value)
    as (Hrun & _).
  split; [exact Hrun |]. split; reflexivity.
Defined.

Lemma script_logs_no_negative_number_witness :
  (HaversineProps.sqrt_keeps_sign SampleHost.host
   /\ HaversineProps.atan2_negative_only_below SampleHost.host
   /\ HaversineProps.zero_values SampleHost.host)
  /\ (forall dist,
        In (FixGpx.Warn_distance dist)
           (fst (FixGpx.script SampleHost.host
                   (FixGpx.parsed_trkpt singleFileTrack))) ->
        (dist <? 0)%float = false)
  /\ (forall milesPerHour,
        In (FixGpx.Warn_speed milesPerHour)
           (fst (FixGpx.script SampleHost.host
                   (FixGpx.parsed_trkpt singleFileTrack))) ->
        (milesPerHour <? 0)%float = false).
Proof.
  split; [exact sample_signs |].
  destruct sample_signs as (Hsqrt & Hatan & Hzero).
  destruct (ScriptNumberProps.script_logs_no_negative_number SampleHost.host
              (FixGpx.parsed_trkpt singleFileTrack) Hsqrt Hatan Hzero)
    as (Hd & Hs & _).
  split; [exact Hd | exact Hs].
Defined.

Lemma script_retimes_like_mergeFiles_witness :
  ((2 <= List.length singleFileTrack)%nat
   /\ List.length (firstn 2 beginTrack) = List.length singleFileTrack
   /\ Date_parse SampleHost.host (time endFirst)
      = Date_parse SampleHost.host FixGpx.timeToReach)
  /\ snd (mergeFiles SampleHost.host endTrack (firstn 2 beginTrack) "merged.gpx")
     = snd (FixGpx.script SampleHost.host (FixGpx.parsed_trkpt singleFileTrack))
  /\ exists retimed retimed',
      writes (fst (mergeFiles SampleHost.host endTrack (firstn 2 beginTrack)
                     "merged.gpx"))
      = [("merged.gpx", retimed ++ endTrack)]
      /\ ScriptProps.file_writes
           (fst (FixGpx.script SampleHost.host
                   (FixGpx.parsed_trkpt singleFileTrack)))
         = [("./lunch-ride-fixed.gpx", retimed')]
      /\ map time retimed = map FixGpx.time retimed'.
Proof.
  split; [split; [exact (le_n 2) | split; reflexivity] |].
  destruct (RetimerAgreement.script_retimes_like_mergeFiles SampleHost.host
              singleFileTrack (firstn 2 beginTrack) endFirst (tl endTrack)
              "merged.gpx" (le_n 2) eq_refl eq_refl)
    as (Hsame & Hwrites & _).
  split; [exact Hsame |]. exact (Hwrites eq_refl).
Defined.

Lemma sample_square_is_even : LinearDistProps.square_is_even SampleHost.pow.
Proof. intros x. exact (FloatSigns.mul_opp_opp x x). Defined.

Lemma linearDist_properties_witness :
  (HaversineProps.sqrt_keeps_sign SampleHost.host
   /\ Math_sqrt SampleHost.host 0 = 0%float
   /\ LinearDistProps.square_is_even SampleHost.pow
   /\ LinearDistProps.square_of_zero SampleHost.pow)
  /\ (linearDist SampleHost.host SampleHost.pow 40 (-105) 40.5 (-104.5) <? 0)%float
     = false
  /\ linearDist SampleHost.host SampleHost.pow 40 (-105) 40.5 (-104.5)
     = linearDist SampleHost.host SampleHost.pow 40.5 (-104.5) 40 (-105)
  /\ linearDist SampleHost.host SampleHost.pow 40 (-105) 40 (-105) = 0%float.
Proof.
  split.
  { split; [exact SampleHostFacts.sample_sqrt_keeps_sign |].
    split; [reflexivity |]. split; [exact sample_square_is_even | reflexivity]. }
  destruct (LinearDistProps.linearDist_properties SampleHost.host SampleHost.pow
              SampleHostFacts.sample_sqrt_keeps_sign eq_refl
              sample_square_is_even eq_refl)
    as (Hneg & Hsym & Hself & _).
  split; [apply Hneg |]. split; [apply Hsym |].
  apply Hself; reflexivity.
Defined.

Lemma reports_in_track_order_witness :
  (hd_error endTrack = Some endFirst)
  /\ map cand_index (candidates (fst wideRun)) = [0; 1; 2; 3]%nat
  /\ scanned beginTrack (snd wideRun) = 4%nat
  /\ (forall k k' c c',
        (k < k')%nat ->
        nth_error (candidates (fst wideRun)) k = Some c ->
        nth_error (candidates (fst wideRun)) k' = Some c' ->
        (cand_index c < cand_index c')%nat)
  /\ (forall c, In c (candidates (fst wideRun)) ->
        nth_error beginTrack (cand_index c) = Some (cand_trkPrt c)).
Proof.
  split; [reflexivity |].
  destruct (OrderProps.reports_in_track_order SampleHost.host beginTrack
              endTrack "merged.gpx" 200 fourRefusals (fst wideRun) (snd wideRun)
              endFirst eq_refl (surjective_pairing wideRun))
    as (Hoff & Horder & Hpoints).
  split; [rewrite Hoff; vm_compute; reflexivity |].
  split; [vm_compute; reflexivity |].
  split; [exact Horder | exact Hpoints].
Defined.

Lemma script_changes_only_time_witness :
  snd (FixGpx.script SampleHost.host (FixGpx.parsed_trkpt singleFileTrack))
  = inr tt
  /\ exists retimed,
      ScriptProps.file_writes
        (fst (FixGpx.script SampleHost.host (FixGpx.parsed_trkpt singleFileTrack)))
      = [("./lunch-ride-fixed.gpx", retimed)]
      /\ List.length retimed = List.length singleFileTrack
      /\ map FixGpx.attr_lat retimed = ["40.00000"; "40.00005"]
      /\ map FixGpx.time retimed
         = ["2021-12-18T20:14:35.000Z"; "2021-12-18T20:14:36.000Z"].
Proof.
  split; [reflexivity |].
  destruct (ScriptFrameProps.script_changes_only_time SampleHost.host
              (FixGpx.parsed_trkpt singleFileTrack) eq_refl)
    as (trkPrts & retimed & Harr & Hw & Hlen & _).
  injection Harr as <-.
  exists retimed. split; [exact Hw |]. split; [exact Hlen |].
  assert (E : ScriptProps.file_writes
                (fst (FixGpx.script SampleHost.host
                        (FixGpx.parsed_trkpt singleFileTrack)))
              = [("./lunch-ride-fixed.gpx",
                  [ {| FixGpx.time := "2021-12-18T20:14:35.000Z";
                       FixGpx.attr_lat := "40.00000";
                       FixGpx.attr_lon := "-105.00000" |};
                    {| FixGpx.time := "2021-12-18T20:14:36.000Z";
                       FixGpx.attr_lat := "40.00005";
                       FixGpx.attr_lon := "-105.00005" |} ])])
    by (vm_compute; reflexivity).
  rewrite E in Hw. injection Hw as <-. split; reflexivity.
Defined.

End MoreExamples.
